(** * fitbit-backup: a shallow embedding of the three program variants

    The repository holds three variants of one sequential program:
    - [Cacher]: backup.go, OAuth 2.0 with [cacherTransport];
    - [FileSource]: the variant built on [FileTokenSource];
    - [OAuth1]: the OAuth 1.0a variant.
    All three share the tail of [main]: decode the time-series reply,
    walk 30-day windows up to the current time, print every weight entry.

    Everything outside the program (clock, network, token endpoint, the
    user at the terminal, file-system failures) is an oracle of the
    environment [Env], indexed by a tick that counts the interactions made
    so far.  Two library functions of which the program uses the result
    only ([url.Parse] with [Query().Get("code")], and the verb [%q] of
    package fmt) are parameters of [Env] too.  What the program does to the
    outside is a list of [Event]s. *)

From Stdlib Require Import ZArith List String Ascii Bool Lia.
Import ListNotations.
Local Open Scope string_scope.
Local Open Scope Z_scope.

(** ** Go strings *)

Module GoString.

Definition nl : string := String (ascii_of_nat 10) EmptyString.
Definition dquote : string := String (ascii_of_nat 34) EmptyString.

(** The first [n] bytes of [s], or as many as there are. *)
Fixpoint take (n : nat) (s : string) : string :=
  match n, s with
  | S n', String c s' => String c (take n' s')
  | _, _ => EmptyString
  end.

(** [s[0:hi]]: Go panics when [hi > len(s)]; [None] stands for the panic. *)
Definition slice_to (s : string) (hi : nat) : option string :=
  if (hi <=? String.length s)%nat then Some (take hi s) else None.

Definition is_digit (c : ascii) : bool :=
  let n := nat_of_ascii c in ((48 <=? n) && (n <=? 57))%nat.

Definition digit_char (d : Z) : ascii := ascii_of_nat (48 + Z.to_nat d).

Definition digit_val (c : ascii) : Z := Z.of_nat (nat_of_ascii c) - 48.

Fixpoint all_digits (s : string) : bool :=
  match s with
  | EmptyString => true
  | String c s' => is_digit c && all_digits s'
  end.

(** Decimal digits of a natural number, most significant first; [fuel]
    bounds the number of digits. *)
Fixpoint digits_aux (fuel : nat) (n : Z) (acc : string) : string :=
  match fuel with
  | O => acc
  | S fuel' =>
      let acc' := String (digit_char (n mod 10)) acc in
      if n / 10 =? 0 then acc' else digits_aux fuel' (n / 10) acc'
  end.

(** [%d] of a non-negative integer. *)
Definition decimal (n : Z) : string :=
  digits_aux (S (Z.to_nat (Z.log2 n))) n EmptyString.

(** [n] written with at least [w] digits, zero padded on the left. *)
Fixpoint zero_pad (w : nat) (s : string) : string :=
  if (w <=? String.length s)%nat then s
  else match w with
       | O => s
       | S w' => String "0"%char (zero_pad w' s)
       end.

Fixpoint value_of (s : string) (acc : Z) : Z :=
  match s with
  | EmptyString => acc
  | String c s' => value_of s' (10 * acc + digit_val c)
  end.

(** [unicode.IsSpace] of one rune, given by the bytes of its UTF-8
    encoding: tab to carriage return, space, U+0085, U+00A0, U+1680,
    U+2000 to U+200A, U+2028, U+2029, U+202F, U+205F, U+3000. *)
Definition is_space_rune (bytes : list nat) : bool :=
  match bytes with
  | [a] => (((9 <=? a) && (a <=? 13)) || (a =? 32))%nat
  | [a; b] => ((a =? 194) && ((b =? 133) || (b =? 160)))%nat
  | [a; b; c] =>
      (((a =? 225) && (b =? 154) && (c =? 128)) ||
       ((a =? 226) && (b =? 128) &&
        (((128 <=? c) && (c <=? 138)) || (c =? 168) || (c =? 169) || (c =? 175))) ||
       ((a =? 226) && (b =? 129) && (c =? 159)) ||
       ((a =? 227) && (b =? 128) && (c =? 128)))%nat
  | _ => false
  end.

(** The bytes of [s] after its leading white space; with [back], [s] is a
    string read from its end, and the bytes of a rune come last byte
    first. *)
Fixpoint trim (back : bool) (s : list ascii) : list ascii :=
  let rune := fun bytes : list ascii =>
    is_space_rune (map nat_of_ascii (if back then List.rev bytes else bytes)) in
  match s with
  | [] => []
  | a :: s1 =>
      if rune [a] then trim back s1
      else
        match s1 with
        | [] => s
        | b :: s2 =>
            if rune [a; b] then trim back s2
            else
              match s2 with
              | [] => s
              | c :: s3 => if rune [a; b; c] then trim back s3 else s
              end
        end
  end.

(** [strings.TrimSpace(s)]: [s] without leading and trailing white space,
    as Unicode defines it. *)
Definition TrimSpace (s : string) : string :=
  string_of_list_ascii
    (List.rev (trim true (List.rev (trim false (list_ascii_of_string s))))).

End GoString.

(** ** package time: instants, durations and the layout "2006-01-02" *)

Module GoTime.
Import GoString.

(** A [time.Time] is an instant, counted in nanoseconds since the Unix
    epoch; a [time.Duration] is a number of nanoseconds.  The program adds
    only the constants [-24h] and [30*24h] to instants between the years 0
    and 9999 and the current time, far inside the range of [time.Time]. *)
Abbreviation Time := Z (only parsing).
Abbreviation Duration := Z (only parsing).

Definition Nanosecond : Duration := 1.
Definition Second : Duration := 1000000000.
Definition Hour : Duration := 3600 * Second.
Definition Day : Duration := 24 * Hour.

Definition Add (t : Time) (d : Duration) : Time := t + d.
Definition Before (t u : Time) : bool := t <? u.
Definition After (t u : Time) : bool := u <? t.

(** The zero [time.Time]: January 1, year 1, 00:00 UTC. *)
Definition zero_time : Time := -62135596800 * Second.
Definition IsZero (t : Time) : bool := t =? zero_time.

(** Day number (days since 1970-01-01) of an instant, in UTC. *)
Definition day_of (t : Time) : Z := t / Day.
Definition midnight (d : Z) : Time := d * Day.

Definition is_leap (y : Z) : bool :=
  (y mod 4 =? 0) && (negb (y mod 100 =? 0) || (y mod 400 =? 0)).

Definition daysIn (m y : Z) : Z :=
  if m =? 2 then (if is_leap y then 29 else 28)
  else if (m =? 4) || (m =? 6) || (m =? 9) || (m =? 11) then 30
  else 31.

(** Proleptic Gregorian calendar: civil date to day number. *)
Definition days_from_civil (y m d : Z) : Z :=
  let y' := if m <=? 2 then y - 1 else y in
  let era := y' / 400 in
  let yoe := y' - era * 400 in
  let mp := if 2 <? m then m - 3 else m + 9 in
  let doy := (153 * mp + 2) / 5 + d - 1 in
  let doe := yoe * 365 + yoe / 4 - yoe / 100 + doy in
  era * 146097 + doe - 719468.

(** Day number to civil date (year, month, day). *)
Definition civil_from_days (z0 : Z) : Z * Z * Z :=
  let z := z0 + 719468 in
  let era := z / 146097 in
  let doe := z - era * 146097 in
  let yoe := (doe - doe / 1460 + doe / 36524 - doe / 146096) / 365 in
  let doy := doe - (365 * yoe + yoe / 4 - yoe / 100) in
  let mp := (5 * doy + 2) / 153 in
  let d := doy - (153 * mp + 2) / 5 + 1 in
  let m := if mp <? 10 then mp + 3 else mp - 9 in
  let y := yoe + era * 400 in
  (if m <=? 2 then y + 1 else y, m, d).

Definition Year (t : Time) : Z :=
  let '(y, _, _) := civil_from_days (day_of t) in y.

(** [time.Parse("2006-01-02", s)]: four digits, a dash, two digits, a dash,
    two digits and nothing else; the month is in 1..12 and the day exists
    in that month.  The result is midnight UTC of that date. *)
Definition parse_day (s : string) : option Z :=
  match s with
  | String y1 (String y2 (String y3 (String y4 (String "-"
      (String m1 (String m2 (String "-"
      (String d1 (String d2 EmptyString))))))))) =>
      if all_digits (String y1 (String y2 (String y3 (String y4
           (String m1 (String m2 (String d1 (String d2 EmptyString))))))))
      then
        let y := value_of (String y1 (String y2 (String y3 (String y4 EmptyString)))) 0 in
        let m := value_of (String m1 (String m2 EmptyString)) 0 in
        let d := value_of (String d1 (String d2 EmptyString)) 0 in
        if (1 <=? m) && (m <=? 12) && (1 <=? d) && (d <=? daysIn m y)
        then Some (days_from_civil y m d)
        else None
      else None
  | _ => None
  end.

Definition Parse (s : string) : option Time :=
  option_map midnight (parse_day s).

(** [t.Format("2006-01-02")] for an instant in UTC, years 0 and later. *)
Definition Format (t : Time) : string :=
  let '(y, m, d) := civil_from_days (day_of t) in
  zero_pad 4 (decimal y) ++ "-" ++ zero_pad 2 (decimal m) ++ "-" ++ zero_pad 2 (decimal d).

End GoTime.

(** ** package fmt: the verb [%.1f] *)

Module GoFmt.
Import GoString.

(** A finite binary64 value [(-1)^neg * mant * 2^exp] with [0 <= mant]:
    the only values a JSON number decodes to (the decoder rejects what
    overflows, and JSON has no NaN or infinity). *)
Record float64 := { f_neg : bool; f_mant : Z; f_exp : Z }.

(** [|x| * 10] rounded to the nearest integer, ties to even: the decimal
    conversion of [strconv.FormatFloat(x, 'f', 1, 64)] is exact. *)
Definition round_tenths (m e : Z) : Z :=
  let n := 10 * m in
  if 0 <=? e then n * 2 ^ e
  else
    let d := 2 ^ (- e) in
    let q := n / d in
    let r := n mod d in
    if (d <? 2 * r) || ((d =? 2 * r) && Z.odd q) then q + 1 else q.

(** [fmt.Sprintf("%.1f", x)]. *)
Definition format_f1 (x : float64) : string :=
  let n := round_tenths (Z.abs (f_mant x)) (f_exp x) in
  (if f_neg x then "-" else "") ++
  decimal (n / 10) ++ "." ++ String (digit_char (n mod 10)) EmptyString.

End GoFmt.

(** ** The data the program decodes, and what it does to the outside *)

(** The JSON structs of [main]. *)
Record weight := {
  Bmi : GoFmt.float64;
  Date : string;
  Logid : Z;
  Time : string;
  Weight : GoFmt.float64
}.

Record timeSeriesEntry := { DateTime : string; Value : string }.
Record timeSeriesReply := { Entries : list timeSeriesEntry }.
Record weightReply := { Weights : list weight }.

(** [oauth2.Token]. *)
Record Token := {
  AccessToken : string;
  TokenType : string;
  RefreshToken : string;
  Expiry : GoTime.Time
}.

(** [oauth.AccessToken] of the OAuth 1.0a library. *)
Record AccessToken1 := { Token1 : string; Secret1 : string }.

(** Error values.  [errExpiredToken] and [ErrNoAuthCode] are the package
    variables of the source; [urlError] is the [*url.Error] in which
    [http.Client.Get] wraps every error of its transport; [errWrap] is
    [fmt.Errorf(prefix + "%v", err)]. *)
Inductive error :=
| errExpiredToken
| ErrNoAuthCode
| errInvalidToken
| errNotExist
| errMsg (msg : string)
| urlError (url : string) (inner : error)
| errWrap (prefix : string) (inner : error).

Definition IsNotExist (e : error) : bool :=
  match e with errNotExist => true | _ => false end.

Definition is_errExpiredToken (e : error) : bool :=
  match e with errExpiredToken => true | _ => false end.

(** What a reply body decodes to.  A body is used only through
    [json.Decoder.Decode]: into the zero [timeseries] struct, once, and into
    the [weights] variable, which is declared outside the window loop and
    keeps its previous value where the JSON does not overwrite it. *)
Record Body := {
  decode_timeseries : error + timeSeriesReply;
  decode_weights : weightReply -> error + weightReply
}.

Record Response := { StatusCode : Z; RespBody : Body }.

(** Contents of the token cache file, by what [json.Unmarshal] makes of it. *)
Inductive content :=
| Encoded (t : Token)
| Malformed (msg : string).

(** What a failing [ioutil.WriteFile] leaves behind.  It opens the file with
    [O_WRONLY|O_CREATE|O_TRUNC], writes the data and closes the file: when
    the open fails the file is as it was; after the open the file exists and
    holds the part of the data that was written, which parses only when it
    is all of it (the close failed). *)
Inductive left_behind :=
| Untouched
| Truncated (msg : string)      (* a part of the data: [json.Unmarshal] fails with [msg] *)
| Complete.

(** The operations that can fail. *)
Inductive op :=
| OpGet (url : string)      (* c.Get(url) *)
| OpNet                     (* the base transport's round trip *)
| OpDecode                  (* json.Decoder.Decode of a reply *)
| OpParseDate               (* time.Parse of the first entry's date *)
| OpToken                   (* TokenSource.Token() *)
| OpRefresh                 (* the token refresher's request *)
| OpExchange                (* Config.Exchange *)
| OpAuthorize               (* an interactive authorization *)
| OpReadFile
| OpUnmarshal
| OpMarshal
| OpWriteFile.

(** Lines of the log (standard error). *)
Inductive logmsg :=
| LogErr (e : error)                       (* log.Fatal(err) *)
| LogText (s : string)
| LogReauth (e tokenErr : error)           (* "Request resulted in %v, trying to re-authorize resulted in %v" *)
| LogParse (value : string) (e : error)    (* "Could not parse timeseries date value ..." *)
| LogTokenFile (file : string) (e : error) (* "Error getting token from %q: %v" *)
| LogUse (tok secret : string).            (* "Use -access_token_token=%s -access_token_secret=%s" *)

Inductive Event :=
| Stdout (text : string)         (* bytes written to standard output *)
| Log (m : logmsg)               (* one log line *)
| Call (o : op)                  (* the operation is started *)
| Error (o : op) (e : error)     (* the operation returned the error *)
| Wrote (c : content).           (* the cache file was written *)

(** ** The environment and the program state *)

Record Env := {
  (* flags *)
  clientSecret : string;
  cachePath : string;
  consumerKey : string;
  consumerSecret : string;
  accessTokenToken : string;
  accessTokenSecret : string;
  (* package oauth2 *)
  expiryDelta : GoTime.Duration;
  authUrl : string;
  (* package net/url: [Some c] when [url.Parse(text)] returns no error, [c]
     being [u.Query().Get("code")] of the URL [u] it returns *)
  query_code : string -> option string;
  (* package fmt: what the verb %q prints for a string *)
  fmt_q : string -> string;
  (* oracles, by tick; an error of the outside is its message, and so is
     never one of the error values of the program itself *)
  env_now : nat -> GoTime.Time;                        (* time.Now() *)
  env_net : nat -> string -> string + Response;        (* base transport *)
  env_refresh : nat -> string + Token;                 (* refresh request *)
  env_exchange : nat -> string -> string + Token;      (* Config.Exchange(code) *)
  env_callback : nat -> string + Token;                (* what the select of authorize receives *)
  env_stdin : nat -> string;                           (* a line of standard input as
                                                          bufio.Scanner gives it, without
                                                          its end of line *)
  env_scanln : nat -> string;                          (* the word that fmt.Scanln(&s) reads: the
                                                          first space-separated word of the input,
                                                          empty when the line has none *)
  env_read_error : nat -> option string;               (* ReadFile failing on an existing file *)
  env_write_error : nat -> option string;              (* WriteFile failing *)
  env_write_left : nat -> left_behind;                 (* and what it leaves in the file then *)
  (* OAuth 1.0a consumer *)
  env_get1 : nat -> string -> AccessToken1 -> option Response * option string;
  env_request_token : nat -> string + (string * string);
  env_authorize_token : nat -> string -> string -> string + AccessToken1
}.

Record State := {
  tick : nat;                      (* interactions with the environment so far *)
  cache_file : option content;     (* the file at cachePath, if it exists *)
  mux_registered : bool;           (* "/" is registered on http.DefaultServeMux *)
  src_token : option Token;        (* token held by the reusing token source *)
  src_refresh : string             (* refresh token held by the token refresher *)
}.

Definition initial_state (f : option content) : State :=
  {| tick := 0; cache_file := f; mux_registered := false;
     src_token := None; src_refresh := "" |}.

(** ** The monad of the program: state, events, and the ways a Go process ends *)

Inductive Outcome (A : Type) :=
| Ret (a : A) (s : State)       (* the call returns *)
| Exited (code : Z)             (* os.Exit, also through log.Fatal *)
| Panicked                      (* a run-time panic *)
| OutOfFuel.                    (* the model's loop bound was too small *)

Arguments Ret {A} a s.
Arguments Exited {A} code.
Arguments Panicked {A}.
Arguments OutOfFuel {A}.

Definition M (A : Type) : Type := State -> list Event * Outcome A.

Definition ret {A} (a : A) : M A := fun s => ([], Ret a s).

Definition bind {A B} (m : M A) (f : A -> M B) : M B :=
  fun s =>
    match m s with
    | (tr, Ret a s') => let (tr', o) := f a s' in ((tr ++ tr')%list, o)
    | (tr, Exited c) => (tr, Exited c)
    | (tr, Panicked) => (tr, Panicked)
    | (tr, OutOfFuel) => (tr, OutOfFuel)
    end.

Declare Scope go_scope.
Delimit Scope go_scope with go.
Notation "x <- m ;; k" := (bind m (fun x => k))
  (at level 100, m at next level, right associativity) : go_scope.
Notation "m ;;; k" := (bind m (fun _ => k))
  (at level 100, right associativity) : go_scope.
Local Open Scope go_scope.

Definition emit (e : Event) : M unit := fun s => ([e], Ret tt s).
Definition exit {A} (code : Z) : M A := fun _ => ([], Exited code).
Definition panic {A} : M A := fun _ => ([], Panicked).
Definition out_of_fuel {A} : M A := fun _ => ([], OutOfFuel).
Definition get_state : M State := fun s => ([], Ret s s).
Definition put_state (s : State) : M unit := fun _ => ([], Ret tt s).

(** [log.Printf]. *)
Definition log_print (m : logmsg) : M unit := emit (Log m).

(** [log.Fatal], [log.Fatalf]: print the message, then [os.Exit(1)]. *)
Definition log_fatal {A} (m : logmsg) : M A := emit (Log m) ;;; exit 1.

(** The next tick. *)
Definition next_tick : M nat :=
  fun s => ([], Ret (tick s)
    {| tick := S (tick s); cache_file := cache_file s;
       mux_registered := mux_registered s;
       src_token := src_token s; src_refresh := src_refresh s |}).

Definition set_cache_file (c : option content) : M unit :=
  fun s => ([], Ret tt
    {| tick := tick s; cache_file := c;
       mux_registered := mux_registered s;
       src_token := src_token s; src_refresh := src_refresh s |}).

Definition set_mux_registered (b : bool) : M unit :=
  fun s => ([], Ret tt
    {| tick := tick s; cache_file := cache_file s;
       mux_registered := b;
       src_token := src_token s; src_refresh := src_refresh s |}).

Definition set_source (t : option Token) (r : string) : M unit :=
  fun s => ([], Ret tt
    {| tick := tick s; cache_file := cache_file s;
       mux_registered := mux_registered s;
       src_token := t; src_refresh := r |}).

Definition set_src_token (t : option Token) : M unit :=
  s <- get_state ;; set_source t (src_refresh s).

Definition set_src_refresh (r : string) : M unit :=
  s <- get_state ;; set_source (src_token s) r.

(** An operation returns the error [e]. *)
Definition fail_with {A} (o : op) (e : error) : M (error + A) :=
  emit (Error o e) ;;; ret (inl e).

(** ** What the three variants share: libraries and the tail of [main] *)

Section Shared.
Variable env : Env.

(** [time.Now()]. *)
Definition time_Now : M GoTime.Time :=
  n <- next_tick ;; ret (env_now env n).

(** [ioutil.ReadFile(cachePath)]: a missing file gives the not-exist error,
    an existing file its contents or another error. *)
Definition ReadFile : M (error + content) :=
  n <- next_tick ;;
  s <- get_state ;;
  match cache_file s, env_read_error env n with
  | None, _ => fail_with OpReadFile errNotExist
  | Some _, Some msg => fail_with OpReadFile (errMsg msg)
  | Some c, None => ret (inr c)
  end.

(** [ioutil.WriteFile(cachePath, data, 0600)]. *)
Definition WriteFile (c : content) : M (option error) :=
  n <- next_tick ;;
  match env_write_error env n with
  | Some msg =>
      match env_write_left env n with
      | Untouched => ret tt
      | Truncated m => set_cache_file (Some (Malformed m))
      | Complete => set_cache_file (Some c)
      end ;;;
      emit (Error OpWriteFile (errMsg msg)) ;;; ret (Some (errMsg msg))
  | None => set_cache_file (Some c) ;;; emit (Wrote c) ;;; ret None
  end.

(** [json.Unmarshal(content, &t)] into an [oauth2.Token]. *)
Definition json_Unmarshal (c : content) : M (error + Token) :=
  match c with
  | Encoded t => ret (inr t)
  | Malformed msg => fail_with OpUnmarshal (errMsg msg)
  end.

(** [json.Marshal(&tok)]: fails only where [Time.MarshalJSON] does. *)
Definition json_Marshal (t : Token) : M (error + content) :=
  let y := GoTime.Year (Expiry t) in
  if (0 <=? y) && (y <? 10000) then ret (inr (Encoded t))
  else fail_with OpMarshal (errMsg "Time.MarshalJSON: year outside of range [0,9999]").

(** [Token.Valid] of package oauth2: a token with an access token that has not
    expired; a zero expiry never expires. *)
Definition Valid (t : option Token) : M bool :=
  match t with
  | None => ret false
  | Some t =>
      if (AccessToken t =? "")%string then ret false
      else if GoTime.IsZero (Expiry t) then ret true
      else
        now <- time_Now ;;
        ret (negb (GoTime.Before (GoTime.Add (Expiry t) (- expiryDelta env)) now))
  end.

(** The token source of [oauth2.ReuseTokenSource(t, new)]: the held token
    while it is valid, else a token from [new], which is then held. *)
Definition reuse_Token (new : M (error + Token)) : M (error + Token) :=
  s <- get_state ;;
  v <- Valid (src_token s) ;;
  match v, src_token s with
  | true, Some t => ret (inr t)
  | _, _ =>
      r <- new ;;
      match r with
      | inl e => fail_with OpToken e
      | inr t => set_src_token (Some t) ;;; ret (inr t)
      end
  end.

(** [Transport.RoundTrip] of package oauth2: a token from the source, then the
    base transport. *)
Definition oauth2_RoundTrip (source : M (error + Token)) (url : string)
  : M (error + Response) :=
  t <- source ;;
  match t with
  | inl e => ret (inl e)
  | inr _ =>
      emit (Call OpNet) ;;;
      n <- next_tick ;;
      match env_net env n url with
      | inl msg => fail_with OpNet (errMsg msg)
      | inr resp => ret (inr resp)
      end
  end.

(** [Client.Get] of package http over a transport: every error of the transport
    comes back wrapped in a [*url.Error]. *)
Definition http_Get (transport : string -> M (error + Response)) (url : string)
  : M (option Response * option error) :=
  emit (Call (OpGet url)) ;;;
  r <- transport url ;;
  match r with
  | inl e =>
      emit (Error (OpGet url) (urlError url e)) ;;;
      ret (None, Some (urlError url e))
  | inr resp => ret (Some resp, None)
  end.

Definition timeseries_url : string :=
  "https://api.fitbit.com/1/user/-/body/weight/date/today/max.json".

Definition weight_log_url (endDate : GoTime.Time) : string :=
  "https://api.fitbit.com/1/user/-/body/log/weight/date/" ++
  GoTime.Format endDate ++ "/30d.json".

(** The tail of [main], over the variant's [c.Get]. *)
Section Tail.
Variable get : string -> M (option Response * option error).

(** [for tries < 2 { response, err = c.Get(...); tries += 1;
    if err != nil { log.Fatal(err) } }] of the two OAuth 2.0 variants. *)
Fixpoint tries_loop (fuel : nat) (tries : Z) (response : option Response)
  : M (option Response) :=
  if tries <? 2 then
    match fuel with
    | O => out_of_fuel
    | S fuel' =>
        r <- get timeseries_url ;;
        let '(response, err) := r in
        let tries := tries + 1 in
        match err with
        | Some e => log_fatal (LogErr e)
        | None => tries_loop fuel' tries response
        end
    end
  else ret response.

(** [fmt.Printf("%s %s %.1f\n", entry.Date, entry.Time[0:5], entry.Weight)]. *)
Definition print_entry (entry : weight) : M unit :=
  match GoString.slice_to (Time entry) 5 with
  | None => panic
  | Some hhmm =>
      emit (Stdout (Date entry ++ " " ++ hhmm ++ " " ++
                    GoFmt.format_f1 (Weight entry) ++ GoString.nl))
  end.

(** [for _, entry := range weights.Weights { ... }]. *)
Fixpoint print_entries (ws : list weight) : M unit :=
  match ws with
  | [] => ret tt
  | entry :: rest => print_entry entry ;;; print_entries rest
  end.

(** [json.NewDecoder(response.Body).Decode(&v)]; a nil response panics. *)
Definition Decode {A} (response : option Response) (dec : Body -> error + A)
  : M (error + A) :=
  match response with
  | None => panic
  | Some resp =>
      match dec (RespBody resp) with
      | inl e => fail_with OpDecode e
      | inr v => ret (inr v)
      end
  end.

(** The body of the window loop, once [endDate] has been advanced: request
    the window that ends at [endDate], decode the reply into [weights],
    print its entries. *)
Definition window_body (endDate : GoTime.Time) (weights : weightReply)
  : M weightReply :=
  let requestUrl := weight_log_url endDate in
  r <- get requestUrl ;;
  let '(response, err) := r in
  match err with
  | Some e => log_fatal (LogErr e)
  | None =>
      d <- Decode response (fun b => decode_weights b weights) ;;
      match d with
      | inl e => log_fatal (LogErr e)
      | inr weights => print_entries (Weights weights) ;;; ret weights
      end
  end.

(** [for endDate.Before(time.Now()) { endDate = endDate.Add(30 * 24 *
    time.Hour); ... }]. *)
Fixpoint window_loop (fuel : nat) (endDate : GoTime.Time) (weights : weightReply)
  : M unit :=
  now <- time_Now ;;
  if GoTime.Before endDate now then
    match fuel with
    | O => out_of_fuel
    | S fuel' =>
        let endDate := GoTime.Add endDate (30 * 24 * GoTime.Hour) in
        weights <- window_body endDate weights ;;
        window_loop fuel' endDate weights
    end
  else ret tt.

(** [main] from the decoding of the time-series reply to its end. *)
Definition after_tries (fuel : nat) (response : option Response) : M unit :=
  d <- Decode response decode_timeseries ;;
  match d with
  | inl e => log_fatal (LogErr e)
  | inr timeseries =>
      match Entries timeseries with
      | [] =>
          (* No entries recorded? Nothing to do. *)
          log_print (LogText "The fitbit API returned no values.") ;;;
          exit 0
      | first :: _ =>
          match GoTime.Parse (DateTime first) with
          | None =>
              let e := errMsg "parsing time" in
              emit (Error OpParseDate e) ;;;
              log_fatal (LogParse (DateTime first) e)
          | Some endDate =>
              (* Subtract 24 hours to make sure that no value is missed. *)
              let endDate := GoTime.Add endDate (-24 * GoTime.Hour) in
              window_loop fuel endDate {| Weights := [] |}
          end
      end
  end.

End Tail.
End Shared.

(** ** backup.go: OAuth 2.0 with the caching transport *)

Module Cacher.
Section Program.
Variable env : Env.

(** [tokenFromFile(path)]. *)
Definition tokenFromFile : M (error + Token) :=
  r <- ReadFile env ;;
  match r with
  | inl e => ret (inl e)
  | inr c => json_Unmarshal c
  end.

(** The refresher behind [Config.TokenSource]: without a refresh token it
    fails, else it asks the token endpoint and keeps the refresh token of
    the reply. *)
Definition refresher_Token : M (error + Token) :=
  s <- get_state ;;
  if (src_refresh s =? "")%string then
    fail_with OpRefresh (errMsg "oauth2: token expired and refresh token is not set")
  else
    n <- next_tick ;;
    match env_refresh env n with
    | inl msg => fail_with OpRefresh (errMsg msg)
    | inr tk => set_src_refresh (RefreshToken tk) ;;; ret (inr tk)
    end.

(** [c.Base.Source.Token()]. *)
Definition Source_Token : M (error + Token) := reuse_Token env refresher_Token.

(** Line 56 to 58: the condition under which the new token is cached. *)
Definition must_cache (cachedToken : option Token) (newTok : Token) : bool :=
  match cachedToken with
  | None => true
  | Some c =>
      negb (AccessToken c =? AccessToken newTok)%string ||
      negb (RefreshToken c =? RefreshToken newTok)%string
  end.

(** [RoundTrip] after the cache file has been read. *)
Definition RoundTrip_with (cachedToken : option Token) (url : string)
  : M (error + Response) :=
  t <- Source_Token ;;
  match t with
  | inl _ => ret (inl errExpiredToken)
  | inr _ =>
      r <- oauth2_RoundTrip env Source_Token url ;;
      match r with
      | inl e => ret (inl e)
      | inr resp =>
          t' <- Source_Token ;;
          match t' with
          | inl _ =>
              (* the request was still successful: no new token is cached *)
              ret (inr resp)
          | inr newTok =>
              if must_cache cachedToken newTok then
                b <- json_Marshal newTok ;;
                match b with
                | inl e => ret (inl e)
                | inr bytes =>
                    w <- WriteFile env bytes ;;
                    match w with
                    | Some e => ret (inl e)
                    | None => ret (inr resp)
                    end
                end
              else ret (inr resp)
          end
      end
  end.

(** [(c *cacherTransport) RoundTrip(req)]. *)
Definition RoundTrip (url : string) : M (error + Response) :=
  f <- tokenFromFile ;;
  match f with
  | inl e => if IsNotExist e then RoundTrip_with None url else ret (inl e)
  | inr cachedToken => RoundTrip_with (Some cachedToken) url
  end.

(** [authorize(conf)]: register the callback handler (a second registration
    of "/" on the default mux panics), print the URL, wait for the token or
    an error. *)
Definition authorize : M (error + Token) :=
  s <- get_state ;;
  if mux_registered s then panic
  else
    set_mux_registered true ;;;
    emit (Call OpAuthorize) ;;;
    emit (Stdout ("Please visit the following URL to authorize:" ++ GoString.nl)) ;;;
    emit (Stdout (authUrl env ++ GoString.nl)) ;;;
    n <- next_tick ;;
    match env_callback env n with
    | inl msg => fail_with OpAuthorize (errMsg msg)
    | inr token => ret (inr token)
    end.

(** [client(config, token)]: a fresh reusing token source holding [token]. *)
Definition client (token : Token) : M unit :=
  set_source (Some token) (RefreshToken token).

(** [c.Get(url)]. *)
Definition c_Get : string -> M (option Response * option error) :=
  http_Get RoundTrip.

(** Line 142 to 148: the token of the cache file, or of an interactive
    authorization when the file does not exist. *)
Definition startup : M Token :=
  r <- tokenFromFile ;;
  r <- match r with
       | inl e => if IsNotExist e then authorize else ret (inl e)
       | inr token => ret (inr token)
       end ;;
  match r with
  | inl e => log_fatal (LogErr e)
  | inr token => ret token
  end.

(** Line 152 to 163: a request just to see if it errors. *)
Definition probe : M unit :=
  r <- c_Get timeseries_url ;;
  match snd r with
  | None => ret tt
  | Some err =>
      match err with
      | urlError _ inner =>
          if is_errExpiredToken inner then
            a <- authorize ;;
            match a with
            | inr token => client token
            | inl tokenErr => log_fatal (LogReauth err tokenErr)
            end
          else log_fatal (LogErr err)
      | _ => log_fatal (LogErr err)
      end
  end.

Definition main (fuel : nat) : M unit :=
  if (clientSecret env =? "")%string then
    log_fatal (LogText "-oauth2_client_secret not specified. Register an app at https://dev.fitbit.com to get one.")
  else
    token <- startup ;;
    client token ;;;
    probe ;;;
    response <- tries_loop c_Get fuel 0 None ;;
    after_tries env c_Get fuel response.

End Program.
End Cacher.

(** ** The variant built on [FileTokenSource] *)

Module FileSource.
Section Program.
Variable env : Env.

(** [cachedToken(cacheFile)]. *)
Definition cachedToken : M (error + Token) :=
  r <- ReadFile env ;;
  match r with
  | inl e => ret (inl e)
  | inr c =>
      u <- json_Unmarshal c ;;
      match u with
      | inl e => ret (inl e)
      | inr tok =>
          v <- Valid env (Some tok) ;;
          if v then ret (inr tok)
          else
            now <- time_Now env ;;
            if GoTime.After now (Expiry tok) then ret (inl errExpiredToken)
            else ret (inl errInvalidToken)
      end
  end.

(** What the [AuthCode] closure makes of the line [text]: the [code]
    parameter of its query when the line parses as a URL and has one that is
    not empty, else the line without the white space around it. *)
Definition code_of (text : string) : string :=
  match query_code env text with
  | Some c => if (c =? "")%string then GoString.TrimSpace text else c
  | None => GoString.TrimSpace text
  end.

(** The [AuthCode] closure of [main]: prompt, read a line, take the code
    from it. *)
Definition AuthCode : M string :=
  emit (Call OpAuthorize) ;;;
  emit (Stdout ("Get auth code from:" ++ GoString.nl)) ;;;
  emit (Stdout (authUrl env ++ GoString.nl)) ;;;
  emit (Stdout ("Enter auth code (or entire URL):" ++ GoString.nl)) ;;;
  n <- next_tick ;;
  ret (code_of (env_stdin env n)).

(** [(src FileTokenSource) Token()] with [src.CacheFile = CacheFile] and
    [src.AuthCode = authCode] ([None] for nil). *)
Definition Token_after_cache (CacheFile : string) (authCode : option (M string))
  : M (error + Token) :=
  match authCode with
  | None => ret (inl ErrNoAuthCode)
  | Some ask =>
      code <- ask ;;
      n <- next_tick ;;
      match env_exchange env n code with
      | inl msg =>
          fail_with OpExchange
            (errWrap "could not exchange auth code for a token: " (errMsg msg))
      | inr tok =>
          if (CacheFile =? "")%string then ret (inr tok)
          else
            b <- json_Marshal tok ;;
            match b with
            | inl err => ret (inl (errWrap "could not encode token as json: " err))
            | inr tokenData =>
                w <- WriteFile env tokenData ;;
                match w with
                | Some err =>
                    ret (inl (errWrap ("could not cache token in " ++
                                       fmt_q env CacheFile ++ ": ") err))
                | None => ret (inr tok)
                end
            end
      end
  end.

Definition Token_ (CacheFile : string) (authCode : option (M string))
  : M (error + Token) :=
  if negb (CacheFile =? "")%string then
    r <- cachedToken ;;
    match r with
    | inr tok => ret (inr tok)
    | inl err =>
        (if negb (is_errExpiredToken err)
         then log_print (LogTokenFile CacheFile err)
         else ret tt) ;;;
        Token_after_cache CacheFile authCode
    end
  else Token_after_cache CacheFile authCode.

(** [c.Get(url)] of [oauth2.NewClient(ctx, oauth2.ReuseTokenSource(nil, src))]. *)
Definition c_Get : string -> M (option Response * option error) :=
  http_Get (oauth2_RoundTrip env
              (reuse_Token env (Token_ (cachePath env) (Some AuthCode)))).

Definition main (fuel : nat) : M unit :=
  if (clientSecret env =? "")%string then
    log_fatal (LogText "-oauth2_client_secret not specified. Register an app at https://dev.fitbit.com to get one.")
  else
    set_source None "" ;;;
    response <- tries_loop c_Get fuel 0 None ;;
    after_tries env c_Get fuel response.

End Program.
End FileSource.

(** ** The OAuth 1.0a variant *)

Module OAuth1.
Section Program.
Variable env : Env.

(** [c.Get(url, map[string]string{}, accessToken)] of the OAuth consumer:
    a response, an error, or both (a reply whose status is not 2xx). *)
Definition c_Get (url : string) (accessToken : AccessToken1)
  : M (option Response * option error) :=
  emit (Call (OpGet url)) ;;;
  n <- next_tick ;;
  let r := env_get1 env n url accessToken in
  match snd r with
  | Some msg => emit (Error (OpGet url) (errMsg msg)) ;;; ret (fst r, Some (errMsg msg))
  | None => ret (fst r, None)
  end.

(** The re-authorization inside the loop: request token, prompt,
    verification code, access token. *)
Definition reauthorize : M AccessToken1 :=
  emit (Call OpAuthorize) ;;;
  n <- next_tick ;;
  match env_request_token env n with
  | inl msg =>
      emit (Error OpAuthorize (errMsg msg)) ;;; log_fatal (LogErr (errMsg msg))
  | inr (requestToken, url) =>
      emit (Stdout ("(1) Go to: " ++ url ++ GoString.nl)) ;;;
      emit (Stdout ("(2) Grant access, you should get back a verification code." ++ GoString.nl)) ;;;
      emit (Stdout ("(3) Enter that verification code here: " ++ GoString.nl)) ;;;
      k <- next_tick ;;
      let verificationCode := env_scanln env k in
      m <- next_tick ;;
      match env_authorize_token env m requestToken verificationCode with
      | inl msg =>
          emit (Error OpAuthorize (errMsg msg)) ;;; log_fatal (LogErr (errMsg msg))
      | inr accessToken =>
          log_print (LogUse (Token1 accessToken) (Secret1 accessToken)) ;;;
          ret accessToken
      end
  end.

(** [for tries < 2 { ... }] with the re-authorization on a 401 reply to the
    first request. *)
Fixpoint tries_loop (fuel : nat) (tries : Z) (response : option Response)
    (accessToken : AccessToken1) : M (option Response * AccessToken1) :=
  if tries <? 2 then
    match fuel with
    | O => out_of_fuel
    | S fuel' =>
        r <- c_Get timeseries_url accessToken ;;
        let '(response, err) := r in
        let tries := tries + 1 in
        match err with
        | Some e =>
            (* Maybe the accessToken has expired? *)
            if tries =? 1 then
              match response with
              | None => panic          (* response.StatusCode of a nil response *)
              | Some resp =>
                  if StatusCode resp =? 401 then
                    accessToken <- reauthorize ;;
                    tries_loop fuel' tries response accessToken
                  else log_fatal (LogErr e)
              end
            else log_fatal (LogErr e)
        | None => tries_loop fuel' tries response accessToken
        end
    end
  else ret (response, accessToken).

Definition main (fuel : nat) : M unit :=
  if (consumerKey env =? "")%string || (consumerSecret env =? "")%string then
    log_fatal (LogText "-oauth_consumer_key or -oauth_consumer_secret not specified. Register an app at http://dev.fitbit.com to get these.")
  else
    let accessToken :=
      {| Token1 := accessTokenToken env; Secret1 := accessTokenSecret env |} in
    r <- tries_loop fuel 0 None accessToken ;;
    let '(response, accessToken) := r in
    after_tries env (fun url => c_Get url accessToken) fuel response.

End Program.
End OAuth1.

(** ** The three variants side by side *)

Inductive variant :=
| VCacher
| VFileSource
| VOAuth1 (accessToken : AccessToken1).

(** The [c.Get] that the tail of [main] uses in each variant. *)
Definition variant_Get (env : Env) (v : variant)
  : string -> M (option Response * option error) :=
  match v with
  | VCacher => Cacher.c_Get env
  | VFileSource => FileSource.c_Get env
  | VOAuth1 accessToken => fun url => OAuth1.c_Get env url accessToken
  end.

(** ** Observations on a trace *)

(** The URLs of the GET requests, in order. *)
Fixpoint requested (tr : list Event) : list string :=
  match tr with
  | [] => []
  | Call (OpGet url) :: tr' => url :: requested tr'
  | _ :: tr' => requested tr'
  end.

(** Everything written to standard output, in order. *)
Fixpoint stdout (tr : list Event) : list string :=
  match tr with
  | [] => []
  | Stdout text :: tr' => text :: stdout tr'
  | _ :: tr' => stdout tr'
  end.

(** The lines of the log, in order. *)
Fixpoint logged (tr : list Event) : list logmsg :=
  match tr with
  | [] => []
  | Log m :: tr' => m :: logged tr'
  | _ :: tr' => logged tr'
  end.

(** The number of interactive authorizations. *)
Fixpoint authorizations (tr : list Event) : nat :=
  match tr with
  | [] => O
  | Call OpAuthorize :: tr' => S (authorizations tr')
  | _ :: tr' => authorizations tr'
  end.

(** The contents written to the cache file, in order. *)
Fixpoint writes (tr : list Event) : list content :=
  match tr with
  | [] => []
  | Wrote c :: tr' => c :: writes tr'
  | _ :: tr' => writes tr'
  end.

(** ** Sample environments *)

Module Sample.

Definition f64 (neg : bool) (m e : Z) : GoFmt.float64 :=
  {| GoFmt.f_neg := neg; GoFmt.f_mant := m; GoFmt.f_exp := e |}.

(** 65.9 and 65.3 as binary64. *)
Definition w659 : GoFmt.float64 := f64 false 4637159503819571 (-46).
Definition w653 : GoFmt.float64 := f64 false 4594938257173709 (-46).

Definition entry1 : weight :=
  {| Bmi := f64 false 0 0; Date := "2013-07-30"; Logid := 1;
     Time := "18:00:00"; Weight := w659 |}.
Definition entry2 : weight :=
  {| Bmi := f64 false 0 0; Date := "2013-07-30"; Logid := 2;
     Time := "23:59:59"; Weight := w653 |}.

Definition body_of (ts : list timeSeriesEntry) (ws : list weight) : Body :=
  {| decode_timeseries := inr {| Entries := ts |};
     decode_weights := fun _ => inr {| Weights := ws |} |}.

Definition ok (b : Body) : Response := {| StatusCode := 200; RespBody := b |}.

Definition tok : Token :=
  {| AccessToken := "at"; TokenType := "Bearer"; RefreshToken := "rt";
     Expiry := GoTime.zero_time |}.

(** A quiet environment: the clock stands at [now], every request is
    answered with [resp], nothing fails. *)
Definition quiet (now : GoTime.Time) (resp : Response) : Env :=
  {| clientSecret := "secret"; cachePath := "token.json";
     consumerKey := "key"; consumerSecret := "secret";
     accessTokenToken := "t"; accessTokenSecret := "s";
     expiryDelta := 10 * GoTime.Second;
     authUrl := "https://www.fitbit.com/oauth2/authorize";
     query_code := fun _ => Some "";
     fmt_q := fun text => GoString.dquote ++ text ++ GoString.dquote;
     env_now := fun _ => now;
     env_net := fun _ _ => inr resp;
     env_refresh := fun _ => inr tok;
     env_exchange := fun _ _ => inr tok;
     env_callback := fun _ => inr tok;
     env_stdin := fun _ => "code";
     env_scanln := fun _ => "code";
     env_read_error := fun _ => None;
     env_write_error := fun _ => None;
     env_write_left := fun _ => Untouched;
     env_get1 := fun _ _ _ => (Some resp, None);
     env_request_token := fun _ => inr ("rq", "https://www.fitbit.com/oauth/authorize");
     env_authorize_token := fun _ _ _ => inr {| Token1 := "t2"; Secret1 := "s2" |} |}.

Definition first_entry : timeSeriesEntry :=
  {| DateTime := "2013-07-30"; Value := "65.9" |}.

(** 2013-09-15 12:00 UTC. *)
Definition noon : GoTime.Time := GoTime.midnight 15963 + 12 * GoTime.Hour.

Definition env1 : Env := quiet noon (ok (body_of [first_entry] [entry1; entry2])).

(** The state of the caching variant once [client] has been given [tok]. *)
Definition ready : State :=
  {| tick := 0; cache_file := Some (Encoded tok); mux_registered := false;
     src_token := Some tok; src_refresh := RefreshToken tok |}.

(** A reply that does not decode. *)
Definition garbled : Response :=
  ok {| decode_timeseries := inl (errMsg "invalid character");
        decode_weights := fun _ => inl (errMsg "invalid character") |}.

Definition env_garbled : Env := quiet noon garbled.

(** A token that expires one hour after [noon], and its successor. *)
Definition tok_exp : Token :=
  {| AccessToken := "at"; TokenType := "Bearer"; RefreshToken := "rt";
     Expiry := noon + GoTime.Hour |}.
Definition tok2 : Token :=
  {| AccessToken := "at2"; TokenType := "Bearer"; RefreshToken := "rt";
     Expiry := GoTime.zero_time |}.

Definition first_entry_sep : timeSeriesEntry :=
  {| DateTime := "2013-09-10"; Value := "65.9" |}.

(** The token expires between the exchange of the probe and the token
    request that follows it, and the refresh of that moment fails; later
    refreshes succeed. *)
Definition env_swallow : Env :=
  {| clientSecret := "secret"; cachePath := "token.json";
     consumerKey := "key"; consumerSecret := "secret";
     accessTokenToken := "t"; accessTokenSecret := "s";
     expiryDelta := 10 * GoTime.Second;
     authUrl := "https://www.fitbit.com/oauth2/authorize";
     query_code := fun _ => Some "";
     fmt_q := fun text => GoString.dquote ++ text ++ GoString.dquote;
     env_now := fun k => if (k <=? 4)%nat then noon else noon + 2 * GoTime.Hour;
     env_net := fun _ _ => inr (ok (body_of [first_entry_sep] [entry1]));
     env_refresh := fun k => if (k =? 6)%nat then inl "token endpoint unreachable"
                             else inr tok2;
     env_exchange := fun _ _ => inr tok;
     env_callback := fun _ => inr tok;
     env_stdin := fun _ => "code";
     env_scanln := fun _ => "code";
     env_read_error := fun _ => None;
     env_write_error := fun _ => None;
     env_write_left := fun _ => Untouched;
     env_get1 := fun _ _ _ => (Some (ok (body_of [first_entry_sep] [entry1])), None);
     env_request_token := fun _ => inr ("rq", "https://www.fitbit.com/oauth/authorize");
     env_authorize_token := fun _ _ _ => inr {| Token1 := "t2"; Secret1 := "s2" |} |}.

(** The cached token has expired and cannot be refreshed. *)
Definition env_reauth : Env :=
  {| clientSecret := "secret"; cachePath := "token.json";
     consumerKey := "key"; consumerSecret := "secret";
     accessTokenToken := "t"; accessTokenSecret := "s";
     expiryDelta := 10 * GoTime.Second;
     authUrl := "https://www.fitbit.com/oauth2/authorize";
     query_code := fun _ => Some "";
     fmt_q := fun text => GoString.dquote ++ text ++ GoString.dquote;
     env_now := fun _ => noon + 2 * GoTime.Hour;
     env_net := fun _ _ => inr (ok (body_of [first_entry_sep] [entry1]));
     env_refresh := fun _ => inl "invalid_grant";
     env_exchange := fun _ _ => inr tok;
     env_callback := fun _ => inr tok;
     env_stdin := fun _ => "code";
     env_scanln := fun _ => "code";
     env_read_error := fun _ => None;
     env_write_error := fun _ => None;
     env_write_left := fun _ => Untouched;
     env_get1 := fun _ _ _ => (Some (ok (body_of [first_entry_sep] [entry1])), None);
     env_request_token := fun _ => inr ("rq", "https://www.fitbit.com/oauth/authorize");
     env_authorize_token := fun _ _ _ => inr {| Token1 := "t2"; Secret1 := "s2" |} |}.

End Sample.

(** ** What the theorems say about a run *)

(** The text of the line that [print_entry] writes. *)
Definition weight_line (entry : weight) : string :=
  Date entry ++ " " ++ GoString.take 5 (Time entry) ++ " " ++
  GoFmt.format_f1 (Weight entry) ++ GoString.nl.

(** [emits ok m]: every run of [m] returns, and every event of it
    satisfies [ok]. *)
Definition emits (ok : Event -> bool) {A} (m : M A) : Prop :=
  forall s, forallb ok (fst (m s)) = true /\
            exists a s', snd (m s) = Ret a s'.

(** The events inside the caching transport: calls of the base transport,
    writes of the cache file, and errors of the operations below [c.Get]. *)
Definition transport_event (e : Event) : bool :=
  match e with
  | Call OpNet => true
  | Wrote _ => true
  | Error o _ =>
      match o with
      | OpNet | OpToken | OpRefresh | OpReadFile | OpUnmarshal
      | OpMarshal | OpWriteFile => true
      | _ => false
      end
  | _ => false
  end.

(** The events inside the transport over [FileTokenSource]: those of a
    transport, and the authorization that its token source runs. *)
Definition source_event (e : Event) : bool :=
  match e with
  | Call OpAuthorize => true
  | Stdout _ => true
  | Log (LogTokenFile _ _) => true
  | Error OpExchange _ => true
  | _ => transport_event e
  end.

(** An event that is not the start of a GET. *)
Definition not_get (e : Event) : bool :=
  match e with
  | Call (OpGet _) => false
  | _ => true
  end.

(** A run of [c.Get(url)] returns; its events are the call, then events
    of the transport, then the error if it returns one. *)
Definition get_run (inner : Event -> bool) (url : string)
    (r : list Event * Outcome (option Response * option error)) : Prop :=
  exists tr s' resp,
    forallb inner tr = true /\
    (r = (Call (OpGet url) :: tr, Ret (resp, None) s') \/
     exists e,
       r = (Call (OpGet url) :: (tr ++ [Error (OpGet url) e])%list,
            Ret (resp, Some e) s')).

(** The step of the window loop, [30 * 24 * time.Hour]. *)
Definition window : GoTime.Duration := 30 * 24 * GoTime.Hour.

(** The state after one more interaction. *)
Definition ticked (s : State) : State :=
  {| tick := S (tick s); cache_file := cache_file s;
     mux_registered := mux_registered s;
     src_token := src_token s; src_refresh := src_refresh s |}.

(** An upper bound on the iterations of the loop that starts at [endDate]
    while the clock never passes [T]. *)
Definition iterations (T endDate : GoTime.Time) : nat :=
  Z.to_nat ((T - endDate + window - 1) / window).

(** The calendar days of the 30-day window that ends at [endDate]: the
    day of [endDate] and the 29 days before it. *)
Definition window_covers (endDate : GoTime.Time) (day : Z) : Prop :=
  GoTime.day_of endDate - 30 < day <= GoTime.day_of endDate.

(** The end date of the [k]-th request of the window loop when the first
    entry is of day [d0]: the first date minus 24 hours, plus [k] times 30
    days. *)
Definition end_date (d0 : Z) (k : nat) : GoTime.Time :=
  GoTime.Add (GoTime.midnight d0) (-24 * GoTime.Hour) +
  Z.of_nat k * (30 * 24 * GoTime.Hour).

(** The requests of [tr] are those of the first [n] windows, for some [n],
    and every calendar day from [from] to [today] lies in one of these
    windows. *)
Definition windows_cover (d0 from today : Z) (tr : list Event) : Prop :=
  exists n : nat,
    requested tr = map (fun k => weight_log_url (end_date d0 k)) (seq 1 n) /\
    forall day, from <= day <= today ->
      exists k, (1 <= k <= n)%nat /\ window_covers (end_date d0 k) day.

(** The body [b] has a "weight" member with the entries [ws]: decoding it
    replaces whatever the [weights] variable held. *)
Definition carries (b : Body) (ws : list weight) : Prop :=
  forall prev, decode_weights b prev = inr {| Weights := ws |}.

(** One line on standard output for every entry of the replies of a run,
    [decoded] being the entries that the replies carried, reply by reply. *)
Definition one_line_each (decoded : list (list weight)) (tr : list Event) : Prop :=
  stdout tr = map weight_line (List.concat decoded).

(** The errors of the token source, in order. *)
Fixpoint token_errors (tr : list Event) : list error :=
  match tr with
  | [] => []
  | Error OpToken e :: tr' => e :: token_errors tr'
  | _ :: tr' => token_errors tr'
  end.

(** An error that comes from outside the program. *)
Definition foreign (e : error) : Prop := exists msg, e = errMsg msg.

(** [Token.Valid] at the time [now]. *)
Definition valid_at (env : Env) (t : Token) (now : GoTime.Time) : bool :=
  negb (AccessToken t =? "")%string &&
  (GoTime.IsZero (Expiry t) ||
   negb (GoTime.Before (GoTime.Add (Expiry t) (- expiryDelta env)) now)).

(** The cache file holds a token that [FileTokenSource] can use: the path is
    set, the file reads and parses, the token is valid when it is checked. *)
Definition usable (env : Env) (s : State) (t : Token) : Prop :=
  cachePath env <> "" /\
  cache_file s = Some (Encoded t) /\
  env_read_error env (tick s) = None /\
  valid_at env t (env_now env (S (tick s))) = true.

(** When backup.go, started in the state [s] with the token [t] in the cache
    file, sends its first request, the token source checks [t] against the
    clock reading of tick [tick s + 2] (the file has been read twice by
    then); if [t] is not valid, the refresh request follows. *)
Definition refresh_tick (s : State) (t : Token) : nat :=
  if (AccessToken t =? "")%string then S (S (tick s)) else S (S (S (tick s))).

(** backup.go can go on with the token [t] of the cache file without
    asking the user: at the first request [t] is valid, or it has a refresh
    token and the refresh request is answered with a token. *)
Definition reusable (env : Env) (s : State) (t : Token) : Prop :=
  valid_at env t (env_now env (S (S (tick s)))) = true \/
  (RefreshToken t <> "" /\ exists tk, env_refresh env (refresh_tick s t) = inr tk).

(** The failures that [main] sees: an error of a GET, of the decoding of a
    reply, of the parsing of the first date, of an authorization. *)
Definition is_failure (e : Event) : bool :=
  match e with
  | Error (OpGet _) _ | Error OpDecode _ | Error OpParseDate _
  | Error OpAuthorize _ => true
  | _ => false
  end.

(** The log line [m] reports the error of the event [ev]. *)
Definition reports (m : logmsg) (ev : Event) : Prop :=
  match ev with
  | Error _ e =>
      m = LogErr e \/ (exists e0, m = LogReauth e0 e) \/ (exists v, m = LogParse v e)
  | _ => False
  end.

(** The failures of the tail of [main]. *)
Definition tail_failure (e : Event) : bool :=
  match e with
  | Error (OpGet _) _ | Error OpDecode _ | Error OpParseDate _ => true
  | _ => false
  end.

(** [tr] ends with a failure (an event that satisfies [fail]) and the log
    line that reports it; the events before satisfy [ok]. *)
Definition fatal_tail (ok fail : Event -> bool) (tr : list Event) : Prop :=
  exists tr0 ev m,
    tr = (tr0 ++ [ev; Log m])%list /\ forallb ok tr0 = true /\
    fail ev = true /\ reports m ev.

(** A run all of whose events satisfy [ok], or one that ends, with exit
    status 1, on a failure and its log line. *)
Definition good (ok fail : Event -> bool) {A} (r : list Event * Outcome A)
  : Prop :=
  forallb ok (fst r) = true \/ (snd r = Exited 1 /\ fatal_tail ok fail (fst r)).

(** An event that is not a failure. *)
Definition clean (e : Event) : bool := negb (is_failure e).

(** Neither the start nor the failure of an interactive authorization. *)
Definition no_authorize (e : Event) : bool :=
  match e with
  | Call OpAuthorize | Error OpAuthorize _ => false
  | _ => true
  end.

(** The expired-token error of a GET. *)
Definition expired_get (url : string) : Event :=
  Error (OpGet url) (urlError url errExpiredToken).

(** A good run, but for the expired-token error of its first GET. *)
Definition good_but_first {A} (r : list Event * Outcome A) : Prop :=
  good clean is_failure r \/
  exists pre url rest,
    fst r = (pre ++ expired_get url :: rest)%list /\
    forallb clean pre = true /\ requested pre = [url] /\
    good clean is_failure (rest, snd r).

(** What [authorize] does before it waits: it starts, and prints the prompt
    and the URL. *)
Definition authorize_prompt (env : Env) : list Event :=
  [Call OpAuthorize;
   Stdout ("Please visit the following URL to authorize:" ++ GoString.nl);
   Stdout (authUrl env ++ GoString.nl)].

(** The expired-token error of the probe, the first GET of [main]. *)
Definition expired_probe : Event := expired_get timeseries_url.

(** The events after the first GET. *)
Fixpoint after_first_get (tr : list Event) : list Event :=
  match tr with
  | [] => []
  | Call (OpGet _) :: tr' => tr'
  | _ :: tr' => after_first_get tr'
  end.

(** A run with at most one interactive authorization, whose failure is
    fatal. *)
Definition one_authorization {A} (r : list Event * Outcome A) : Prop :=
  (authorizations (fst r) <= 1)%nat /\
  forall e, In (Error OpAuthorize e) (fst r) -> snd r = Exited 1.

(** How often the time-series URL was requested. *)
Definition timeseries_requests (tr : list Event) : nat :=
  count_occ string_dec (requested tr) timeseries_url.

(** A URL of the body-weight log. *)
Definition is_window_url (url : string) : Prop :=
  exists endDate, url = weight_log_url endDate.

(** ** What the further properties say about a run *)

(** How many requests went through the base transport. *)
Fixpoint net_calls (tr : list Event) : nat :=
  match tr with
  | [] => O
  | Call OpNet :: tr' => S (net_calls tr')
  | _ :: tr' => net_calls tr'
  end.

(** The errors of [json.Marshal] and [ioutil.WriteFile], in order. *)
Fixpoint cache_failures (tr : list Event) : list error :=
  match tr with
  | [] => []
  | Error OpMarshal e :: tr' => e :: cache_failures tr'
  | Error OpWriteFile e :: tr' => e :: cache_failures tr'
  | _ :: tr' => cache_failures tr'
  end.

(** The errors of [ioutil.WriteFile], in order. *)
Fixpoint write_failures (tr : list Event) : list error :=
  match tr with
  | [] => []
  | Error OpWriteFile e :: tr' => e :: write_failures tr'
  | _ :: tr' => write_failures tr'
  end.

(** The cache file after a call that returned the error [e]: it is as it
    was [before], unless [e] is the error of a failed write; a failed write
    leaves the file as it was, or a part of the data, which does not parse,
    or all of the data. *)
Definition file_after_error (tr : list Event) (e : error)
    (before after : option content) : Prop :=
  (write_failures tr = [] /\ after = before) \/
  (write_failures tr = [e] /\
   (after = before \/ (exists m, after = Some (Malformed m)) \/
    exists t, after = Some (Encoded t))).

(** The errors that [FileTokenSource.Token] returns once it has asked for a
    code, and the cache file [after] each: a failed exchange or encoding
    leaves the file as it was [before]; a failed write leaves it as it was,
    or truncated, or complete. *)
Definition Token_failure (env : Env) (path : string) (e : error)
    (before after : option content) : Prop :=
  (exists msg,
     e = errWrap "could not exchange auth code for a token: " (errMsg msg) /\
     after = before) \/
  (exists msg,
     e = errWrap "could not encode token as json: " (errMsg msg) /\
     after = before) \/
  (exists msg,
     e = errWrap ("could not cache token in " ++ fmt_q env path ++ ": ") (errMsg msg) /\
     (after = before \/ (exists m, after = Some (Malformed m)) \/
      exists t, after = Some (Encoded t))).

(** [kept I P m]: from a state that satisfies [I], the trace of [m]
    satisfies [P], and the state in which [m] returns satisfies [I]. *)
Definition kept (I : State -> Prop) (P : list Event -> Prop) {A} (m : M A) : Prop :=
  forall s, I s ->
    P (fst (m s)) /\ forall a s1, snd (m s) = Ret a s1 -> I s1.

(** A trace without authorization, without a write of the cache file and
    without an error of the token source, in which every GET has reached
    the network once. *)
Definition undisturbed (tr : list Event) : Prop :=
  authorizations tr = O /\ writes tr = [] /\ token_errors tr = [] /\
  net_calls tr = List.length (requested tr).

(** The cache file and the token source hold the token [t]. *)
Definition holds_cached (t : Token) (s : State) : Prop :=
  cache_file s = Some (Encoded t) /\ src_token s = Some t.

(** What [authorize] prints on standard output. *)
Definition prompt_lines (env : Env) : list string :=
  ["Please visit the following URL to authorize:" ++ GoString.nl;
   authUrl env ++ GoString.nl].

(** Standard output holds nothing but weight lines. *)
Definition weight_lines (tr : list Event) : Prop :=
  exists ws : list weight, stdout tr = map weight_line ws.

(** What the [AuthCode] closure of the [FileTokenSource] variant does: it
    starts an authorization and prints three lines. *)
Definition auth_code_prompt (env : Env) : list Event :=
  [Call OpAuthorize;
   Stdout ("Get auth code from:" ++ GoString.nl);
   Stdout (authUrl env ++ GoString.nl);
   Stdout ("Enter auth code (or entire URL):" ++ GoString.nl)].

(** The cache file holds the token [t], and the token source holds it too
    or holds nothing yet. *)
Definition cache_ready (t : Token) (s : State) : Prop :=
  cache_file s = Some (Encoded t) /\ (src_token s = None \/ src_token s = Some t).

(** An event that is not an error of a token source. *)
Definition no_token_error (e : Event) : bool :=
  match e with
  | Error OpToken _ => false
  | _ => true
  end.

(** A trace in which an error of the token source, if there is one, comes
    with a failure that [main] sees. *)
Definition token_error_seen (tr : list Event) : Prop :=
  token_errors tr = [] \/ existsb is_failure tr = true.

(** The earliest end date with which the window loop can start: the day
    before January 1 of the year 0, the earliest date that
    [time.Parse("2006-01-02", _)] returns. *)
Definition earliest_start : GoTime.Time :=
  GoTime.midnight (GoTime.days_from_civil 0 1 1 - 1).

(** Fuel that suffices for [main] while the clock does not pass [T]: two
    iterations of the time-series loop, and the windows from the earliest
    start to [T]. *)
Definition main_fuel (T : GoTime.Time) : nat :=
  Nat.max 2 (iterations T earliest_start).

(** Further environments and states on which the properties are run. *)
Module Scenario.

(** The state of the caching variant once [client] has been given [t], with
    the cache file [f]. *)
Definition holding (f : option content) (t : Token) : State :=
  {| tick := 0; cache_file := f; mux_registered := false;
     src_token := Some t; src_refresh := RefreshToken t |}.



(** The user pastes the URL of the redirect; the token endpoint accepts
    the code "xyz" and nothing else. *)
Definition env_url : Env :=
  {| clientSecret := "secret"; cachePath := "";
     consumerKey := "key"; consumerSecret := "secret";
     accessTokenToken := "t"; accessTokenSecret := "s";
     expiryDelta := 10 * GoTime.Second;
     authUrl := "https://www.fitbit.com/oauth2/authorize";
     query_code := fun text =>
       if (text =? "http://localhost:7319/?code=xyz&state=state")%string
       then Some "xyz" else Some "";
     fmt_q := fun text => GoString.dquote ++ text ++ GoString.dquote;
     env_now := fun _ => Sample.noon;
     env_net := fun _ _ => inr (Sample.ok (Sample.body_of [Sample.first_entry] [Sample.entry1]));
     env_refresh := fun _ => inr Sample.tok;
     env_exchange := fun _ code =>
       if (code =? "xyz")%string then inr Sample.tok else inl "invalid_grant";
     env_callback := fun _ => inr Sample.tok;
     env_stdin := fun _ => "http://localhost:7319/?code=xyz&state=state";
     env_scanln := fun _ => "http://localhost:7319/?code=xyz&state=state";
     env_read_error := fun _ => None;
     env_write_error := fun _ => None;
     env_write_left := fun _ => Untouched;
     env_get1 := fun _ _ _ =>
       (Some (Sample.ok (Sample.body_of [Sample.first_entry] [Sample.entry1])), None);
     env_request_token := fun _ => inr ("rq", "https://www.fitbit.com/oauth/authorize");
     env_authorize_token := fun _ _ _ => inr {| Token1 := "t2"; Secret1 := "s2" |} |}.

(** No request reaches the API. *)
Definition env_offline : Env :=
  {| clientSecret := "secret"; cachePath := "token.json";
     consumerKey := "key"; consumerSecret := "secret";
     accessTokenToken := "t"; accessTokenSecret := "s";
     expiryDelta := 10 * GoTime.Second;
     authUrl := "https://www.fitbit.com/oauth2/authorize";
     query_code := fun _ => Some "";
     fmt_q := fun text => GoString.dquote ++ text ++ GoString.dquote;
     env_now := fun _ => Sample.noon;
     env_net := fun _ _ => inl "connection reset by peer";
     env_refresh := fun _ => inr Sample.tok;
     env_exchange := fun _ _ => inr Sample.tok;
     env_callback := fun _ => inr Sample.tok;
     env_stdin := fun _ => "code";
     env_scanln := fun _ => "code";
     env_read_error := fun _ => None;
     env_write_error := fun _ => None;
     env_write_left := fun _ => Untouched;
     env_get1 := fun _ _ _ => (None, Some "connection reset by peer");
     env_request_token := fun _ => inr ("rq", "https://www.fitbit.com/oauth/authorize");
     env_authorize_token := fun _ _ _ => inr {| Token1 := "t2"; Secret1 := "s2" |} |}.

(** A reply that is JSON without a "weight" member, such as the error
    object of the API: decoding it leaves the [weights] variable as it
    is. *)
Definition reply_without_weight : Response :=
  {| StatusCode := 429;
     RespBody := {| decode_timeseries := inr {| Entries := [] |};
                    decode_weights := fun prev => inr prev |} |}.

(** The window that ends on 2013-08-28 is answered with two entries, every
    other request with a reply without a "weight" member. *)
Definition env_again : Env :=
  {| clientSecret := "secret"; cachePath := "token.json";
     consumerKey := "key"; consumerSecret := "secret";
     accessTokenToken := "t"; accessTokenSecret := "s";
     expiryDelta := 10 * GoTime.Second;
     authUrl := "https://www.fitbit.com/oauth2/authorize";
     query_code := fun _ => Some "";
     fmt_q := fun text => GoString.dquote ++ text ++ GoString.dquote;
     env_now := fun _ => Sample.noon;
     env_net := fun _ url =>
       if (url =? weight_log_url (GoTime.midnight 15945))%string
       then inr (Sample.ok (Sample.body_of [] [Sample.entry1; Sample.entry2]))
       else inr reply_without_weight;
     env_refresh := fun _ => inr Sample.tok;
     env_exchange := fun _ _ => inr Sample.tok;
     env_callback := fun _ => inr Sample.tok;
     env_stdin := fun _ => "code";
     env_scanln := fun _ => "code";
     env_read_error := fun _ => None;
     env_write_error := fun _ => None;
     env_write_left := fun _ => Untouched;
     env_get1 := fun _ _ _ => (Some reply_without_weight, None);
     env_request_token := fun _ => inr ("rq", "https://www.fitbit.com/oauth/authorize");
     env_authorize_token := fun _ _ _ => inr {| Token1 := "t2"; Secret1 := "s2" |} |}.

(** The reply of the API to a token it does not accept: status 401 and an
    error object, which decodes to no entries. *)
Definition reply_unauthorized : Response :=
  {| StatusCode := 401;
     RespBody := {| decode_timeseries := inr {| Entries := [] |};
                    decode_weights := fun prev => inr prev |} |}.

(** The API accepts no token: every request is answered with status 401.
    The authorization itself goes through. *)
Definition env_rejected : Env :=
  {| clientSecret := "secret"; cachePath := "token.json";
     consumerKey := "key"; consumerSecret := "secret";
     accessTokenToken := "t"; accessTokenSecret := "s";
     expiryDelta := 10 * GoTime.Second;
     authUrl := "https://www.fitbit.com/oauth2/authorize";
     query_code := fun _ => Some "";
     fmt_q := fun text => GoString.dquote ++ text ++ GoString.dquote;
     env_now := fun _ => Sample.noon;
     env_net := fun _ _ => inr reply_unauthorized;
     env_refresh := fun _ => inl "invalid_grant";
     env_exchange := fun _ _ => inr Sample.tok;
     env_callback := fun _ => inr Sample.tok;
     env_stdin := fun _ => "code";
     env_scanln := fun _ => "code";
     env_read_error := fun _ => None;
     env_write_error := fun _ => None;
     env_write_left := fun _ => Untouched;
     env_get1 := fun _ _ _ => (Some reply_unauthorized, None);
     env_request_token := fun _ => inr ("rq", "https://www.fitbit.com/oauth/authorize");
     env_authorize_token := fun _ _ _ => inr {| Token1 := "t2"; Secret1 := "s2" |} |}.

(** An entry whose time has four bytes. *)
Definition entry_short : weight :=
  {| Bmi := Sample.f64 false 0 0; Date := "2013-07-30"; Logid := 3;
     Time := "7:15"; Weight := Sample.w659 |}.

(** A token that expired an hour before [noon] and has no refresh token. *)
Definition stale : Token :=
  {| AccessToken := "at"; TokenType := "Bearer"; RefreshToken := "";
     Expiry := Sample.noon - GoTime.Hour |}.

(** The clock stands at [noon]; every authorization brings the token
    [stale]. *)
Definition env_stale : Env :=
  {| clientSecret := "secret"; cachePath := "token.json";
     consumerKey := "key"; consumerSecret := "secret";
     accessTokenToken := "t"; accessTokenSecret := "s";
     expiryDelta := 10 * GoTime.Second;
     authUrl := "https://www.fitbit.com/oauth2/authorize";
     query_code := fun _ => Some "";
     fmt_q := fun text => GoString.dquote ++ text ++ GoString.dquote;
     env_now := fun _ => Sample.noon;
     env_net := fun _ _ => inr (Sample.ok (Sample.body_of [Sample.first_entry] [Sample.entry1]));
     env_refresh := fun _ => inr Sample.tok;
     env_exchange := fun _ _ => inr stale;
     env_callback := fun _ => inr stale;
     env_stdin := fun _ => "code";
     env_scanln := fun _ => "code";
     env_read_error := fun _ => None;
     env_write_error := fun _ => None;
     env_write_left := fun _ => Untouched;
     env_get1 := fun _ _ _ =>
       (Some (Sample.ok (Sample.body_of [Sample.first_entry] [Sample.entry1])), None);
     env_request_token := fun _ => inr ("rq", "https://www.fitbit.com/oauth/authorize");
     env_authorize_token := fun _ _ _ => inr {| Token1 := "t2"; Secret1 := "s2" |} |}.

(** The OAuth 1.0a consumer cannot reach the API: every request fails
    without a response. *)
Definition env_unreachable : Env :=
  {| clientSecret := clientSecret Sample.env1; cachePath := cachePath Sample.env1;
     consumerKey := consumerKey Sample.env1;
     consumerSecret := consumerSecret Sample.env1;
     accessTokenToken := accessTokenToken Sample.env1;
     accessTokenSecret := accessTokenSecret Sample.env1;
     expiryDelta := expiryDelta Sample.env1; authUrl := authUrl Sample.env1;
     query_code := query_code Sample.env1; fmt_q := fmt_q Sample.env1;
     env_now := env_now Sample.env1; env_net := env_net Sample.env1;
     env_refresh := env_refresh Sample.env1;
     env_exchange := env_exchange Sample.env1;
     env_callback := env_callback Sample.env1;
     env_stdin := env_stdin Sample.env1;
     env_scanln := env_scanln Sample.env1;
     env_read_error := env_read_error Sample.env1;
     env_write_error := env_write_error Sample.env1;
     env_write_left := env_write_left Sample.env1;
     env_get1 := fun _ _ _ => (None, Some "connection refused");
     env_request_token := env_request_token Sample.env1;
     env_authorize_token := env_authorize_token Sample.env1 |}.

End Scenario.

(** * Properties *)

(** ** The code that the [AuthCode] closure takes from a line *)

Example TrimSpace_blanks :
  GoString.TrimSpace ("  4/P7q7W91a-oMsCeLvIaQm6bTrgtp7 " ++ GoString.nl) =
  "4/P7q7W91a-oMsCeLvIaQm6bTrgtp7".
Proof. reflexivity. Qed.

Example TrimSpace_inner_blank : GoString.TrimSpace " a b " = "a b".
Proof. reflexivity. Qed.

Example TrimSpace_all_blank : GoString.TrimSpace "   " = "".
Proof. reflexivity. Qed.

(** U+00A0, the no-break space, is white space; its second byte alone is
    not. *)
Example TrimSpace_no_break_space :
  GoString.TrimSpace
    (String (ascii_of_nat 194) (String (ascii_of_nat 160)
       ("x" ++ String (ascii_of_nat 160) EmptyString))) =
  "x" ++ String (ascii_of_nat 160) EmptyString.
Proof. reflexivity. Qed.

Lemma code_of_url : forall env text c,
  query_code env text = Some c -> c <> "" -> FileSource.code_of env text = c.
Proof.
  intros env text c H Hc. unfold FileSource.code_of. rewrite H.
  apply String.eqb_neq in Hc. rewrite Hc. reflexivity.
Qed.

Lemma code_of_plain : forall env text,
  query_code env text = None \/ query_code env text = Some "" ->
  FileSource.code_of env text = GoString.TrimSpace text.
Proof.
  intros env text [H | H]; unfold FileSource.code_of; rewrite H; reflexivity.
Qed.

(** ** The monad *)

Lemma bind_Ret : forall A B (m : M A) (f : A -> M B) s tr a s',
  m s = (tr, Ret a s') ->
  bind m f s = ((tr ++ fst (f a s'))%list, snd (f a s')).
Proof.
  intros A B m f s tr a s' H. unfold bind. rewrite H.
  destruct (f a s'); reflexivity.
Qed.

Lemma bind_ret_l : forall A B (a : A) (f : A -> M B) s,
  bind (ret a) f s = f a s.
Proof.
  intros. unfold bind, ret. destruct (f a s); reflexivity.
Qed.

Lemma bind_emit : forall B (e : Event) (f : unit -> M B) s,
  bind (emit e) f s = (e :: fst (f tt s), snd (f tt s)).
Proof.
  intros. unfold bind, emit. destruct (f tt s); reflexivity.
Qed.

(** A run of [bind m f] is a run of [m] that does not return, or a run of
    [m] that returns followed by a run of [f]. *)
Lemma bind_inv : forall A B (m : M A) (f : A -> M B) s tr o,
  bind m f s = (tr, o) ->
  (exists a s1 tr1 tr2,
      m s = (tr1, Ret a s1) /\ f a s1 = (tr2, o) /\ tr = (tr1 ++ tr2)%list) \/
  (m s = (tr, Exited 1) /\ o = Exited 1) \/
  (exists c, m s = (tr, Exited c) /\ o = Exited c) \/
  (m s = (tr, Panicked) /\ o = Panicked) \/
  (m s = (tr, OutOfFuel) /\ o = OutOfFuel).
Proof.
  intros A B m f s tr o H. unfold bind in H.
  destruct (m s) as [tr1 [a s1 | c | | ]].
  - left. destruct (f a s1) as [tr2 o2] eqn:E. inversion H; subst.
    exists a, s1, tr1, tr2. auto.
  - inversion H; subst. right; right; left. exists c. auto.
  - inversion H; subst. right; right; right; left. auto.
  - inversion H; subst. right; right; right; right. auto.
Qed.

(** ** Decimal digits *)

Lemma is_digit_digit_char : forall d, 0 <= d < 10 ->
  GoString.is_digit (GoString.digit_char d) = true.
Proof.
  intros d H.
  assert (C : d = 0 \/ d = 1 \/ d = 2 \/ d = 3 \/ d = 4 \/
              d = 5 \/ d = 6 \/ d = 7 \/ d = 8 \/ d = 9) by lia.
  repeat (destruct C as [C | C]; [subst d; reflexivity | ]).
  subst d; reflexivity.
Qed.

Lemma digits_aux_all_digits : forall fuel n acc,
  GoString.all_digits acc = true ->
  GoString.all_digits (GoString.digits_aux fuel n acc) = true.
Proof.
  induction fuel as [| fuel IH]; intros n acc Hacc;
    cbn [GoString.digits_aux].
  - exact Hacc.
  - assert (Hd : GoString.all_digits
                   (String (GoString.digit_char (n mod 10)) acc) = true).
    { cbn [GoString.all_digits]. rewrite is_digit_digit_char by (apply Z.mod_pos_bound; lia).
      exact Hacc. }
    destruct (n / 10 =? 0); [exact Hd | apply IH; exact Hd].
Qed.

Lemma digits_aux_nonempty : forall fuel n acc,
  GoString.digits_aux (S fuel) n acc <> EmptyString.
Proof.
  induction fuel as [| fuel IH]; intros n acc.
  - cbn [GoString.digits_aux]. destruct (n / 10 =? 0); discriminate.
  - change (GoString.digits_aux (S (S fuel)) n acc) with
      (let acc' := String (GoString.digit_char (n mod 10)) acc in
       if n / 10 =? 0 then acc' else GoString.digits_aux (S fuel) (n / 10) acc').
    cbv zeta. destruct (n / 10 =? 0); [discriminate | apply IH].
Qed.

Lemma decimal_digits : forall n,
  GoString.all_digits (GoString.decimal n) = true /\
  GoString.decimal n <> EmptyString.
Proof.
  intro n. unfold GoString.decimal. split.
  - apply digits_aux_all_digits. reflexivity.
  - apply digits_aux_nonempty.
Qed.

Lemma length_take : forall n s, (n <= String.length s)%nat ->
  String.length (GoString.take n s) = n.
Proof.
  induction n as [| n IH]; intros s H.
  - destruct s; reflexivity.
  - destruct s as [| c s]; simpl in *; [lia | ].
    rewrite IH by lia. reflexivity.
Qed.

Lemma print_entry_ok : forall entry s,
  (5 <= String.length (Time entry))%nat ->
  print_entry entry s = ([Stdout (weight_line entry)], Ret tt s).
Proof.
  intros entry s H. unfold print_entry, GoString.slice_to.
  apply Nat.leb_le in H. rewrite H. reflexivity.
Qed.

Lemma print_entry_panics : forall entry s,
  (String.length (Time entry) < 5)%nat ->
  print_entry entry s = ([], Panicked).
Proof.
  intros entry s H. unfold print_entry, GoString.slice_to.
  apply Nat.leb_gt in H. rewrite H. reflexivity.
Qed.

(** C10. Printing an entry slices [entry.Time[0:5]]: the slice is in bounds,
    and the program does not panic, exactly when [Time] has at least five
    bytes; it then is the five-byte prefix of [Time]. *)
Theorem time_slice_in_bounds_iff : forall entry s,
  ((5 <= String.length (Time entry))%nat <->
     snd (print_entry entry s) <> Panicked) /\
  ((5 <= String.length (Time entry))%nat <->
     exists hhmm, GoString.slice_to (Time entry) 5 = Some hhmm /\
                  String.length hhmm = 5%nat /\
                  hhmm = GoString.take 5 (Time entry) /\
                  print_entry entry s =
                    ([Stdout (Date entry ++ " " ++ hhmm ++ " " ++
                              GoFmt.format_f1 (Weight entry) ++ GoString.nl)],
                     Ret tt s)).
Proof.
  intros entry s.
  destruct (le_lt_dec 5 (String.length (Time entry))) as [Hle | Hlt].
  - split; split; intro H; try exact Hle.
    + rewrite print_entry_ok by exact Hle. discriminate.
    + exists (GoString.take 5 (Time entry)).
      unfold GoString.slice_to.
      assert (E : (5 <=? String.length (Time entry))%nat = true)
        by (apply Nat.leb_le; exact Hle).
      rewrite E. repeat split.
      * apply length_take; exact Hle.
      * apply print_entry_ok; exact Hle.
  - split; split; intro H; try lia.
    + rewrite print_entry_panics in H by exact Hlt. simpl in H. congruence.
    + destruct H as (hhmm & Hs & _). unfold GoString.slice_to in Hs.
      assert (E : (5 <=? String.length (Time entry))%nat = false)
        by (apply Nat.leb_gt; exact Hlt).
      rewrite E in Hs. discriminate.
Qed.

Lemma print_entries_ok : forall ws s,
  Forall (fun entry => (5 <= String.length (Time entry))%nat) ws ->
  print_entries ws s = (map (fun entry => Stdout (weight_line entry)) ws, Ret tt s).
Proof.
  induction ws as [| entry rest IH]; intros s H.
  - reflexivity.
  - inversion H as [| ? ? H1 H2]; subst. simpl.
    erewrite bind_Ret by (apply print_entry_ok; exact H1).
    rewrite IH by exact H2. reflexivity.
Qed.

(** C2, as the code has it. In every iteration of the window loop of every
    variant: when the request is answered by a reply that has a "weight"
    member whose entries all have a time of five bytes or more, what the
    iteration does after the request is to write one line per entry of the
    reply, in the order of the reply, and nothing else: the date, a space,
    the first five bytes of the time, a space, the weight and a newline;
    the weight is an optional sign, digits, a point and exactly one
    digit. *)
Theorem one_line_per_entry : forall env v endDate weights s tr_g resp s1 ws,
  variant_Get env v (weight_log_url endDate) s = (tr_g, Ret (Some resp, None) s1) ->
  carries (RespBody resp) ws ->
  Forall (fun entry => (5 <= String.length (Time entry))%nat) ws ->
  window_body (variant_Get env v) endDate weights s =
    ((tr_g ++
      map (fun entry =>
             Stdout (Date entry ++ " " ++ GoString.take 5 (Time entry) ++ " " ++
                     GoFmt.format_f1 (Weight entry) ++ GoString.nl)) ws)%list,
     Ret {| Weights := ws |} s1) /\
  forall entry, In entry ws ->
    exists sign int d,
      GoFmt.format_f1 (Weight entry) =
        sign ++ int ++ "." ++ String d EmptyString /\
      (sign = "" \/ sign = "-") /\
      int <> "" /\ GoString.all_digits int = true /\
      GoString.is_digit d = true.
Proof.
  intros env v endDate weights s tr_g resp s1 ws Hget Hcar Htime. split.
  - unfold window_body. cbv zeta.
    erewrite bind_Ret by exact Hget. cbn beta iota. cbn [fst snd].
    unfold Decode. rewrite (Hcar weights), bind_ret_l.
    erewrite bind_Ret by (apply print_entries_ok; exact Htime).
    cbn [ret fst snd]. rewrite app_nil_r. reflexivity.
  - intros entry _. unfold GoFmt.format_f1.
    set (n := GoFmt.round_tenths _ _).
    exists (if GoFmt.f_neg (Weight entry) then "-" else ""),
           (GoString.decimal (n / 10)), (GoString.digit_char (n mod 10)).
    destruct (decimal_digits (n / 10)) as [Hd Hn].
    repeat split; auto.
    + destruct (GoFmt.f_neg (Weight entry)); auto.
    + apply is_digit_digit_char. apply Z.mod_pos_bound. lia.
Qed.

Lemma one_line_per_entry_witness :
  exists s1,
    window_body (variant_Get Sample.env1 VCacher) (GoTime.midnight 15945)
      {| Weights := [] |} Sample.ready =
      ([Call (OpGet (weight_log_url (GoTime.midnight 15945))); Call OpNet;
        Stdout ("2013-07-30 18:00 65.9" ++ GoString.nl);
        Stdout ("2013-07-30 23:59 65.3" ++ GoString.nl)],
       Ret {| Weights := [Sample.entry1; Sample.entry2] |} s1).
Proof.
  eexists.
  refine (proj1 (one_line_per_entry Sample.env1 VCacher (GoTime.midnight 15945)
                   {| Weights := [] |} Sample.ready
                   [Call (OpGet (weight_log_url (GoTime.midnight 15945))); Call OpNet]
                   (Sample.ok (Sample.body_of [Sample.first_entry]
                                              [Sample.entry1; Sample.entry2]))
                   _ [Sample.entry1; Sample.entry2] _ _ _)).
  - vm_compute. reflexivity.
  - intro prev. reflexivity.
  - repeat constructor.
Defined.

(** C2 as stated fails.  In the first run the reply to the first window
    carries two entries and the reply to the second window has no "weight"
    member: the two entries are written again, four lines for two decoded
    entries.  In the second run the one entry of the reply has a time of
    four bytes: the program panics and writes no line for it. *)
Lemma entries_printed_again :
  (carries (RespBody (Sample.ok (Sample.body_of [] [Sample.entry1; Sample.entry2])))
     [Sample.entry1; Sample.entry2] /\
   (forall prev,
      decode_weights (RespBody Scenario.reply_without_weight) prev = inr prev) /\
   stdout (fst (after_tries Scenario.env_again
                  (variant_Get Scenario.env_again VCacher) 5
                  (Some (Sample.ok (Sample.body_of [Sample.first_entry] [])))
                  Sample.ready)) =
     map weight_line [Sample.entry1; Sample.entry2; Sample.entry1; Sample.entry2] /\
   ~ one_line_each [[Sample.entry1; Sample.entry2]; []]
       (fst (after_tries Scenario.env_again
               (variant_Get Scenario.env_again VCacher) 5
               (Some (Sample.ok (Sample.body_of [Sample.first_entry] [])))
               Sample.ready))) /\
  (snd (window_body
          (variant_Get (Sample.quiet Sample.noon
                          (Sample.ok (Sample.body_of [] [Scenario.entry_short])))
                       VCacher)
          (GoTime.midnight 15945) {| Weights := [] |} Sample.ready) = Panicked /\
   ~ one_line_each [[Scenario.entry_short]]
       (fst (window_body
               (variant_Get (Sample.quiet Sample.noon
                               (Sample.ok (Sample.body_of [] [Scenario.entry_short])))
                            VCacher)
               (GoTime.midnight 15945) {| Weights := [] |} Sample.ready))).
Proof.
  split; [split; [ | split; [ | split]] | split].
  - intro prev. reflexivity.
  - intro prev. reflexivity.
  - vm_compute. reflexivity.
  - unfold one_line_each. vm_compute. discriminate.
  - vm_compute. reflexivity.
  - unfold one_line_each. vm_compute. discriminate.
Qed.

(** C9. A time-series reply with zero entries: the program logs that the
    API returned no values and exits with status 0; it writes nothing to
    standard output and issues no request. *)
Theorem no_entries_exits_0 : forall env get fuel resp s,
  decode_timeseries (RespBody resp) = inr {| Entries := [] |} ->
  after_tries env get fuel (Some resp) s =
    ([Log (LogText "The fitbit API returned no values.")], Exited 0) /\
  stdout (fst (after_tries env get fuel (Some resp) s)) = [] /\
  requested (fst (after_tries env get fuel (Some resp) s)) = [] /\
  logged (fst (after_tries env get fuel (Some resp) s)) =
    [LogText "The fitbit API returned no values."].
Proof.
  intros env get fuel resp s H.
  assert (E : after_tries env get fuel (Some resp) s =
              ([Log (LogText "The fitbit API returned no values.")], Exited 0)).
  { unfold after_tries, Decode. rewrite H. reflexivity. }
  rewrite E. repeat split; reflexivity.
Qed.

Lemma no_entries_exits_0_witness :
  after_tries Sample.env1 (Cacher.c_Get Sample.env1) 5
    (Some (Sample.ok (Sample.body_of [] []))) (initial_state None) =
  ([Log (LogText "The fitbit API returned no values.")], Exited 0).
Proof.
  exact (proj1 (no_entries_exits_0 Sample.env1 (Cacher.c_Get Sample.env1) 5
                  (Sample.ok (Sample.body_of [] [])) (initial_state None) eq_refl)).
Defined.

(** ** Which events a computation can emit *)

Lemma emits_ret : forall ok A (a : A), emits ok (ret a).
Proof. intros ok A a s. split; [reflexivity | simpl; eauto]. Qed.

Lemma emits_get_state : forall ok, emits ok get_state.
Proof. intros ok s. split; [reflexivity | simpl; eauto]. Qed.

Lemma emits_next_tick : forall ok, emits ok next_tick.
Proof. intros ok s. split; [reflexivity | simpl; eauto]. Qed.

Lemma emits_set_cache_file : forall ok c, emits ok (set_cache_file c).
Proof. intros ok c s. split; [reflexivity | simpl; eauto]. Qed.

Lemma emits_set_mux_registered : forall ok b, emits ok (set_mux_registered b).
Proof. intros ok b s. split; [reflexivity | simpl; eauto]. Qed.

Lemma emits_set_source : forall ok t r, emits ok (set_source t r).
Proof. intros ok t r s. split; [reflexivity | simpl; eauto]. Qed.

Lemma emits_emit : forall ok e, ok e = true -> emits ok (emit e).
Proof.
  intros ok e H s. split; [simpl; rewrite H; reflexivity | simpl; eauto].
Qed.

Lemma emits_bind : forall ok A B (m : M A) (f : A -> M B),
  emits ok m -> (forall a, emits ok (f a)) -> emits ok (bind m f).
Proof.
  intros ok A B m f Hm Hf s. unfold bind.
  destruct (Hm s) as [H1 (a & s1 & H2)].
  destruct (m s) as [tr o]; simpl in *. subst o.
  destruct (Hf a s1) as [H3 H4].
  destruct (f a s1) as [tr2 o2]; simpl in *.
  rewrite forallb_app, H1, H3. split; [reflexivity | exact H4].
Qed.

Lemma emits_weaken : forall (ok ok' : Event -> bool) A (m : M A),
  (forall e, ok e = true -> ok' e = true) -> emits ok m -> emits ok' m.
Proof.
  intros ok ok' A m Himp Hm s. destruct (Hm s) as [H1 H2]. split; [ | exact H2].
  rewrite forallb_forall in *. intros e He. apply Himp, H1, He.
Qed.

Lemma emits_set_src_token : forall ok t, emits ok (set_src_token t).
Proof.
  intros. unfold set_src_token.
  apply emits_bind; [apply emits_get_state | intro; apply emits_set_source].
Qed.

Lemma emits_set_src_refresh : forall ok r, emits ok (set_src_refresh r).
Proof.
  intros. unfold set_src_refresh.
  apply emits_bind; [apply emits_get_state | intro; apply emits_set_source].
Qed.

Lemma emits_fail_with : forall ok A o e,
  ok (Error o e) = true -> emits ok (@fail_with A o e).
Proof.
  intros. unfold fail_with.
  apply emits_bind; [apply emits_emit; assumption | intro; apply emits_ret].
Qed.

(** One step of a proof of [emits]: a primitive, a [bind], or a case
    distinction of the program. *)
Ltac emits_step :=
  first
    [ apply emits_ret
    | apply emits_get_state | apply emits_next_tick
    | apply emits_set_cache_file | apply emits_set_mux_registered
    | apply emits_set_source | apply emits_set_src_token
    | apply emits_set_src_refresh
    | apply emits_emit; reflexivity
    | apply emits_fail_with; reflexivity
    | assumption
    | match goal with H : _ |- emits _ _ => solve [apply H] end
    | apply emits_bind; [ | intro ]
    | match goal with
      | |- emits _ (match ?x with _ => _ end) => destruct x
      end ].

Ltac emits_auto := repeat emits_step.

Lemma transport_event_source : forall e,
  transport_event e = true -> source_event e = true.
Proof.
  intros [t | m | o | o e | c] H; simpl in *; try discriminate; auto.
  - destruct o; simpl in *; try discriminate; auto.
  - destruct o; simpl in *; try discriminate; auto.
Qed.

Lemma source_event_not_get : forall e,
  source_event e = true -> not_get e = true.
Proof.
  intros [t | m | o | o e | c] H; simpl in *; auto.
  destruct o; simpl in *; try discriminate; auto.
Qed.

Section EmitsShared.
Variable env : Env.

Lemma emits_time_Now : forall ok, emits ok (time_Now env).
Proof. intros. unfold time_Now. emits_auto. Qed.

Lemma emits_ReadFile : emits transport_event (ReadFile env).
Proof. unfold ReadFile. emits_auto. Qed.

Lemma emits_WriteFile : forall c, emits transport_event (WriteFile env c).
Proof. intros. unfold WriteFile. emits_auto. Qed.

Lemma emits_json_Unmarshal : forall c, emits transport_event (json_Unmarshal c).
Proof. intros. unfold json_Unmarshal. emits_auto. Qed.

Lemma emits_json_Marshal : forall t, emits transport_event (json_Marshal t).
Proof. intros. unfold json_Marshal. emits_auto. Qed.

Lemma emits_Valid : forall ok t, emits ok (Valid env t).
Proof.
  intros. unfold Valid. pose proof (emits_time_Now ok). emits_auto.
Qed.

Lemma emits_reuse_Token : forall ok new,
  (forall e, ok (Error OpToken e) = true) ->
  emits ok new -> emits ok (reuse_Token env new).
Proof.
  intros ok new Hok Hnew. unfold reuse_Token.
  apply emits_bind; [apply emits_get_state | intro s0].
  apply emits_bind; [apply emits_Valid | intro v].
  assert (Hslow : emits ok
            (r <- new ;;
             match r with
             | inl e => fail_with OpToken e
             | inr t => set_src_token (Some t) ;;; ret (inr t)
             end)).
  { apply emits_bind; [exact Hnew | intros [e | t]].
    - apply emits_fail_with. apply Hok.
    - emits_auto. }
  destruct v; [destruct (src_token s0) | ]; try exact Hslow.
  apply emits_ret.
Qed.

Lemma emits_oauth2_RoundTrip : forall ok source url,
  (forall e, transport_event e = true -> ok e = true) ->
  emits ok source -> emits ok (oauth2_RoundTrip env source url).
Proof.
  intros ok source url Hok Hs. unfold oauth2_RoundTrip.
  apply emits_bind; [exact Hs | intros [e | t]]; [apply emits_ret | ].
  apply emits_bind; [apply emits_emit; apply Hok; reflexivity | intros _].
  apply emits_bind; [apply emits_next_tick | intro n].
  destruct (env_net env n url).
  - apply emits_fail_with. apply Hok. reflexivity.
  - apply emits_ret.
Qed.

Lemma emits_refresher_Token : emits transport_event (Cacher.refresher_Token env).
Proof. unfold Cacher.refresher_Token. emits_auto. Qed.

Lemma emits_Source_Token : emits transport_event (Cacher.Source_Token env).
Proof.
  unfold Cacher.Source_Token.
  apply emits_reuse_Token; [reflexivity | apply emits_refresher_Token].
Qed.

Lemma emits_tokenFromFile : emits transport_event (Cacher.tokenFromFile env).
Proof.
  unfold Cacher.tokenFromFile.
  pose proof emits_ReadFile. pose proof emits_json_Unmarshal. emits_auto.
Qed.

Lemma emits_RoundTrip_with : forall cached url,
  emits transport_event (Cacher.RoundTrip_with env cached url).
Proof.
  intros. unfold Cacher.RoundTrip_with.
  pose proof emits_Source_Token.
  pose proof (emits_oauth2_RoundTrip transport_event (Cacher.Source_Token env) url
                (fun e H => H) emits_Source_Token).
  pose proof emits_json_Marshal. pose proof emits_WriteFile.
  emits_auto.
Qed.

Lemma emits_RoundTrip : forall url,
  emits transport_event (Cacher.RoundTrip env url).
Proof.
  intros. unfold Cacher.RoundTrip.
  pose proof emits_tokenFromFile. pose proof emits_RoundTrip_with.
  emits_auto.
Qed.

Lemma emits_cachedToken : emits transport_event (FileSource.cachedToken env).
Proof.
  unfold FileSource.cachedToken.
  pose proof emits_ReadFile. pose proof emits_json_Unmarshal.
  pose proof (emits_Valid transport_event).
  pose proof (emits_time_Now transport_event).
  emits_auto.
Qed.

Lemma emits_AuthCode : emits source_event (FileSource.AuthCode env).
Proof. unfold FileSource.AuthCode. emits_auto. Qed.

Lemma emits_Token_after_cache : forall path,
  emits source_event (FileSource.Token_after_cache env path
                        (Some (FileSource.AuthCode env))).
Proof.
  intros. unfold FileSource.Token_after_cache.
  pose proof emits_AuthCode.
  pose proof (fun t => emits_weaken _ _ _ _ transport_event_source
                         (emits_json_Marshal t)).
  pose proof (fun c => emits_weaken _ _ _ _ transport_event_source
                         (emits_WriteFile c)).
  emits_auto.
Qed.

Lemma emits_FileSource_Token : forall path,
  emits source_event (FileSource.Token_ env path (Some (FileSource.AuthCode env))).
Proof.
  intros. unfold FileSource.Token_.
  pose proof (emits_weaken _ _ _ _ transport_event_source emits_cachedToken).
  pose proof (emits_Token_after_cache path).
  unfold log_print. emits_auto.
Qed.

End EmitsShared.

(** ** The shape of a run of [c.Get] *)

Lemma http_Get_run : forall inner transport url,
  emits inner (transport url) ->
  forall s, get_run inner url (http_Get transport url s).
Proof.
  intros inner transport url Ht s. unfold http_Get.
  rewrite bind_emit. destruct (Ht s) as [Hev (a & s1 & Hret)].
  destruct (transport url s) as [tr o] eqn:E. simpl in *. subst o.
  erewrite bind_Ret by exact E.
  destruct a as [e | resp]; simpl.
  - exists tr, s1, None. split; [exact Hev | right].
    exists (urlError url e). reflexivity.
  - exists tr, s1, (Some resp). split; [exact Hev | left].
    rewrite app_nil_r. reflexivity.
Qed.

Lemma Cacher_c_Get_run : forall env url s,
  get_run transport_event url (Cacher.c_Get env url s).
Proof.
  intros. unfold Cacher.c_Get. apply http_Get_run. apply emits_RoundTrip.
Qed.

Lemma FileSource_c_Get_run : forall env url s,
  get_run source_event url (FileSource.c_Get env url s).
Proof.
  intros. unfold FileSource.c_Get. apply http_Get_run.
  apply emits_oauth2_RoundTrip.
  - apply transport_event_source.
  - apply emits_reuse_Token; [reflexivity | apply emits_FileSource_Token].
Qed.

Lemma OAuth1_c_Get_run : forall env url a s,
  get_run transport_event url (OAuth1.c_Get env url a s).
Proof.
  intros. unfold OAuth1.c_Get, bind, emit, next_tick, ret. simpl.
  destruct (env_get1 env (tick s) url a) as [resp [e | ]]; simpl.
  - eexists [], _, resp. split; [reflexivity | right]. exists (errMsg e). reflexivity.
  - eexists [], _, resp. split; [reflexivity | left]. reflexivity.
Qed.

Lemma get_run_weaken : forall (inner inner' : Event -> bool) url r,
  (forall e, inner e = true -> inner' e = true) ->
  get_run inner url r -> get_run inner' url r.
Proof.
  intros inner inner' url r Himp (tr & s' & resp & Hev & Hr).
  exists tr, s', resp. split; [ | exact Hr].
  rewrite forallb_forall in *. intros e He. apply Himp, Hev, He.
Qed.

Lemma variant_Get_run : forall env v url s,
  get_run source_event url (variant_Get env v url s).
Proof.
  intros env [ | | a] url s; simpl.
  - eapply get_run_weaken; [apply transport_event_source | apply Cacher_c_Get_run].
  - apply FileSource_c_Get_run.
  - eapply get_run_weaken; [apply transport_event_source | apply OAuth1_c_Get_run].
Qed.

(** ** Observations distribute over concatenation *)

Lemma requested_app : forall a b,
  requested (a ++ b) = (requested a ++ requested b)%list.
Proof.
  induction a as [| e a IH]; intro b; [reflexivity | ].
  destruct e as [t | m | o | o e | c]; simpl; try apply IH.
  destruct o; simpl; try apply IH. rewrite IH. reflexivity.
Qed.

Lemma requested_not_get : forall tr,
  forallb not_get tr = true -> requested tr = [].
Proof.
  induction tr as [| e tr IH]; intro H; [reflexivity | ].
  simpl in H. apply andb_prop in H. destruct H as [H1 H2].
  destruct e as [t | m | o | o e | c]; simpl; try (apply IH; exact H2).
  destruct o; simpl in *; try discriminate; apply IH; exact H2.
Qed.

Lemma forallb_weaken : forall (p q : Event -> bool) tr,
  (forall e, p e = true -> q e = true) ->
  forallb p tr = true -> forallb q tr = true.
Proof.
  intros p q tr Himp H. rewrite forallb_forall in *.
  intros e He. apply Himp, H, He.
Qed.

Lemma stdout_app : forall a b, stdout (a ++ b) = (stdout a ++ stdout b)%list.
Proof.
  induction a as [| e a IH]; intro b; [reflexivity | ].
  destruct e; simpl; rewrite ?IH; reflexivity.
Qed.

Lemma authorizations_app : forall a b,
  authorizations (a ++ b) = (authorizations a + authorizations b)%nat.
Proof.
  induction a as [| e a IH]; intro b; [reflexivity | ].
  destruct e as [t | m | o | o e | c]; simpl; try apply IH.
  destruct o; simpl; try apply IH. rewrite IH. reflexivity.
Qed.

Lemma writes_app : forall a b, writes (a ++ b) = (writes a ++ writes b)%list.
Proof.
  induction a as [| e a IH]; intro b; [reflexivity | ].
  destruct e; simpl; rewrite ?IH; reflexivity.
Qed.

(** The requests of a run of [c.Get(url)]: the one for [url]. *)
Lemma get_run_requested : forall inner url r,
  (forall e, inner e = true -> not_get e = true) ->
  get_run inner url r -> requested (fst r) = [url].
Proof.
  intros inner url r Hinner (tr & s' & resp & Hev & Hr).
  assert (Hn : requested tr = []).
  { apply requested_not_get. eapply forallb_weaken; eauto. }
  destruct Hr as [Hr | [e Hr]]; subst r; simpl.
  - rewrite Hn. reflexivity.
  - rewrite requested_app, Hn. reflexivity.
Qed.

Lemma print_entries_run : forall ws s,
  exists ws', print_entries ws s = (map (fun w => Stdout (weight_line w)) ws', Ret tt s) \/
              print_entries ws s = (map (fun w => Stdout (weight_line w)) ws', Panicked).
Proof.
  induction ws as [| entry rest IH]; intro s.
  - exists []. left. reflexivity.
  - simpl. destruct (le_lt_dec 5 (String.length (Time entry))) as [Hle | Hlt].
    + erewrite bind_Ret by (apply print_entry_ok; exact Hle).
      destruct (IH s) as [ws' [E | E]]; rewrite E; exists (entry :: ws'); auto.
    + exists []. right. unfold bind. rewrite print_entry_panics by exact Hlt.
      reflexivity.
Qed.

Lemma bind_Exited : forall A B (m : M A) (f : A -> M B) s tr c,
  m s = (tr, Exited c) -> bind m f s = (tr, Exited c).
Proof. intros A B m f s tr c H. unfold bind. rewrite H. reflexivity. Qed.

Lemma bind_Panicked : forall A B (m : M A) (f : A -> M B) s tr,
  m s = (tr, Panicked) -> bind m f s = (tr, Panicked).
Proof. intros A B m f s tr H. unfold bind. rewrite H. reflexivity. Qed.

Lemma bind_not_Ret : forall A B (m : M A) (f : A -> M B) s,
  (forall a s1, snd (m s) <> Ret a s1) -> fst (bind m f s) = fst (m s).
Proof.
  intros A B m f s H. unfold bind.
  destruct (m s) as [tr [a s1 | c | | ]]; try reflexivity.
  elim (H a s1). reflexivity.
Qed.

Lemma bind_inv_Ret : forall A B (m : M A) (f : A -> M B) s tr b s',
  bind m f s = (tr, Ret b s') ->
  exists a s1 tr1 tr2,
    m s = (tr1, Ret a s1) /\ f a s1 = (tr2, Ret b s') /\ tr = (tr1 ++ tr2)%list.
Proof.
  intros A B m f s tr b s' H. apply bind_inv in H.
  destruct H as [H | [[_ H] | [[c [_ H]] | [[_ H] | [_ H]]]]];
    [exact H | discriminate ..].
Qed.

(** ** The window loop: termination and the requested end dates *)

Lemma window_days : window = 30 * GoTime.Day.
Proof. reflexivity. Qed.

Lemma window_pos : 0 < window.
Proof. reflexivity. Qed.

Lemma time_Now_run : forall env s,
  time_Now env s = ([], Ret (env_now env (tick s)) (ticked s)).
Proof. reflexivity. Qed.

Lemma iterations_step : forall T e, e < T ->
  iterations T e = S (iterations T (e + window)).
Proof.
  intros T e H. unfold iterations.
  pose proof window_pos as Hw.
  replace (T - e + window - 1) with ((T - (e + window) + window - 1) + 1 * window)
    by ring.
  rewrite Z.div_add by lia.
  rewrite <- Z2Nat.inj_succ.
  - f_equal.
  - apply Z.div_pos; lia.
Qed.

Lemma iterations_done : forall T e, T <= e -> iterations T e = O.
Proof.
  intros T e H. unfold iterations. pose proof window_pos as Hw.
  destruct (Z_le_gt_dec 0 (T - e + window - 1)) as [Hp | Hn].
  - rewrite Z.div_small by lia. reflexivity.
  - assert ((T - e + window - 1) / window < 0)
      by (apply Z.div_lt_upper_bound; lia).
    lia.
Qed.

Lemma fail_with_run : forall A o e s,
  @fail_with A o e s = ([Error o e], Ret (inl e) s).
Proof. reflexivity. Qed.

Lemma log_fatal_run : forall A m s, @log_fatal A m s = ([Log m], Exited 1).
Proof. reflexivity. Qed.

Arguments weight_log_url : simpl never.
Arguments timeseries_url : simpl never.
Arguments weight_line : simpl never.

Section WindowLoop.
Variable env : Env.
Variable get : string -> M (option Response * option error).
Variable inner : Event -> bool.
Hypothesis Hget : forall url s, get_run inner url (get url s).
Hypothesis Hinner : forall e, inner e = true -> not_get e = true.

Lemma requested_lines : forall l,
  requested (map (fun w => Stdout (weight_line w)) l) = [].
Proof.
  induction l as [| w l IHl]; [reflexivity | cbn [map requested]; exact IHl].
Qed.

(** One step of the loop. *)
Lemma window_loop_step : forall fuel endDate weights s,
  window_loop env get fuel endDate weights s =
  if endDate <? env_now env (tick s) then
    match fuel with
    | O => ([], OutOfFuel)
    | S fuel' =>
        bind (window_body get (endDate + window) weights)
             (fun w => window_loop env get fuel' (endDate + window) w) (ticked s)
    end
  else ([], Ret tt (ticked s)).
Proof.
  intros fuel endDate weights s.
  destruct fuel; cbn [window_loop]; unfold bind at 1; rewrite time_Now_run;
    unfold GoTime.Before; cbn beta iota;
    destruct (endDate <? env_now env (tick s)); try reflexivity.
  assert (E : forall x : list Event * Outcome unit,
             (let (tr', o) := x in (([] ++ tr')%list, o)) = x)
    by (intros [tr' o]; reflexivity).
  apply E.
Qed.

(** A run of the body requests its window, once, and does not stop for
    lack of fuel. *)
Lemma window_body_requested : forall endDate weights s,
  requested (fst (window_body get endDate weights s)) = [weight_log_url endDate] /\
  snd (window_body get endDate weights s) <> OutOfFuel.
Proof.
  intros endDate weights s. unfold window_body. cbv zeta.
  pose proof (get_run_requested _ _ _ Hinner (Hget (weight_log_url endDate) s))
    as Hreq.
  destruct (Hget (weight_log_url endDate) s)
    as (trg & s2 & resp & _ & [Hr | [e Hr]]);
    rewrite Hr in Hreq; cbn [fst] in Hreq;
    erewrite bind_Ret by exact Hr; cbn [fst snd].
  - destruct resp as [resp | ]; unfold Decode.
    + destruct (decode_weights (RespBody resp) weights) as [e | ws].
      * erewrite bind_Ret by apply fail_with_run.
        cbn beta iota. rewrite log_fatal_run. cbn [fst snd].
        rewrite !requested_app, Hreq. split; [reflexivity | discriminate].
      * rewrite bind_ret_l.
        destruct (print_entries_run (Weights ws) s2) as [ws' [E | E]].
        -- erewrite bind_Ret by exact E. cbn [fst snd ret].
           rewrite !requested_app, Hreq, requested_lines.
           split; [reflexivity | discriminate].
        -- erewrite bind_Panicked by exact E. cbn [fst snd].
           rewrite !requested_app, Hreq, requested_lines.
           split; [reflexivity | discriminate].
    + cbn [fst snd bind panic]. rewrite requested_app, Hreq.
      split; [reflexivity | discriminate].
  - rewrite log_fatal_run. cbn [fst snd].
    rewrite requested_app, Hreq. split; [reflexivity | discriminate].
Qed.

Lemma window_loop_bounded : forall T,
  (forall k, env_now env k <= T) ->
  forall fuel endDate weights s,
    (iterations T endDate <= fuel)%nat ->
    snd (window_loop env get fuel endDate weights s) <> OutOfFuel /\
    (List.length (requested (fst (window_loop env get fuel endDate weights s)))
       <= iterations T endDate)%nat.
Proof.
  intros T HT. induction fuel as [| fuel IH]; intros endDate weights s Hfuel;
    rewrite window_loop_step;
    (destruct (endDate <? env_now env (tick s)) eqn:B;
     [ apply Z.ltb_lt in B; pose proof (HT (tick s)) as HTs;
       rewrite (iterations_step T endDate) in * by lia
     | cbn; split; [discriminate | apply Nat.le_0_l] ]).
  - exfalso. lia.
  - destruct (window_body_requested (endDate + window) weights (ticked s))
      as [Hreq Hoof].
    destruct (window_body get (endDate + window) weights (ticked s))
      as [trb [w s2 | c | | ]] eqn:Eb; cbn [fst snd] in *.
    + erewrite bind_Ret by exact Eb. cbn [fst snd].
      destruct (IH (endDate + window) w s2) as [I1 I2]; [lia | ].
      split; [exact I1 | ].
      rewrite requested_app, Hreq. cbn [app List.length]. lia.
    + erewrite bind_Exited by exact Eb. cbn [fst snd].
      rewrite Hreq. split; [discriminate | cbn; lia].
    + erewrite bind_Panicked by exact Eb. cbn [fst snd].
      rewrite Hreq. split; [discriminate | cbn; lia].
    + congruence.
Qed.

Lemma window_loop_returns : forall fuel endDate weights s tr s',
  window_loop env get fuel endDate weights s = (tr, Ret tt s') ->
  exists n : nat,
    requested tr =
      map (fun k => weight_log_url (endDate + Z.of_nat k * window)) (seq 1 n) /\
    (0 < tick s')%nat /\
    env_now env (pred (tick s')) <= endDate + Z.of_nat n * window /\
    (endDate < env_now env (tick s) -> (1 <= n)%nat).
Proof.
  induction fuel as [| fuel IH]; intros endDate weights s tr s' H;
    rewrite window_loop_step in H;
    destruct (endDate <? env_now env (tick s)) eqn:B;
    try discriminate;
    try (inversion H; subst; exists O; cbn [tick ticked pred seq map requested];
         apply Z.ltb_ge in B; repeat split; [lia | lia | lia]).
  apply Z.ltb_lt in B.
  apply bind_inv_Ret in H. destruct H as (w & s1 & tr1 & tr2 & Hb & Hl & ->).
  destruct (window_body_requested (endDate + window) weights (ticked s)) as [Hreq _].
  rewrite Hb in Hreq. cbn [fst] in Hreq.
  destruct (IH _ _ _ _ _ Hl) as (n & Hn & Htick & Hnow & _).
  exists (S n). rewrite requested_app, Hreq, Hn.
  repeat split; [ | exact Htick | lia | lia].
  cbn [seq map app]. apply (f_equal2 cons).
  - apply f_equal. lia.
  - rewrite <- (seq_shift n 1), map_map. apply map_ext. intro k.
    apply f_equal. lia.
Qed.

(** However the loop ends, what it has requested are the first windows, in
    order. *)
Lemma window_loop_requests : forall fuel endDate weights s,
  exists n : nat,
    requested (fst (window_loop env get fuel endDate weights s)) =
      map (fun k => weight_log_url (endDate + Z.of_nat k * window)) (seq 1 n).
Proof.
  induction fuel as [| fuel IH]; intros endDate weights s;
    rewrite window_loop_step;
    destruct (endDate <? env_now env (tick s));
    try (exists O; reflexivity).
  destruct (window_body_requested (endDate + window) weights (ticked s)) as [Hreq _].
  destruct (window_body get (endDate + window) weights (ticked s))
    as [trb [w s1 | c | | ]] eqn:Hb; cbn [fst] in Hreq.
  - erewrite bind_Ret by exact Hb. cbn [fst].
    destruct (IH (endDate + window) w s1) as (n & Hn).
    exists (S n). rewrite requested_app, Hreq, Hn.
    cbn [seq map app]. apply (f_equal2 cons).
    + apply f_equal. lia.
    + rewrite <- (seq_shift n 1), map_map. apply map_ext. intro k.
      apply f_equal. lia.
  - exists 1%nat. unfold bind. rewrite Hb. cbn [fst seq map]. rewrite Hreq.
    replace (Z.of_nat 1 * window) with window by lia. reflexivity.
  - exists 1%nat. unfold bind. rewrite Hb. cbn [fst seq map]. rewrite Hreq.
    replace (Z.of_nat 1 * window) with window by lia. reflexivity.
  - exists 1%nat. unfold bind. rewrite Hb. cbn [fst seq map]. rewrite Hreq.
    replace (Z.of_nat 1 * window) with window by lia. reflexivity.
Qed.

End WindowLoop.

Lemma day_of_midnight : forall d, GoTime.day_of (GoTime.midnight d) = d.
Proof.
  intro d. unfold GoTime.day_of, GoTime.midnight. apply Z.div_mul. discriminate.
Qed.

Lemma day_of_mono : forall t u, t <= u -> GoTime.day_of t <= GoTime.day_of u.
Proof.
  intros t u H. unfold GoTime.day_of. apply Z.div_le_mono; [reflexivity | exact H].
Qed.

Lemma midnight_day_of : forall t, GoTime.midnight (GoTime.day_of t) <= t.
Proof.
  intro t. unfold GoTime.day_of, GoTime.midnight.
  rewrite Z.mul_comm. apply Z.mul_div_le. reflexivity.
Qed.

(** The end date of the [k]-th window, counted from the day [d0] of the
    first entry, is the midnight of day [d0 - 1 + 30 k]. *)
Lemma end_date_midnight : forall d0 k,
  GoTime.Add (GoTime.midnight d0) (-24 * GoTime.Hour) + k * window =
  GoTime.midnight (d0 - 1 + 30 * k).
Proof.
  intros d0 k. unfold GoTime.Add, GoTime.midnight, window, GoTime.Day.
  ring.
Qed.

(** C5. The window loop terminates for every starting end date and every
    bound [T] on the current time: with [ceil((T - endDate) / 30 days)]
    units of fuel or more it never runs out of fuel, and it issues at most
    that many GET requests. *)
Theorem window_loop_terminates : forall env v (T : GoTime.Time) endDate weights s fuel,
  (forall k, env_now env k <= T) ->
  (Z.to_nat ((T - endDate + 30 * 24 * GoTime.Hour - 1) / (30 * 24 * GoTime.Hour))
     <= fuel)%nat ->
  snd (window_loop env (variant_Get env v) fuel endDate weights s) <> OutOfFuel /\
  (List.length
     (requested (fst (window_loop env (variant_Get env v) fuel endDate weights s)))
   <= Z.to_nat ((T - endDate + 30 * 24 * GoTime.Hour - 1) / (30 * 24 * GoTime.Hour)))%nat.
Proof.
  intros env v T endDate weights s fuel HT Hfuel.
  apply (window_loop_bounded env (variant_Get env v) source_event
           (variant_Get_run env v) source_event_not_get T HT).
  exact Hfuel.
Qed.

Lemma window_loop_terminates_witness :
  snd (window_loop Sample.env1 (variant_Get Sample.env1 VCacher) 2
         (GoTime.midnight 15915) {| Weights := [] |}
         Sample.ready) <> OutOfFuel /\
  (List.length
     (requested (fst (window_loop Sample.env1 (variant_Get Sample.env1 VCacher) 2
         (GoTime.midnight 15915) {| Weights := [] |}
         Sample.ready)))
   <= 2)%nat.
Proof.
  apply (window_loop_terminates Sample.env1 VCacher Sample.noon
           (GoTime.midnight 15915) {| Weights := [] |}
           Sample.ready 2).
  - intro k. apply Z.le_refl.
  - vm_compute. apply le_n.
Defined.

Lemma end_date_day : forall d0 k,
  GoTime.day_of (end_date d0 k) = d0 - 1 + 30 * Z.of_nat k.
Proof.
  intros d0 k. unfold end_date. fold window.
  rewrite end_date_midnight. apply day_of_midnight.
Qed.

(** C1, as the code has it. For a non-empty time-series reply whose first
    date parses, the tail of [main] requests the body-weight log with the
    end dates [start + 30 days], [start + 2 * 30 days], ..., where [start]
    is the first entry's date minus 24 hours, however the run ends; in a run
    that ends normally, every calendar day from the day of the first entry
    to the day of the current time (the reading of the clock on which the
    loop stopped) lies in one of the requested windows. *)
Theorem window_requests_cover : forall env v fuel resp first rest d0 s,
  decode_timeseries (RespBody resp) = inr {| Entries := first :: rest |} ->
  GoTime.parse_day (DateTime first) = Some d0 ->
  (exists n : nat,
     requested (fst (after_tries env (variant_Get env v) fuel (Some resp) s)) =
       map (fun k => weight_log_url (end_date d0 k)) (seq 1 n)) /\
  forall s',
    snd (after_tries env (variant_Get env v) fuel (Some resp) s) = Ret tt s' ->
    windows_cover d0 d0 (GoTime.day_of (env_now env (pred (tick s'))))
      (fst (after_tries env (variant_Get env v) fuel (Some resp) s)).
Proof.
  intros env v fuel resp first rest d0 s Hdec Hparse.
  assert (Hrun : after_tries env (variant_Get env v) fuel (Some resp) s =
                 window_loop env (variant_Get env v) fuel
                   (GoTime.Add (GoTime.midnight d0) (-24 * GoTime.Hour))
                   {| Weights := [] |} s).
  { unfold after_tries, Decode. rewrite Hdec, bind_ret_l. cbn [Entries].
    unfold GoTime.Parse. rewrite Hparse. reflexivity. }
  rewrite Hrun. split.
  - apply (window_loop_requests env (variant_Get env v) source_event
             (variant_Get_run env v) source_event_not_get).
  - intros s' Hret.
    destruct (window_loop env (variant_Get env v) fuel
                (GoTime.Add (GoTime.midnight d0) (-24 * GoTime.Hour))
                {| Weights := [] |} s) as [tr o] eqn:Hloop.
    cbn [fst snd] in *. subst o.
    destruct (window_loop_returns env (variant_Get env v) source_event
                (variant_Get_run env v) source_event_not_get _ _ _ _ _ _ Hloop)
      as (n & Hreq & _ & Hnow & _).
    exists n. split; [exact Hreq | ].
    intros day [Hlo Hhi].
    assert (Hn : GoTime.day_of (env_now env (pred (tick s'))) <=
                 d0 - 1 + 30 * Z.of_nat n).
    { rewrite <- (end_date_day d0 n). apply day_of_mono. exact Hnow. }
    exists (Z.to_nat ((day - d0) / 30 + 1)).
    pose proof (Z.div_mod (day - d0) 30) as Hdm.
    pose proof (Z.mod_pos_bound (day - d0) 30) as Hmb.
    assert (Hq : 0 <= (day - d0) / 30) by (apply Z.div_pos; lia).
    unfold window_covers. rewrite end_date_day, Z2Nat.id by lia.
    split; lia.
Qed.

Lemma window_requests_cover_witness :
  exists s',
    snd (after_tries Sample.env1 (variant_Get Sample.env1 VCacher) 5
           (Some (Sample.ok (Sample.body_of [Sample.first_entry]
                                            [Sample.entry1; Sample.entry2])))
           Sample.ready) = Ret tt s' /\
    requested
      (fst (after_tries Sample.env1 (variant_Get Sample.env1 VCacher) 5
              (Some (Sample.ok (Sample.body_of [Sample.first_entry]
                                               [Sample.entry1; Sample.entry2])))
              Sample.ready)) =
      [weight_log_url (end_date 15916 1); weight_log_url (end_date 15916 2)] /\
    windows_cover 15916 15916 (GoTime.day_of Sample.noon)
      (fst (after_tries Sample.env1 (variant_Get Sample.env1 VCacher) 5
              (Some (Sample.ok (Sample.body_of [Sample.first_entry]
                                               [Sample.entry1; Sample.entry2])))
              Sample.ready)).
Proof.
  eexists. split; [vm_compute; reflexivity | ]. split; [vm_compute; reflexivity | ].
  refine (proj2 (window_requests_cover Sample.env1 VCacher 5
                   (Sample.ok (Sample.body_of [Sample.first_entry]
                                              [Sample.entry1; Sample.entry2]))
                   Sample.first_entry [] 15916 Sample.ready eq_refl eq_refl) _ _).
  vm_compute. reflexivity.
Defined.

(** C1 as stated fails.  The first entry is of 2013-07-30 (day 15916) and
    the clock stands at noon of 2013-09-15.  In a run in which nothing fails
    the windows end on 2013-08-28 and 2013-09-27: the day before the first
    entry is in neither.  In a run whose first window request fails the
    program exits, and the days after 2013-08-28 are in no requested
    window. *)
Lemma day_before_first_entry_not_covered :
  ((exists s',
      snd (after_tries Sample.env1 (variant_Get Sample.env1 VCacher) 5
             (Some (Sample.ok (Sample.body_of [Sample.first_entry]
                                              [Sample.entry1; Sample.entry2])))
             Sample.ready) = Ret tt s') /\
   ~ windows_cover 15916 (15916 - 1) (GoTime.day_of Sample.noon)
       (fst (after_tries Sample.env1 (variant_Get Sample.env1 VCacher) 5
               (Some (Sample.ok (Sample.body_of [Sample.first_entry]
                                                [Sample.entry1; Sample.entry2])))
               Sample.ready))) /\
  (snd (after_tries Scenario.env_offline (variant_Get Scenario.env_offline VCacher) 5
          (Some (Sample.ok (Sample.body_of [Sample.first_entry] [])))
          Sample.ready) = Exited 1 /\
   ~ windows_cover 15916 15916 (GoTime.day_of Sample.noon)
       (fst (after_tries Scenario.env_offline
               (variant_Get Scenario.env_offline VCacher) 5
               (Some (Sample.ok (Sample.body_of [Sample.first_entry] [])))
               Sample.ready))).
Proof.
  split; split.
  - eexists. vm_compute. reflexivity.
  - intros (n & Hreq & Hcov).
    apply (f_equal (@List.length string)) in Hreq.
    rewrite length_map, length_seq in Hreq. vm_compute in Hreq. subst n.
    destruct (Hcov 15915) as (k & Hk & Hw); [vm_compute; split; discriminate | ].
    unfold window_covers in Hw. rewrite end_date_day in Hw. lia.
  - vm_compute. reflexivity.
  - intros (n & Hreq & Hcov).
    apply (f_equal (@List.length string)) in Hreq.
    rewrite length_map, length_seq in Hreq. vm_compute in Hreq. subst n.
    destruct (Hcov 15963) as (k & Hk & Hw); [vm_compute; split; discriminate | ].
    unfold window_covers in Hw. rewrite end_date_day in Hw. lia.
Qed.


(** ** The caching transport *)

Lemma token_errors_app : forall a b,
  token_errors (a ++ b) = (token_errors a ++ token_errors b)%list.
Proof.
  induction a as [| e a IH]; intro b; [reflexivity | ].
  destruct e as [t | m | o | o e | c]; simpl; try apply IH.
  destruct o; simpl; try apply IH. rewrite IH. reflexivity.
Qed.

(** Invert a run of [bind] that returns. *)
Ltac inv_bind H :=
  let a := fresh "a" in
  let s1 := fresh "s" in
  let tr1 := fresh "tr" in
  let tr2 := fresh "tr" in
  let H1 := fresh "Hrun" in
  let H2 := fresh "Hrest" in
  apply bind_inv_Ret in H;
  destruct H as (a & s1 & tr1 & tr2 & H1 & H2 & ->).

Lemma bind_get_state : forall A (f : State -> M A) s,
  bind get_state f s = f s s.
Proof. intros. unfold bind, get_state. destruct (f s s); reflexivity. Qed.

Lemma bind_next_tick : forall A (f : nat -> M A) s,
  bind next_tick f s = f (tick s) (ticked s).
Proof.
  intros. unfold bind, next_tick. fold (ticked s).
  destruct (f (tick s) (ticked s)); reflexivity.
Qed.

Section CachingTransport.
Variable env : Env.

Lemma Valid_inv : forall t s tr o,
  Valid env t s = (tr, o) ->
  tr = [] /\ exists b s1, o = Ret b s1 /\ (s1 = s \/ s1 = ticked s).
Proof.
  intros t s tr o H. unfold Valid in H.
  destruct t as [t | ]; [ | inversion H; eauto 6].
  destruct (AccessToken t =? "")%string; [inversion H; eauto 6 | ].
  destruct (GoTime.IsZero (Expiry t)); [inversion H; eauto 6 | ].
  unfold bind in H. rewrite time_Now_run in H. inversion H; eauto 6.
Qed.

Lemma ReadFile_inv : forall s tr r s1,
  ReadFile env s = (tr, Ret r s1) ->
  s1 = ticked s /\ writes tr = [] /\ token_errors tr = [] /\
  match r with
  | inr c => cache_file s = Some c /\ tr = []
  | inl e => (IsNotExist e = true <-> cache_file s = None) /\
             tr = [Error OpReadFile e]
  end.
Proof.
  intros s tr r s1 H. unfold ReadFile in H.
  rewrite bind_next_tick, bind_get_state in H. cbn [cache_file ticked] in H.
  destruct (cache_file s) as [c | ] eqn:Ec.
  - destruct (env_read_error env (tick s)) as [e | ].
    + rewrite fail_with_run in H. inversion H; subst.
      repeat split; try reflexivity; simpl; intro; discriminate.
    + inversion H; subst. repeat split; reflexivity.
  - rewrite fail_with_run in H. inversion H; subst.
    repeat split; reflexivity.
Qed.

Lemma tokenFromFile_inv : forall s tr r s1,
  Cacher.tokenFromFile env s = (tr, Ret r s1) ->
  s1 = ticked s /\ writes tr = [] /\ token_errors tr = [] /\
  match r with
  | inr t => cache_file s = Some (Encoded t) /\ tr = []
  | inl e => IsNotExist e = true ->
             cache_file s = None /\ tr = [Error OpReadFile e]
  end.
Proof.
  intros s tr r s1 H. unfold Cacher.tokenFromFile in H. inv_bind H.
  apply ReadFile_inv in Hrun. destruct Hrun as (-> & Hw & Ht & Hr).
  destruct a as [e | c].
  - inversion Hrest; subst. rewrite app_nil_r.
    refine (conj eq_refl (conj Hw (conj Ht _))).
    intro Hn. destruct Hr as [Hr ->]. split; [ | reflexivity].
    apply Hr. exact Hn.
  - destruct Hr as [Hc ->]. destruct c as [t | msg]; simpl in Hrest.
    + inversion Hrest; subst. repeat split; auto.
    + rewrite fail_with_run in Hrest. inversion Hrest; subst.
      refine (conj eq_refl (conj eq_refl (conj eq_refl _))).
      intro Hn. discriminate Hn.
Qed.

Lemma refresher_inv : forall s tr r s1,
  Cacher.refresher_Token env s = (tr, Ret r s1) ->
  cache_file s1 = cache_file s /\ mux_registered s1 = mux_registered s /\
  writes tr = [] /\ token_errors tr = [] /\ requested tr = [] /\
  authorizations tr = O.
Proof.
  intros s tr r s1 H. unfold Cacher.refresher_Token in H.
  rewrite bind_get_state in H.
  destruct (src_refresh s =? "")%string.
  - rewrite fail_with_run in H. inversion H; subst. repeat split.
  - rewrite bind_next_tick in H.
    destruct (env_refresh env (tick s)) as [e | tk].
    + rewrite fail_with_run in H. inversion H; subst. repeat split.
    + inversion H; subst. repeat split.
Qed.

(** A call of the token source of the caching variant: it leaves the cache
    file alone; a token it returns is the one it holds afterwards; an error
    it returns is the last event of the call. *)
Lemma Source_Token_inv : forall s tr r s1,
  Cacher.Source_Token env s = (tr, Ret r s1) ->
  cache_file s1 = cache_file s /\ mux_registered s1 = mux_registered s /\
  writes tr = [] /\ requested tr = [] /\ authorizations tr = O /\
  match r with
  | inr t => src_token s1 = Some t /\ token_errors tr = []
  | inl e => token_errors tr = [e]
  end.
Proof.
  intros s tr r s1 H. unfold Cacher.Source_Token, reuse_Token in H.
  rewrite bind_get_state in H. inv_bind H.
  apply Valid_inv in Hrun. destruct Hrun as (-> & b & s2 & E & Hs).
  inversion E; subst a s2. clear E. cbn [app] in *.
  assert (Hslow : forall tr r s1,
            (r0 <- Cacher.refresher_Token env ;;
             match r0 with
             | inl e => fail_with OpToken e
             | inr t => set_src_token (Some t) ;;; ret (inr t)
             end) s0 = (tr, Ret r s1) ->
            cache_file s1 = cache_file s0 /\ mux_registered s1 = mux_registered s0 /\
            writes tr = [] /\ requested tr = [] /\ authorizations tr = O /\
            match r with
            | inr t => src_token s1 = Some t /\ token_errors tr = []
            | inl e => token_errors tr = [e]
            end).
  { clear. intros tr r s1 H. inv_bind H.
    apply refresher_inv in Hrun. destruct Hrun as (Hc & Hm & Hw & Ht & Hq & Ha).
    destruct a as [e | t].
    - rewrite fail_with_run in Hrest. inversion Hrest; subst.
      rewrite writes_app, token_errors_app, requested_app, authorizations_app.
      rewrite Hw, Ht, Hq, Ha. repeat split; auto.
    - inversion Hrest; subst. rewrite app_nil_r. repeat split; auto. }
  assert (Hsame : cache_file s0 = cache_file s /\
                  mux_registered s0 = mux_registered s /\
                  src_token s0 = src_token s).
  { destruct Hs as [-> | ->]; repeat split. }
  destruct Hsame as (Hc0 & Hm0 & Ht0).
  destruct b; [destruct (src_token s) as [t | ] eqn:Et | ].
  - inversion Hrest; subst. repeat split; auto; congruence.
  - apply Hslow in Hrest. rewrite <- Hc0, <- Hm0. exact Hrest.
  - apply Hslow in Hrest. rewrite <- Hc0, <- Hm0. exact Hrest.
Qed.

Lemma oauth2_RoundTrip_inv : forall url s tr r s1,
  oauth2_RoundTrip env (Cacher.Source_Token env) url s = (tr, Ret r s1) ->
  cache_file s1 = cache_file s /\ mux_registered s1 = mux_registered s /\
  writes tr = [] /\
  match r with
  | inr _ => token_errors tr = []
  | inl _ => True
  end.
Proof.
  intros url s tr r s1 H. unfold oauth2_RoundTrip in H. inv_bind H.
  apply Source_Token_inv in Hrun.
  destruct Hrun as (Hc & Hm & Hw & _ & _ & Ht).
  destruct a as [e | t].
  - inversion Hrest; subst. rewrite app_nil_r. auto.
  - destruct Ht as [_ Ht]. rewrite bind_emit, bind_next_tick in Hrest.
    destruct (env_net env (tick s0) url) as [e | resp].
    + rewrite fail_with_run in Hrest. inversion Hrest; subst.
      rewrite writes_app, Hw. auto.
    + inversion Hrest; subst.
      rewrite writes_app, token_errors_app, Hw, Ht. auto.
Qed.

Lemma json_Marshal_inv : forall t s tr r s1,
  json_Marshal t s = (tr, Ret r s1) ->
  s1 = s /\ writes tr = [] /\ token_errors tr = [] /\
  (forall b, r = inr b -> b = Encoded t /\ tr = []).
Proof.
  intros t s tr r s1 H. unfold json_Marshal in H. cbv zeta in H.
  destruct ((0 <=? GoTime.Year (Expiry t)) && (GoTime.Year (Expiry t) <? 10000)).
  - inversion H; subst. repeat split; auto; congruence.
  - rewrite fail_with_run in H. inversion H; subst.
    repeat split; auto; discriminate.
Qed.

Lemma WriteFile_inv : forall c s tr r s1,
  WriteFile env c s = (tr, Ret r s1) ->
  src_token s1 = src_token s /\ mux_registered s1 = mux_registered s /\
  token_errors tr = [] /\
  match r with
  | None => tr = [Wrote c] /\ cache_file s1 = Some c
  | Some e =>
      tr = [Error OpWriteFile e] /\
      (cache_file s1 = cache_file s \/
       (exists m, cache_file s1 = Some (Malformed m)) \/
       cache_file s1 = Some c)
  end.
Proof.
  intros c s tr r s1 H. unfold WriteFile in H. rewrite bind_next_tick in H.
  destruct (env_write_error env (tick s)) as [e | ].
  - destruct (env_write_left env (tick s)) as [ | m | ];
      unfold bind, set_cache_file, emit, ret in H; inversion H; subst;
      cbn [src_token mux_registered cache_file ticked]; repeat split; auto.
    right. left. exists m. reflexivity.
  - unfold bind, set_cache_file, emit, ret in H. inversion H; subst. repeat split.
Qed.

(** A round trip that succeeds although the token source fails after it,
    or that succeeds with a new token, which it caches when [must_cache]. *)
Lemma RoundTrip_with_ok : forall cached url s tr resp s',
  Cacher.RoundTrip_with env cached url s = (tr, Ret (inr resp) s') ->
  (exists e, token_errors tr = [e] /\ writes tr = [] /\
             cache_file s' = cache_file s) \/
  (token_errors tr = [] /\
   exists newTok,
     src_token s' = Some newTok /\
     ((Cacher.must_cache cached newTok = true /\
       writes tr = [Encoded newTok] /\
       cache_file s' = Some (Encoded newTok)) \/
      (Cacher.must_cache cached newTok = false /\
       writes tr = [] /\ cache_file s' = cache_file s))).
Proof.
  intros cached url s tr resp s' H. unfold Cacher.RoundTrip_with in H.
  inv_bind H. apply Source_Token_inv in Hrun.
  destruct Hrun as (Hc1 & _ & Hw1 & _ & _ & Ht1).
  destruct a as [e1 | t1]; [discriminate | ]. destruct Ht1 as [_ Ht1].
  inv_bind Hrest. apply oauth2_RoundTrip_inv in Hrun.
  destruct Hrun as (Hc2 & _ & Hw2 & Ht2).
  destruct a as [e2 | resp2]; [discriminate | ].
  inv_bind Hrest0. apply Source_Token_inv in Hrun.
  destruct Hrun as (Hc3 & _ & Hw3 & _ & _ & Ht3).
  rewrite !writes_app, !token_errors_app, Hw1, Hw2, Hw3, Ht1, Ht2.
  cbn [app].
  destruct a as [e3 | newTok].
  - inversion Hrest; subst. left. exists e3.
    rewrite app_nil_r, Ht3. repeat split; congruence.
  - destruct Ht3 as [Hs3 Ht3]. rewrite Ht3. cbn [app]. right.
    destruct (Cacher.must_cache cached newTok) eqn:Em.
    + inv_bind Hrest. apply json_Marshal_inv in Hrun.
      destruct Hrun as (-> & _ & _ & Hb).
      destruct a as [e | bytes]; [discriminate | ].
      destruct (Hb bytes eq_refl) as [-> ->].
      inv_bind Hrest0. apply WriteFile_inv in Hrun.
      destruct Hrun as (Hs4 & _ & Ht4 & Hr4).
      destruct a as [e | ]; [discriminate | ].
      destruct Hr4 as [-> Hc4]. inversion Hrest; subst.
      split; [reflexivity | ]. exists newTok. split; [congruence | ].
      left. repeat split; auto.
    + inversion Hrest; subst. split; [reflexivity | ].
      exists newTok. split; [exact Hs3 | ]. right.
      repeat split; auto; congruence.
Qed.

Lemma ReadFile_error : forall s tr e s1,
  ReadFile env s = (tr, Ret (inl e) s1) -> e = errNotExist \/ foreign e.
Proof.
  intros s tr e s1 H. unfold ReadFile in H.
  rewrite bind_next_tick, bind_get_state in H. cbn [cache_file ticked] in H.
  destruct (cache_file s) as [c | ].
  - destruct (env_read_error env (tick s)) as [msg | ].
    + rewrite fail_with_run in H. inversion H. right. eexists. reflexivity.
    + inversion H.
  - rewrite fail_with_run in H. inversion H. left. reflexivity.
Qed.

Lemma Source_Token_error : forall s tr e s1,
  Cacher.Source_Token env s = (tr, Ret (inl e) s1) -> foreign e.
Proof.
  intros s tr e s1 H. unfold Cacher.Source_Token, reuse_Token in H.
  rewrite bind_get_state in H. inv_bind H.
  apply Valid_inv in Hrun. destruct Hrun as (-> & b & s2 & E & Hs).
  inversion E; subst a s2. clear E.
  assert (Hslow : forall tr,
            (r0 <- Cacher.refresher_Token env ;;
             match r0 with
             | inl e => fail_with OpToken e
             | inr t => set_src_token (Some t) ;;; ret (inr t)
             end) s0 = (tr, Ret (inl e) s1) -> foreign e).
  { clear. intros tr H. inv_bind H. destruct a as [e0 | t].
    - rewrite fail_with_run in Hrest. inversion Hrest; subst.
      unfold Cacher.refresher_Token in Hrun. rewrite bind_get_state in Hrun.
      destruct (src_refresh s0 =? "")%string.
      + rewrite fail_with_run in Hrun. inversion Hrun. eexists. reflexivity.
      + rewrite bind_next_tick in Hrun.
        destruct (env_refresh env (tick s0)) as [msg | tk].
        * rewrite fail_with_run in Hrun. inversion Hrun. eexists. reflexivity.
        * inversion Hrun.
    - inversion Hrest. }
  destruct b; [destruct (src_token s) | ]; eauto. discriminate.
Qed.

Lemma oauth2_RoundTrip_error : forall url s tr e s1,
  oauth2_RoundTrip env (Cacher.Source_Token env) url s = (tr, Ret (inl e) s1) ->
  foreign e.
Proof.
  intros url s tr e s1 H. unfold oauth2_RoundTrip in H. inv_bind H.
  destruct a as [e3 | t3].
  - inversion Hrest; subst. eapply Source_Token_error; eauto.
  - rewrite bind_emit, bind_next_tick in Hrest.
    destruct (env_net env (tick s0) url) as [msg | resp].
    + rewrite fail_with_run in Hrest. inversion Hrest. eexists. reflexivity.
    + inversion Hrest.
Qed.

Lemma json_Marshal_error : forall t s tr e s1,
  json_Marshal t s = (tr, Ret (inl e) s1) -> foreign e.
Proof.
  intros t s tr e s1 H. unfold json_Marshal in H. cbv zeta in H.
  destruct ((0 <=? GoTime.Year (Expiry t)) && (GoTime.Year (Expiry t) <? 10000)).
  - inversion H.
  - rewrite fail_with_run in H. inversion H. eexists. reflexivity.
Qed.

Lemma WriteFile_error : forall c s tr e s1,
  WriteFile env c s = (tr, Ret (Some e) s1) -> foreign e.
Proof.
  intros c s tr e s1 H. unfold WriteFile in H. rewrite bind_next_tick in H.
  destruct (env_write_error env (tick s)) as [msg | ].
  - destruct (env_write_left env (tick s));
      unfold bind, set_cache_file, emit, ret in H; inversion H;
      eexists; reflexivity.
  - unfold bind, set_cache_file, emit, ret in H. inversion H.
Qed.

(** [RoundTrip] returns [errExpiredToken] only when the token source has
    failed; every other error it returns comes from outside. *)
Lemma RoundTrip_with_error : forall cached url s tr e s',
  Cacher.RoundTrip_with env cached url s = (tr, Ret (inl e) s') ->
  (e = errExpiredToken /\ token_errors tr <> []) \/ foreign e.
Proof.
  intros cached url s tr e s' H. unfold Cacher.RoundTrip_with in H.
  inv_bind H. pose proof (Source_Token_inv _ _ _ _ Hrun) as (_ & _ & _ & _ & _ & Ht1).
  destruct a as [e1 | t1].
  { inversion Hrest; subst. left. split; [reflexivity | ].
    rewrite app_nil_r, Ht1. discriminate. }
  inv_bind Hrest. destruct a as [e2 | resp2].
  { inversion Hrest0; subst. right. eapply oauth2_RoundTrip_error; eauto. }
  inv_bind Hrest0. destruct a as [e3 | newTok]; [discriminate | ].
  destruct (Cacher.must_cache cached newTok); [ | discriminate].
  inv_bind Hrest. destruct a as [e4 | bytes].
  { inversion Hrest0; subst. right. eapply json_Marshal_error; eauto. }
  inv_bind Hrest0. destruct a as [e5 | ]; [ | discriminate].
  inversion Hrest; subst. right. eapply WriteFile_error; eauto.
Qed.

Lemma RoundTrip_error : forall url s tr e s',
  Cacher.RoundTrip env url s = (tr, Ret (inl e) s') ->
  (e = errExpiredToken /\ token_errors tr <> []) \/ foreign e.
Proof.
  intros url s tr e s' H. unfold Cacher.RoundTrip in H. inv_bind H.
  assert (Hfile : forall e0, a = inl e0 -> IsNotExist e0 = false -> foreign e0).
  { intros e0 -> Hn. unfold Cacher.tokenFromFile in Hrun. inv_bind Hrun.
    destruct a as [e1 | c].
    - inversion Hrest0; subst. apply ReadFile_error in Hrun0.
      destruct Hrun0 as [-> | Hf]; [discriminate Hn | exact Hf].
    - destruct c as [t | msg]; cbn [json_Unmarshal] in Hrest0.
      + inversion Hrest0.
      + rewrite fail_with_run in Hrest0. inversion Hrest0. eexists. reflexivity. }
  destruct a as [e0 | cachedToken].
  - destruct (IsNotExist e0) eqn:En.
    + apply RoundTrip_with_error in Hrest.
      destruct Hrest as [[-> Ht] | Hf]; [left | right; exact Hf].
      split; [reflexivity | ]. rewrite token_errors_app. intro Hnil.
      apply app_eq_nil in Hnil. destruct Hnil as [_ Hnil]. exact (Ht Hnil).
    + inversion Hrest; subst. right. apply Hfile; auto.
  - apply RoundTrip_with_error in Hrest.
    destruct Hrest as [[-> Ht] | Hf]; [left | right; exact Hf].
    split; [reflexivity | ]. rewrite token_errors_app. intro Hnil.
    apply app_eq_nil in Hnil. destruct Hnil as [_ Hnil]. exact (Ht Hnil).
Qed.

End CachingTransport.

(** C8. A successful [RoundTrip] whose token source yields a new token
    [newTok] writes the cache file if and only if there was no cached token
    or the access token or the refresh token of [newTok] differs from the
    cached one; what it writes is [newTok]; when both match, the file is left
    unchanged. *)
Theorem cache_written_iff : forall env url s tr resp s',
  Cacher.RoundTrip env url s = (tr, Ret (inr resp) s') ->
  token_errors tr = [] ->
  exists newTok,
    src_token s' = Some newTok /\
    (writes tr <> [] <->
       (cache_file s = None \/
        exists cachedToken,
          cache_file s = Some (Encoded cachedToken) /\
          (AccessToken cachedToken <> AccessToken newTok \/
           RefreshToken cachedToken <> RefreshToken newTok))) /\
    (writes tr <> [] ->
       writes tr = [Encoded newTok] /\ cache_file s' = Some (Encoded newTok)) /\
    (writes tr = [] -> cache_file s' = cache_file s).
Proof.
  intros env url s tr resp s' H Hok. unfold Cacher.RoundTrip in H. inv_bind H.
  apply tokenFromFile_inv in Hrun. destruct Hrun as (-> & Hw & Ht & Hr).
  rewrite token_errors_app, Ht in Hok. cbn [app] in Hok.
  rewrite writes_app, Hw. cbn [app].
  assert (Hcase : exists cached,
             Cacher.RoundTrip_with env cached url (ticked s) =
               (tr1, Ret (inr resp) s') /\
             match cached with
             | None => cache_file s = None
             | Some c => cache_file s = Some (Encoded c)
             end).
  { destruct a as [e | c].
    - destruct (IsNotExist e) eqn:En; [ | discriminate].
      exists None. split; [exact Hrest | apply Hr; reflexivity].
    - exists (Some c). split; [exact Hrest | apply Hr]. }
  destruct Hcase as (cached & Hrt & Hfile).
  apply RoundTrip_with_ok in Hrt.
  destruct Hrt as [(e & He & _) | (_ & newTok & Hs & Hcache)]; [congruence | ].
  exists newTok. split; [exact Hs | ].
  cbn [cache_file ticked] in Hcache.
  destruct Hcache as [(Hm & Hwr & Hc) | (Hm & Hwr & Hc)]; rewrite Hwr.
  - split; [ | split; [auto | discriminate]].
    split; [intros _ | discriminate].
    destruct cached as [c | ]; [right | left; exact Hfile].
    exists c. split; [exact Hfile | ].
    unfold Cacher.must_cache in Hm. apply orb_prop in Hm.
    destruct Hm as [Hm | Hm]; apply negb_true_iff, String.eqb_neq in Hm; auto.
  - split; [ | split; [congruence | auto]].
    split; [congruence | intros [Hnone | (c & Hsome & Hdiff)]; exfalso].
    + destruct cached as [c | ]; [congruence | discriminate].
    + destruct cached as [c' | ]; [ | discriminate].
      assert (c' = c) by congruence. subst c'.
      unfold Cacher.must_cache in Hm. apply orb_false_elim in Hm.
      destruct Hm as [Ha Hr']. apply negb_false_iff, String.eqb_eq in Ha, Hr'.
      destruct Hdiff; congruence.
Qed.

Lemma cache_written_iff_witness :
  exists newTok,
    src_token
      {| tick := 3; cache_file := Some (Encoded Sample.tok);
         mux_registered := false; src_token := Some Sample.tok;
         src_refresh := "rt" |} = Some newTok /\
    (writes [Error OpReadFile errNotExist; Call OpNet; Wrote (Encoded Sample.tok)]
       <> [] <->
       (cache_file (initial_state None) = None \/
        exists cachedToken,
          cache_file (initial_state None) = Some (Encoded cachedToken) /\
          (AccessToken cachedToken <> AccessToken newTok \/
           RefreshToken cachedToken <> RefreshToken newTok))) /\
    (writes [Error OpReadFile errNotExist; Call OpNet; Wrote (Encoded Sample.tok)]
       <> [] ->
       writes [Error OpReadFile errNotExist; Call OpNet; Wrote (Encoded Sample.tok)]
         = [Encoded newTok] /\
       cache_file
         {| tick := 3; cache_file := Some (Encoded Sample.tok);
            mux_registered := false; src_token := Some Sample.tok;
            src_refresh := "rt" |} = Some (Encoded newTok)) /\
    (writes [Error OpReadFile errNotExist; Call OpNet; Wrote (Encoded Sample.tok)]
       = [] ->
     cache_file
       {| tick := 3; cache_file := Some (Encoded Sample.tok);
          mux_registered := false; src_token := Some Sample.tok;
          src_refresh := "rt" |} = cache_file (initial_state None)).
Proof.
  apply (cache_written_iff Sample.env1 timeseries_url
           {| tick := 0; cache_file := None; mux_registered := false;
              src_token := Some Sample.tok; src_refresh := "rt" |}
           [Error OpReadFile errNotExist; Call OpNet; Wrote (Encoded Sample.tok)]
           (Sample.ok (Sample.body_of [Sample.first_entry]
                                      [Sample.entry1; Sample.entry2]))).
  - vm_compute. reflexivity.
  - reflexivity.
Defined.

(** ** The token cache at startup *)

Lemma transport_no_authorization : forall tr,
  forallb transport_event tr = true -> authorizations tr = O.
Proof.
  induction tr as [| e tr IH]; intro H; [reflexivity | ].
  simpl in H. apply andb_prop in H. destruct H as [H1 H2].
  destruct e as [t | m | o | o e | c]; simpl in *; try discriminate; auto.
  destruct o; simpl in *; try discriminate; auto.
Qed.

Lemma Valid_valid_at : forall env t s,
  exists s1, Valid env (Some t) s = ([], Ret (valid_at env t (env_now env (tick s))) s1) /\
             (s1 = s \/ s1 = ticked s).
Proof.
  intros env t s. unfold Valid, valid_at.
  destruct (AccessToken t =? "")%string; [exists s; auto | ].
  destruct (GoTime.IsZero (Expiry t)); [exists s; auto | ].
  exists (ticked s). split; [reflexivity | auto].
Qed.

Lemma ReadFile_ok : forall env s c,
  cache_file s = Some c -> env_read_error env (tick s) = None ->
  ReadFile env s = ([], Ret (inr c) (ticked s)).
Proof.
  intros env s c Hc He. unfold ReadFile.
  rewrite bind_next_tick, bind_get_state. cbn [cache_file ticked].
  rewrite Hc, He. reflexivity.
Qed.

Lemma cachedToken_usable : forall env s t,
  usable env s t ->
  exists s1, FileSource.cachedToken env s = ([], Ret (inr t) s1) /\
             cache_file s1 = cache_file s.
Proof.
  intros env s t (_ & Hc & He & Hv). unfold FileSource.cachedToken.
  erewrite bind_Ret by (apply ReadFile_ok; eassumption).
  cbn [app fst snd json_Unmarshal]. rewrite bind_ret_l.
  destruct (Valid_valid_at env t (ticked s)) as (s1 & E & Hs).
  cbn [tick ticked] in E. rewrite Hv in E.
  erewrite bind_Ret by exact E. cbn [app fst snd ret].
  exists s1. split; [reflexivity | ]. destruct Hs as [-> | ->]; reflexivity.
Qed.

Lemma Token_usable : forall env s t,
  usable env s t ->
  exists s1,
    FileSource.Token_ env (cachePath env) (Some (FileSource.AuthCode env)) s =
      ([], Ret (inr t) s1) /\
    cache_file s1 = cache_file s.
Proof.
  intros env s t Hu. destruct (cachedToken_usable env s t Hu) as (s1 & E & Hc).
  destruct Hu as (Hp & _). apply String.eqb_neq in Hp.
  unfold FileSource.Token_. rewrite Hp. cbn [negb].
  erewrite bind_Ret by exact E. exists s1. split; [reflexivity | exact Hc].
Qed.

Lemma startup_cached : forall env s t,
  cache_file s = Some (Encoded t) -> env_read_error env (tick s) = None ->
  Cacher.startup env s = ([], Ret t (ticked s)).
Proof.
  intros env s t Hc He. unfold Cacher.startup, Cacher.tokenFromFile.
  erewrite bind_Ret.
  2:{ erewrite bind_Ret by (apply ReadFile_ok; eassumption). reflexivity. }
  reflexivity.
Qed.

(** ** Failures are fatal *)

Lemma good_weaken : forall (ok ok' fail fail' : Event -> bool) A
    (r : list Event * Outcome A),
  (forall e, ok e = true -> ok' e = true) ->
  (forall e, fail e = true -> fail' e = true) ->
  good ok fail r -> good ok' fail' r.
Proof.
  intros ok ok' fail fail' A r Hok Hfail [H | [Ho (tr0 & ev & m & Et & H0 & Hev & Hrep)]].
  - left. eapply forallb_weaken; eauto.
  - right. split; [exact Ho | ]. exists tr0, ev, m.
    repeat split; auto. eapply forallb_weaken; eauto.
Qed.

Lemma good_bind : forall ok fail A B (m : M A) (f : A -> M B) s,
  good ok fail (m s) ->
  (forall a s1 tr1, m s = (tr1, Ret a s1) -> good ok fail (f a s1)) ->
  good ok fail (bind m f s).
Proof.
  intros ok fail A B m f s Hm Hf. unfold bind.
  destruct (m s) as [tr1 [a s1 | c | | ]] eqn:E.
  - specialize (Hf a s1 tr1 eq_refl).
    destruct Hm as [Hm | [Hm _]]; [ | discriminate]. cbn [fst] in Hm.
    destruct (f a s1) as [tr2 o2]. unfold good in *. cbn [fst snd] in *.
    destruct Hf as [Hf | [Ho (tr0 & ev & m0 & -> & H0 & Hev & Hrep)]].
    + left. rewrite forallb_app, Hm, Hf. reflexivity.
    + right. split; [exact Ho | ]. exists (tr1 ++ tr0)%list, ev, m0.
      rewrite app_assoc, forallb_app, Hm, H0. auto.
  - destruct Hm as [Hm | [Hm Ht]]; [left; exact Hm | right].
    cbn [fst snd] in *. inversion Hm; subst. split; [reflexivity | exact Ht].
  - destruct Hm as [Hm | [Hm _]]; [left; exact Hm | discriminate].
  - destruct Hm as [Hm | [Hm _]]; [left; exact Hm | discriminate].
Qed.

Lemma good_emits : forall (ok fail inner : Event -> bool) A (m : M A) s,
  (forall e, inner e = true -> ok e = true) ->
  emits inner m -> good ok fail (m s).
Proof.
  intros ok fail inner A m s Himp Hm. left. destruct (Hm s) as [H _].
  eapply forallb_weaken; eauto.
Qed.

Section GoodTail.
Variable env : Env.
Variable get : string -> M (option Response * option error).
Variables inner ok : Event -> bool.
Hypothesis Hget : forall url s, get_run inner url (get url s).
Hypothesis Hok_inner : forall e, inner e = true -> ok e = true.
Hypothesis Hok_get : forall url, ok (Call (OpGet url)) = true.
Hypothesis Hok_out : forall text, ok (Stdout text) = true.
Hypothesis Hok_log : forall text, ok (Log (LogText text)) = true.

(** A GET followed by [if err != nil { log.Fatal(err) }]. *)
Lemma good_get_or_fatal : forall B url (k : option Response -> M B) s,
  (forall resp s1, good ok tail_failure (k resp s1)) ->
  good ok tail_failure (bind (get url)
             (fun r => let '(response, err) := r in
                       match err with
                       | Some e => log_fatal (LogErr e)
                       | None => k response
                       end) s).
Proof.
  intros B url k s Hk.
  destruct (Hget url s) as (tr & s1 & resp & Hev & [Hr | [e Hr]]);
    erewrite bind_Ret by exact Hr; cbn [fst snd].
  - pose proof (Hk resp s1) as Hk1.
    destruct (k resp s1) as [tr2 o2]. unfold good in *. cbn [fst snd app] in *.
    destruct Hk1 as [Hg | [Ho (tr0 & ev & m0 & Et & H0 & Hev' & Hrep)]].
    + left. cbn [forallb]. rewrite Hok_get, forallb_app, Hg.
      rewrite (forallb_weaken _ _ _ Hok_inner Hev). reflexivity.
    + right. split; [exact Ho | ].
      exists (Call (OpGet url) :: tr ++ tr0)%list, ev, m0.
      rewrite Et. repeat split; auto.
      * rewrite app_comm_cons, app_assoc. reflexivity.
      * cbn [forallb]. rewrite Hok_get, forallb_app, H0.
        rewrite (forallb_weaken _ _ _ Hok_inner Hev). reflexivity.
  - right. rewrite log_fatal_run. cbn [fst snd]. split; [reflexivity | ].
    exists (Call (OpGet url) :: tr)%list, (Error (OpGet url) e), (LogErr e).
    repeat split.
    + cbn [app]. rewrite <- app_assoc. reflexivity.
    + cbn [forallb]. rewrite Hok_get.
      rewrite (forallb_weaken _ _ _ Hok_inner Hev). reflexivity.
    + left. reflexivity.
Qed.

(** A decoding followed by [if err != nil { log.Fatal(err) }]. *)
Lemma good_decode_or_fatal : forall A B response (dec : Body -> error + A)
    (k : A -> M B) s,
  (forall v s1, good ok tail_failure (k v s1)) ->
  good ok tail_failure (bind (Decode response dec)
             (fun d => match d with
                       | inl e => log_fatal (LogErr e)
                       | inr v => k v
                       end) s).
Proof.
  intros A B response dec k s Hk. unfold Decode.
  destruct response as [resp | ]; [ | left; reflexivity].
  destruct (dec (RespBody resp)) as [e | v].
  - erewrite bind_Ret by apply fail_with_run. cbn beta iota.
    rewrite log_fatal_run. right. split; [reflexivity | ].
    exists [], (Error OpDecode e), (LogErr e). repeat split. left. reflexivity.
  - rewrite bind_ret_l. apply Hk.
Qed.

Lemma good_print_entries : forall ws s, good ok tail_failure (print_entries ws s).
Proof.
  intros ws s. left.
  assert (L : forall l, forallb ok (map (fun w => Stdout (weight_line w)) l) = true).
  { induction l as [| w l IHl]; [reflexivity | ].
    cbn [map forallb]. rewrite Hok_out, IHl. reflexivity. }
  destruct (print_entries_run ws s) as [ws' [E | E]]; rewrite E; apply L.
Qed.

Lemma good_tries_loop : forall fuel tries response s,
  good ok tail_failure (tries_loop get fuel tries response s).
Proof.
  induction fuel as [| fuel IH]; intros tries response s; cbn [tries_loop];
    destruct (tries <? 2); try (left; reflexivity).
  apply good_get_or_fatal. intros resp s1. apply IH.
Qed.

Lemma good_window_body : forall endDate weights s,
  good ok tail_failure (window_body get endDate weights s).
Proof.
  intros endDate weights s. unfold window_body. cbv zeta.
  apply good_get_or_fatal. intros resp s1.
  apply good_decode_or_fatal. intros v s2.
  apply good_bind; [apply good_print_entries | ].
  intros. left. reflexivity.
Qed.

Lemma good_window_loop : forall fuel endDate weights s,
  good ok tail_failure (window_loop env get fuel endDate weights s).
Proof.
  induction fuel as [| fuel IH]; intros endDate weights s;
    rewrite window_loop_step;
    destruct (endDate <? env_now env (tick s)); try (left; reflexivity).
  apply good_bind; [apply good_window_body | ].
  intros. apply IH.
Qed.

Lemma good_after_tries : forall fuel response s,
  good ok tail_failure (after_tries env get fuel response s).
Proof.
  intros fuel response s. unfold after_tries.
  apply good_decode_or_fatal. intros ts s1.
  destruct (Entries ts) as [| first rest].
  - left. cbn. rewrite Hok_log. reflexivity.
  - destruct (GoTime.Parse (DateTime first)) as [endDate | ].
    + apply good_window_loop.
    + right. rewrite bind_emit, log_fatal_run. cbn [fst snd].
      split; [reflexivity | ].
      exists [], (Error OpParseDate (errMsg "parsing time")),
             (LogParse (DateTime first) (errMsg "parsing time")).
      repeat split. right; right. eexists. reflexivity.
Qed.

End GoodTail.

(** ** The caching variant as a whole *)

Lemma transport_event_clean : forall e, transport_event e = true -> clean e = true.
Proof.
  intros [t | m | o | o e | c] H; simpl in *; try discriminate; auto;
    destruct o; simpl in *; try discriminate; auto.
Qed.

Lemma transport_event_no_authorize : forall e,
  transport_event e = true -> no_authorize e = true.
Proof.
  intros [t | m | o | o e | c] H; simpl in *; try discriminate; auto;
    destruct o; simpl in *; try discriminate; auto.
Qed.

Lemma transport_event_not_get : forall e,
  transport_event e = true -> not_get e = true.
Proof.
  intros e H. apply source_event_not_get, transport_event_source, H.
Qed.

Lemma split_after_clean : forall pre tr1 ev tr2 tl,
  forallb clean pre = true -> is_failure ev = true ->
  (pre ++ tl)%list = (tr1 ++ ev :: tr2)%list ->
  exists mid, tr1 = (pre ++ mid)%list /\ tl = (mid ++ ev :: tr2)%list.
Proof.
  induction pre as [| x pre IH]; intros tr1 ev tr2 tl Hc Hf E.
  - exists tr1. auto.
  - cbn [forallb] in Hc. apply andb_prop in Hc. destruct Hc as [Hx Hc].
    destruct tr1 as [| y tr1]; cbn [app] in E.
    + injection E as Ex Et. subst x. unfold clean in Hx. rewrite Hf in Hx.
      discriminate.
    + injection E as Ex Et. subst y.
      destruct (IH _ _ _ _ Hc Hf Et) as (mid & -> & ->).
      exists mid. auto.
Qed.

Lemma clean_no_failure : forall tr tr1 ev tr2,
  forallb clean tr = true -> tr = (tr1 ++ ev :: tr2)%list ->
  is_failure ev = true -> False.
Proof.
  intros tr tr1 ev tr2 Hc -> Hf.
  rewrite forallb_app in Hc. apply andb_prop in Hc. destruct Hc as [_ Hc].
  cbn [forallb] in Hc. apply andb_prop in Hc. destruct Hc as [Hc _].
  unfold clean in Hc. rewrite Hf in Hc. discriminate.
Qed.

(** In a good run, a failure is the last event but one: the log line that
    reports it follows, and the exit status is 1. *)
Lemma good_failure_fatal : forall A (r : list Event * Outcome A) tr1 ev tr2,
  good clean is_failure r ->
  fst r = (tr1 ++ ev :: tr2)%list -> is_failure ev = true ->
  snd r = Exited 1 /\ exists m, tr2 = [Log m] /\ reports m ev.
Proof.
  intros A r tr1 ev tr2 [Hc | [Ho (tr0 & ev0 & m & Et & H0 & Hev & Hrep)]] E Hf.
  - exfalso. eapply clean_no_failure; eauto.
  - split; [exact Ho | ]. rewrite Et in E.
    destruct (split_after_clean _ _ _ _ _ H0 Hf E) as (mid & -> & Em).
    destruct mid as [| a mid]; cbn [app] in Em.
    + injection Em as E1 E2. subst. exists m. auto.
    + injection Em as E1 E2. subst a.
      destruct mid as [| b mid]; cbn [app] in E2.
      * injection E2 as E2 _. subst ev. discriminate.
      * injection E2 as _ E2. destruct mid; discriminate.
Qed.

Lemma good_but_first_failure : forall A (r : list Event * Outcome A) tr1 ev tr2,
  good_but_first r ->
  fst r = (tr1 ++ ev :: tr2)%list -> is_failure ev = true ->
  (snd r = Exited 1 /\ exists m, tr2 = [Log m] /\ reports m ev) \/
  (exists url, ev = expired_get url /\ requested tr1 = [url]).
Proof.
  intros A r tr1 ev tr2 [Hg | (pre & url & rest & Et & Hc & Hq & Hg)] E Hf.
  - left. eapply good_failure_fatal; eauto.
  - rewrite Et in E.
    destruct (split_after_clean _ _ _ _ _ Hc Hf E) as (mid & -> & Em).
    destruct mid as [| a mid]; cbn [app] in Em.
    + inversion Em; subst. right. exists url. rewrite app_nil_r. auto.
    + inversion Em; subst. left.
      apply (good_failure_fatal _ (mid ++ ev :: tr2, snd r)%list mid ev tr2 Hg);
        auto.
Qed.

Lemma good_but_first_bind : forall A B (m : M A) (f : A -> M B) s,
  good_but_first (m s) ->
  (forall a s1 tr1, m s = (tr1, Ret a s1) -> good clean is_failure (f a s1)) ->
  good_but_first (bind m f s).
Proof.
  intros A B m f s [Hg | (pre & url & rest & Et & Hc & Hq & Hg)] Hf.
  - left. apply good_bind; assumption.
  - right. exists pre, url. unfold bind.
    destruct (m s) as [tr1 [a s1 | c | | ]] eqn:E; cbn [fst snd] in *; subst tr1.
    + specialize (Hf a s1 _ eq_refl).
      destruct Hg as [Hg | [Hg _]]; [ | discriminate]. cbn [fst] in Hg.
      destruct (f a s1) as [tr2 o2]. unfold good, fatal_tail in *.
      cbn [fst snd] in *.
      exists (rest ++ tr2)%list. split; [ | split; [exact Hc | split; [exact Hq | ]]].
      * rewrite <- app_assoc. reflexivity.
      * destruct Hf as [Hf | [Ho (tr0 & ev & m0 & -> & H0 & Hev & Hrep)]].
        -- left. rewrite forallb_app, Hg, Hf. reflexivity.
        -- right. split; [exact Ho | ]. exists (rest ++ tr0)%list, ev, m0.
           rewrite app_assoc, forallb_app, Hg, H0. auto.
    + exists rest. split; [reflexivity | split; [exact Hc | split; [exact Hq | ]]].
      destruct Hg as [Hg | [Hg Ht]]; [left; exact Hg | right].
      cbn [fst snd] in *. split; [congruence | exact Ht].
    + exists rest. split; [reflexivity | split; [exact Hc | split; [exact Hq | ]]].
      destruct Hg as [Hg | [Hg _]]; [left; exact Hg | discriminate].
    + exists rest. split; [reflexivity | split; [exact Hc | split; [exact Hq | ]]].
      destruct Hg as [Hg | [Hg _]]; [left; exact Hg | discriminate].
Qed.

(** A clean prefix without requests, then a run that is good but for its
    first GET. *)
Lemma good_but_first_after : forall A B (m : M A) (f : A -> M B) s,
  good clean is_failure (m s) ->
  requested (fst (m s)) = [] ->
  (forall a s1 tr1, m s = (tr1, Ret a s1) -> good_but_first (f a s1)) ->
  good_but_first (bind m f s).
Proof.
  intros A B m f s Hm Hq Hf. unfold bind.
  destruct (m s) as [tr1 [a s1 | c | | ]] eqn:E; cbn [fst snd] in *;
    try (left; destruct Hm as [Hm | [Hm Ht]];
         [left; exact Hm | right; cbn [fst snd] in *; split; [congruence | exact Ht]]).
  specialize (Hf a s1 _ eq_refl).
  destruct Hm as [Hm | [Hm _]]; [ | discriminate]. cbn [fst] in Hm.
  destruct (f a s1) as [tr2 o2].
  unfold good_but_first, good, fatal_tail in *. cbn [fst snd] in *.
  destruct Hf as [Hf | (pre & url & rest & -> & Hc & Hq' & Hg)].
  - left. destruct Hf as [Hf | [Ho (tr0 & ev & m0 & -> & H0 & Hev & Hrep)]].
    + left. rewrite forallb_app, Hm, Hf. reflexivity.
    + right. split; [exact Ho | ]. exists (tr1 ++ tr0)%list, ev, m0.
      rewrite app_assoc, forallb_app, Hm, H0. auto.
  - right. exists (tr1 ++ pre)%list, url, rest.
    rewrite app_assoc, forallb_app, Hm, Hc, requested_app, Hq, Hq'. auto.
Qed.

(** Normalise concatenations of traces. *)
Ltac list_norm :=
  cbn [app]; rewrite ?app_nil_r; rewrite <- ?app_assoc; cbn [app].

Section CacherMain.
Variable env : Env.

(** The three ways [authorize] goes: the second registration panics; the
    callback brings a token; the callback brings an error. *)
Lemma authorize_cases : forall s,
  Cacher.authorize env s = ([], Panicked) \/
  (exists token s1,
      Cacher.authorize env s = (authorize_prompt env, Ret (inr token) s1)) \/
  (exists msg s1,
      Cacher.authorize env s =
        ((authorize_prompt env ++ [Error OpAuthorize (errMsg msg)])%list,
         Ret (inl (errMsg msg)) s1)).
Proof.
  intro s. unfold Cacher.authorize. rewrite bind_get_state.
  destruct (mux_registered s); [left; reflexivity | right].
  unfold bind, set_mux_registered, emit, next_tick, fail_with, ret.
  cbn [tick app fst snd].
  destruct (env_callback env (tick s)) as [msg | token].
  - right. exists msg. eexists. reflexivity.
  - left. exists token. eexists. reflexivity.
Qed.

Lemma startup_good : forall s,
  good clean is_failure (Cacher.startup env s) /\
  requested (fst (Cacher.startup env s)) = [].
Proof.
  intro s. unfold Cacher.startup.
  destruct (emits_tokenFromFile env s) as [Hev (r & s1 & Hret)].
  destruct (Cacher.tokenFromFile env s) as [tr o] eqn:E.
  cbn [fst snd] in Hev, Hret. subst o.
  pose proof (forallb_weaken _ _ _ transport_event_clean Hev) as Hc.
  pose proof (requested_not_get _ (forallb_weaken _ _ _ transport_event_not_get Hev))
    as Hq.
  erewrite bind_Ret by exact E. cbn [fst snd]. rewrite requested_app, Hq.
  unfold good, fatal_tail. cbn [fst snd app].
  assert (Hfatal : forall e,
            forallb clean (tr ++ [Log (LogErr e)]) = true).
  { intro e. rewrite forallb_app, Hc. reflexivity. }
  destruct r as [e | token].
  - destruct (IsNotExist e).
    + destruct (authorize_cases s1)
        as [Ea | [(token & s2 & Ea) | (msg & s2 & Ea)]].
      * erewrite bind_Panicked by exact Ea. cbn beta iota. cbn [fst snd].
        rewrite app_nil_r. auto.
      * erewrite bind_Ret by exact Ea. cbn beta iota. cbn [fst snd ret].
        rewrite app_nil_r. split; [left | reflexivity].
        rewrite forallb_app, Hc. reflexivity.
      * erewrite bind_Ret by exact Ea. cbn beta iota. rewrite log_fatal_run. cbn [fst snd].
        split; [right | rewrite !requested_app; reflexivity].
        split; [reflexivity | ].
        exists (tr ++ (authorize_prompt env))%list, (Error OpAuthorize (errMsg msg)),
               (LogErr (errMsg msg)).
        rewrite <- !app_assoc. repeat split.
        -- rewrite forallb_app, Hc. reflexivity.
        -- left. reflexivity.
    + rewrite bind_ret_l, log_fatal_run. cbn [fst snd].
      split; [left; apply Hfatal | reflexivity].
  - rewrite bind_ret_l. cbn [fst snd ret]. rewrite app_nil_r. auto.
Qed.

Lemma c_Get_cases : forall url s,
  exists tr0 s1,
    forallb transport_event tr0 = true /\
    ((exists resp,
        Cacher.c_Get env url s =
          (Call (OpGet url) :: tr0, Ret (Some resp, None) s1)) \/
     (exists e,
        Cacher.c_Get env url s =
          (Call (OpGet url) :: (tr0 ++ [Error (OpGet url) (urlError url e)])%list,
           Ret (None, Some (urlError url e)) s1))).
Proof.
  intros url s. unfold Cacher.c_Get, http_Get. rewrite bind_emit.
  destruct (emits_RoundTrip env url s) as [Hev (r & s1 & Hret)].
  destruct (Cacher.RoundTrip env url s) as [tr0 o] eqn:E.
  cbn [fst snd] in Hev, Hret. subst o. exists tr0, s1. split; [exact Hev | ].
  erewrite bind_Ret by exact E. cbn beta iota.
  destruct r as [e | resp]; cbn [fst snd bind emit ret app].
  - right. exists e. reflexivity.
  - left. exists resp. rewrite app_nil_r. reflexivity.
Qed.

(** The five ways the probe goes. *)
Lemma probe_cases : forall s,
  exists tr0,
    forallb transport_event tr0 = true /\
    ((exists s1,
        Cacher.probe env s = (Call (OpGet timeseries_url) :: tr0, Ret tt s1)) \/
     (exists e,
        is_errExpiredToken e = false /\
        Cacher.probe env s =
          (Call (OpGet timeseries_url) ::
             (tr0 ++ [Error (OpGet timeseries_url) (urlError timeseries_url e);
                      Log (LogErr (urlError timeseries_url e))])%list,
           Exited 1)) \/
     Cacher.probe env s =
       (Call (OpGet timeseries_url) :: (tr0 ++ [expired_probe])%list, Panicked) \/
     (exists s1,
        Cacher.probe env s =
          (Call (OpGet timeseries_url) ::
             (tr0 ++ expired_probe :: (authorize_prompt env))%list,
           Ret tt s1)) \/
     (exists msg,
        Cacher.probe env s =
          (Call (OpGet timeseries_url) ::
             (tr0 ++ expired_probe ::
                (authorize_prompt env ++
                 [Error OpAuthorize (errMsg msg);
                  Log (LogReauth (urlError timeseries_url errExpiredToken)
                                 (errMsg msg))]))%list,
           Exited 1))).
Proof.
  intro s. unfold Cacher.probe.
  destruct (c_Get_cases timeseries_url s)
    as (tr0 & s1 & Hev & [(resp & E) | (e & E)]);
    exists tr0; (split; [exact Hev | ]);
    erewrite bind_Ret by exact E; cbn beta iota; cbn [fst snd].
  1:{ left. exists s1. cbn [ret app]. rewrite app_nil_r. reflexivity. }
  destruct (is_errExpiredToken e) eqn:Ex.
    + destruct e; try discriminate Ex. right; right.
      destruct (authorize_cases s1)
        as [Ea | [(token & s2 & Ea) | (msg & s2 & Ea)]].
      * left. erewrite bind_Panicked by exact Ea. cbn beta iota. cbn [fst snd].
        list_norm. reflexivity.
      * right; left. erewrite bind_Ret by exact Ea. cbn beta iota. cbn [fst snd].
        eexists. unfold Cacher.client, set_source. cbn [fst snd].
        list_norm. reflexivity.
      * right; right. exists msg. erewrite bind_Ret by exact Ea. cbn beta iota.
        rewrite log_fatal_run. cbn [fst snd].
        list_norm. reflexivity.
    + right; left. exists e. split; [exact Ex | ].
      rewrite log_fatal_run. cbn [fst snd]. list_norm. reflexivity.
Qed.

(** [main] after the probe: the two time-series requests and the tail. *)
Lemma rest_good : forall ok fuel s,
  (forall e, transport_event e = true -> ok e = true) ->
  (forall url, ok (Call (OpGet url)) = true) ->
  (forall text, ok (Stdout text) = true) ->
  (forall text, ok (Log (LogText text)) = true) ->
  good ok tail_failure
    (bind (tries_loop (Cacher.c_Get env) fuel 0 None)
          (fun response => after_tries env (Cacher.c_Get env) fuel response) s).
Proof.
  intros ok fuel s H1 H2 H3 H4. apply good_bind.
  - apply (good_tries_loop (Cacher.c_Get env) transport_event ok
             (Cacher_c_Get_run env) H1 H2).
  - intros response s1 tr1 _.
    apply (good_after_tries env (Cacher.c_Get env) transport_event ok
             (Cacher_c_Get_run env) H1 H2 H3 H4).
Qed.

Lemma tail_failure_is_failure : forall e,
  tail_failure e = true -> is_failure e = true.
Proof.
  intros [t | m | o | o e | c] H; simpl in *; try discriminate.
  destruct o; simpl in *; try discriminate; reflexivity.
Qed.

Lemma probe_good_but_first : forall s, good_but_first (Cacher.probe env s).
Proof.
  intro s.
  destruct (probe_cases s)
    as (tr0 & Hev & [(s1 & E) | [(e & Hx & E) | [E | [(s1 & E) | (msg & E)]]]]);
    rewrite E;
    pose proof (forallb_weaken _ _ _ transport_event_clean Hev) as Hc;
    pose proof (requested_not_get _
                  (forallb_weaken _ _ _ transport_event_not_get Hev)) as Hq.
  - left. left. cbn [fst forallb]. rewrite Hc. reflexivity.
  - left. right. split; [reflexivity | ].
    exists (Call (OpGet timeseries_url) :: tr0),
           (Error (OpGet timeseries_url) (urlError timeseries_url e)),
           (LogErr (urlError timeseries_url e)).
    repeat split.
    + cbn [forallb]. rewrite Hc. reflexivity.
    + left. reflexivity.
  - right. exists (Call (OpGet timeseries_url) :: tr0), timeseries_url, [].
    repeat split.
    + cbn [forallb]. rewrite Hc. reflexivity.
    + cbn [requested]. rewrite Hq. reflexivity.
    + left. reflexivity.
  - right.
    exists (Call (OpGet timeseries_url) :: tr0), timeseries_url, (authorize_prompt env).
    repeat split.
    + cbn [forallb]. rewrite Hc. reflexivity.
    + cbn [requested]. rewrite Hq. reflexivity.
    + left. reflexivity.
  - right.
    exists (Call (OpGet timeseries_url) :: tr0), timeseries_url,
           (authorize_prompt env ++
            [Error OpAuthorize (errMsg msg);
             Log (LogReauth (urlError timeseries_url errExpiredToken) (errMsg msg))])%list.
    repeat split.
    + cbn [forallb]. rewrite Hc. reflexivity.
    + cbn [requested]. rewrite Hq. reflexivity.
    + right. split; [reflexivity | ].
      exists (authorize_prompt env), (Error OpAuthorize (errMsg msg)),
             (LogReauth (urlError timeseries_url errExpiredToken) (errMsg msg)).
      repeat split. right; left. eexists. reflexivity.
Qed.

Lemma client_run : forall token s,
  exists s1, Cacher.client token s = ([], Ret tt s1).
Proof. intros. eexists. reflexivity. Qed.

(** Every run of [main] is good, but for the expired-token error of the
    probe. *)
Lemma main_good_but_first : forall fuel s,
  good_but_first (Cacher.main env fuel s).
Proof.
  intros fuel s. unfold Cacher.main.
  destruct (clientSecret env =? "")%string.
  - left. left. reflexivity.
  - destruct (startup_good s) as [Hg Hq].
    apply good_but_first_after; [exact Hg | exact Hq | ].
    intros token s1 tr1 _.
    destruct (client_run token s1) as (s2 & Ec).
    erewrite bind_Ret by exact Ec. cbn beta iota. cbn [app].
    rewrite <- surjective_pairing.
    apply good_but_first_bind; [apply probe_good_but_first | ].
    intros [] s3 tr3 _.
    apply (good_weaken clean clean tail_failure is_failure);
      [ auto | apply tail_failure_is_failure | ].
    apply rest_good; [apply transport_event_clean | reflexivity ..].
Qed.

End CacherMain.

(** The token source failing after the exchange: [RoundTrip] still returns
    the response. *)
Lemma RoundTrip_with_swallows : forall env cached url s0 tr_1 t s_1 tr_2 resp s_2
    tr_3 e s_3,
  Cacher.Source_Token env s0 = (tr_1, Ret (inr t) s_1) ->
  oauth2_RoundTrip env (Cacher.Source_Token env) url s_1 =
    (tr_2, Ret (inr resp) s_2) ->
  Cacher.Source_Token env s_2 = (tr_3, Ret (inl e) s_3) ->
  Cacher.RoundTrip_with env cached url s0 =
    ((tr_1 ++ tr_2 ++ tr_3)%list, Ret (inr resp) s_3).
Proof.
  intros env cached url s0 tr_1 t s_1 tr_2 resp s_2 tr_3 e s_3 H1 H2 H3.
  unfold Cacher.RoundTrip_with.
  erewrite bind_Ret by exact H1. cbn beta iota.
  erewrite bind_Ret by exact H2. cbn beta iota.
  erewrite bind_Ret by exact H3. cbn beta iota.
  cbn [fst snd ret]. rewrite app_nil_r. reflexivity.
Qed.

(** ** Re-authorization *)

Lemma after_first_get_app : forall pre tl,
  requested pre = [] -> after_first_get (pre ++ tl) = after_first_get tl.
Proof.
  induction pre as [| e pre IH]; intros tl H; [reflexivity | ].
  destruct e as [t | m | o | o e | c]; cbn [app after_first_get requested] in *;
    try (apply IH; exact H).
  destruct o; try (apply IH; exact H). discriminate.
Qed.

Lemma after_first_get_none : forall tr,
  requested tr = [] -> after_first_get tr = [].
Proof.
  intros tr H. rewrite <- (app_nil_r tr). rewrite after_first_get_app by exact H.
  reflexivity.
Qed.

Lemma good_no_authorize : forall A (r : list Event * Outcome A),
  good no_authorize tail_failure r -> forallb no_authorize (fst r) = true.
Proof.
  intros A r [H | [_ (tr0 & ev & m & -> & H0 & Hev & _)]]; [exact H | ].
  rewrite forallb_app, H0. cbn [forallb].
  destruct ev as [t | m0 | o | o e | c]; simpl in *; try discriminate.
  destruct o; simpl in *; try discriminate; reflexivity.
Qed.

Lemma no_authorize_count : forall tr,
  forallb no_authorize tr = true ->
  authorizations tr = O /\ forall e, ~ In (Error OpAuthorize e) tr.
Proof.
  induction tr as [| x tr IH]; intros H; [split; [reflexivity | intros e []] | ].
  cbn [forallb] in H. apply andb_prop in H. destruct H as [Hx H].
  destruct (IH H) as [I1 I2]. split.
  - destruct x as [t | m | o | o e | c]; simpl in *; auto.
    destruct o; simpl in *; auto. discriminate.
  - intros e [E | Hin]; [subst x; discriminate | exact (I2 e Hin)].
Qed.

Lemma one_authorization_quiet : forall A (r : list Event * Outcome A),
  forallb no_authorize (fst r) = true -> one_authorization r.
Proof.
  intros A r H. destruct (no_authorize_count _ H) as [H1 H2]. split.
  - rewrite H1. auto.
  - intros e Hin. elim (H2 e Hin).
Qed.

Lemma one_authorization_bind : forall A B (m : M A) (f : A -> M B) s,
  one_authorization (m s) ->
  (forall a s1, forallb no_authorize (fst (f a s1)) = true) ->
  one_authorization (bind m f s).
Proof.
  intros A B m f s [H1 H2] Hf. unfold bind, one_authorization.
  destruct (m s) as [tr1 [a s1 | c | | ]] eqn:E; cbn [fst snd] in *.
  - specialize (Hf a s1). destruct (f a s1) as [tr2 o2]. cbn [fst snd] in *.
    destruct (no_authorize_count _ Hf) as [F1 F2].
    rewrite authorizations_app, F1. split; [lia | ].
    intros e Hin. apply in_app_or in Hin. destruct Hin as [Hin | Hin].
    + specialize (H2 e Hin). discriminate.
    + elim (F2 e Hin).
  - split; [exact H1 | ]. intros e Hin. specialize (H2 e Hin). congruence.
  - split; [exact H1 | ]. intros e Hin. specialize (H2 e Hin). discriminate.
  - split; [exact H1 | ]. intros e Hin. specialize (H2 e Hin). discriminate.
Qed.

Section Reauthorization.
Variable env : Env.

Lemma rest_no_authorize : forall fuel s,
  forallb no_authorize
    (fst (bind (tries_loop (Cacher.c_Get env) fuel 0 None)
               (fun response => after_tries env (Cacher.c_Get env) fuel response) s))
  = true.
Proof.
  intros fuel s. apply good_no_authorize.
  apply rest_good; [apply transport_event_no_authorize | reflexivity ..].
Qed.

(** The probe and what follows it: the first event is the GET of the probe;
    after it there is at most one authorization, and there is one only after
    the expired-token error of the probe. *)
Lemma probe_rest_authorizations : forall fuel s,
  exists tr',
    fst (bind (Cacher.probe env)
              (fun _ =>
                 bind (tries_loop (Cacher.c_Get env) fuel 0 None)
                      (fun response =>
                         after_tries env (Cacher.c_Get env) fuel response)) s)
      = Call (OpGet timeseries_url) :: tr' /\
    (authorizations tr' <= 1)%nat /\
    (authorizations tr' <> O -> In (expired_get timeseries_url) tr').
Proof.
  intros fuel s.
  destruct (probe_cases env s)
    as (tr0 & Hev & [(s1 & E) | [(e & Hx & E) | [E | [(s1 & E) | (msg & E)]]]]);
    pose proof (transport_no_authorization _ Hev) as Ha.
  - erewrite bind_Ret by exact E. cbn beta iota. cbn [fst app].
    eexists. split; [reflexivity | ].
    pose proof (rest_no_authorize fuel s1) as Hr.
    destruct (no_authorize_count _ Hr) as [Hr0 _].
    rewrite authorizations_app, Ha, Hr0. split; [lia | intro H; elim H; reflexivity].
  - erewrite bind_Exited by exact E. cbn [fst].
    eexists. split; [reflexivity | ].
    rewrite authorizations_app, Ha. split; [cbn; lia | intro H; elim H; reflexivity].
  - erewrite bind_Panicked by exact E. cbn [fst].
    eexists. split; [reflexivity | ].
    rewrite authorizations_app, Ha. split; [cbn; lia | intro H; elim H; reflexivity].
  - erewrite bind_Ret by exact E. cbn beta iota. cbn [fst app].
    eexists. split; [reflexivity | ].
    pose proof (rest_no_authorize fuel s1) as Hr.
    destruct (no_authorize_count _ Hr) as [Hr0 _].
    rewrite !authorizations_app, Ha, Hr0. split; [cbn; lia | intros _].
    apply in_or_app. left. apply in_or_app. right. left. reflexivity.
  - erewrite bind_Exited by exact E. cbn [fst].
    eexists. split; [reflexivity | ].
    rewrite authorizations_app, Ha. split; [cbn; lia | intros _].
    apply in_or_app. right. left. reflexivity.
Qed.

Lemma Cacher_main_reauthorizations : forall fuel s,
  (authorizations (after_first_get (fst (Cacher.main env fuel s))) <= 1)%nat /\
  (authorizations (after_first_get (fst (Cacher.main env fuel s))) <> O ->
   In (expired_get timeseries_url) (fst (Cacher.main env fuel s))).
Proof.
  intros fuel s. unfold Cacher.main.
  destruct (clientSecret env =? "")%string.
  - cbn. split; [lia | intro H; elim H; reflexivity].
  - destruct (startup_good env s) as [_ Hq].
    destruct (Cacher.startup env s) as [tr_s [token s1 | c | | ]] eqn:Es;
      cbn [fst] in Hq.
    + erewrite bind_Ret by exact Es. cbn beta iota.
      destruct (client_run token s1) as (s2 & Ec).
      erewrite bind_Ret by exact Ec. cbn beta iota. cbn [fst app].
      destruct (probe_rest_authorizations fuel s2) as (tr' & Et & H1 & H2).
      rewrite Et, after_first_get_app by exact Hq. cbn [after_first_get].
      split; [exact H1 | ]. intro H. apply in_or_app. right. right. apply H2, H.
    + erewrite bind_Exited by exact Es. cbn [fst].
      rewrite after_first_get_none by exact Hq.
      cbn. split; [lia | intro H; elim H; reflexivity].
    + erewrite bind_Panicked by exact Es. cbn [fst].
      rewrite after_first_get_none by exact Hq.
      cbn. split; [lia | intro H; elim H; reflexivity].
    + rewrite bind_not_Ret by (rewrite Es; discriminate). rewrite Es. cbn [fst].
      rewrite after_first_get_none by exact Hq.
      cbn. split; [lia | intro H; elim H; reflexivity].
Qed.

End Reauthorization.

Section OAuth1Reauthorization.
Variable env : Env.

Lemma OAuth1_c_Get_cases : forall url a s,
  (exists resp, OAuth1.c_Get env url a s =
                  ([Call (OpGet url)], Ret (resp, None) (ticked s))) \/
  (exists resp msg,
      OAuth1.c_Get env url a s =
        ([Call (OpGet url); Error (OpGet url) (errMsg msg)],
         Ret (resp, Some (errMsg msg)) (ticked s))).
Proof.
  intros url a s. unfold OAuth1.c_Get, bind, emit, next_tick, ret.
  fold (ticked s). cbn [fst snd app].
  destruct (env_get1 env (tick s) url a) as [resp [msg | ]]; cbn [fst snd app].
  - right. exists resp, msg. reflexivity.
  - left. exists resp. reflexivity.
Qed.

(** The re-authorization: one interactive authorization, fatal if it
    fails. *)
Lemma reauthorize_once : forall s,
  authorizations (fst (OAuth1.reauthorize env s)) = 1%nat /\
  (forall e, In (Error OpAuthorize e) (fst (OAuth1.reauthorize env s)) ->
             snd (OAuth1.reauthorize env s) = Exited 1).
Proof.
  intro s. unfold OAuth1.reauthorize. rewrite bind_emit, bind_next_tick.
  destruct (env_request_token env (tick s)) as [msg | [requestToken url]].
  - rewrite bind_emit, log_fatal_run. cbn [fst snd].
    split; reflexivity.
  - rewrite !bind_emit, bind_next_tick. cbv zeta. rewrite bind_next_tick.
    destruct (env_authorize_token env (tick (ticked (ticked s))) requestToken
                (env_scanln env (tick (ticked s)))) as [msg | a].
    + rewrite bind_emit, log_fatal_run. cbn [fst snd].
      split; reflexivity.
    + unfold log_print. rewrite bind_emit. cbn [fst snd ret].
      split; [reflexivity | ].
      intros e Hin. exfalso. cbn [In] in Hin.
      repeat (destruct Hin as [Hin | Hin]; [discriminate Hin | ]). exact Hin.
Qed.

(** From the second iteration on the loop does not authorize. *)
Lemma tries_loop_late : forall fuel tries response a s,
  1 <= tries ->
  forallb no_authorize (fst (OAuth1.tries_loop env fuel tries response a s)) = true.
Proof.
  induction fuel as [| fuel IH]; intros tries response a s Ht;
    cbn [OAuth1.tries_loop]; destruct (tries <? 2); try reflexivity.
  destruct (OAuth1_c_Get_cases timeseries_url a s)
    as [(resp & E) | (resp & msg & E)];
    erewrite bind_Ret by exact E; cbn beta iota; cbn [fst app forallb no_authorize].
  - apply IH. lia.
  - assert (N : (tries + 1 =? 1) = false) by (apply Z.eqb_neq; lia).
    rewrite N. reflexivity.
Qed.

Lemma tries_loop_first : forall fuel response a s,
  one_authorization (OAuth1.tries_loop env fuel 0 response a s).
Proof.
  intros [| fuel] response a s; cbn [OAuth1.tries_loop].
  - apply one_authorization_quiet. reflexivity.
  - change (0 <? 2) with true. cbn beta iota.
    destruct (OAuth1_c_Get_cases timeseries_url a s)
      as [(resp & E) | (resp & msg & E)];
      erewrite bind_Ret by exact E; cbn beta iota.
    + apply one_authorization_quiet. cbn [fst app forallb no_authorize andb].
      apply tries_loop_late. lia.
    + change (0 + 1 =? 1) with true. cbn beta iota.
      destruct resp as [resp | ];
        [ | apply one_authorization_quiet; reflexivity].
      destruct (StatusCode resp =? 401);
        [ | apply one_authorization_quiet; reflexivity].
      destruct (reauthorize_once (ticked s)) as [R1 R2].
      destruct (OAuth1.reauthorize env (ticked s)) as [tr_r o_r] eqn:Er.
      cbn [fst snd] in R1, R2.
      pose proof (one_authorization_bind _ _ (OAuth1.reauthorize env)
                    (fun a' => OAuth1.tries_loop env fuel (0 + 1) (Some resp) a')
                    (ticked s)) as Hb.
      rewrite Er in Hb.
      assert (Hone : one_authorization (tr_r, o_r)).
      { split; [cbn [fst]; lia | exact R2]. }
      specialize (Hb Hone (fun a' s1 => tries_loop_late fuel (0 + 1) (Some resp) a' s1
                                           ltac:(lia))).
      destruct Hb as [B1 B2]. unfold one_authorization.
      set (k := bind (OAuth1.reauthorize env)
                     (fun a' => OAuth1.tries_loop env fuel (0 + 1) (Some resp) a')
                     (ticked s)) in *.
      cbn [fst snd app authorizations].
      split; [exact B1 | ].
      intros e [Hin | [Hin | Hin]]; try discriminate Hin. exact (B2 e Hin).
Qed.

Lemma OAuth1_tail_no_authorize : forall fuel response a s,
  forallb no_authorize
    (fst (after_tries env (fun url => OAuth1.c_Get env url a) fuel response s))
  = true.
Proof.
  intros fuel response a s. apply good_no_authorize.
  apply (good_after_tries env (fun url => OAuth1.c_Get env url a)
           transport_event no_authorize);
    [ intros url s0; apply OAuth1_c_Get_run
    | apply transport_event_no_authorize | reflexivity .. ].
Qed.

Lemma OAuth1_main_one_authorization : forall fuel s,
  one_authorization (OAuth1.main env fuel s).
Proof.
  intros fuel s. unfold OAuth1.main.
  destruct ((consumerKey env =? "")%string || (consumerSecret env =? "")%string).
  - apply one_authorization_quiet. reflexivity.
  - cbv zeta. apply one_authorization_bind; [apply tries_loop_first | ].
    intros [response a] s1. apply OAuth1_tail_no_authorize.
Qed.

End OAuth1Reauthorization.

(** C4. A run performs at most one interactive re-authorization, and a
    re-authorization that fails ends the process with a fatal log message:
    in backup.go, after the first GET there is at most one authorization, it
    follows the expired-token error of that GET, and its error is followed
    by the fatal log line and exit status 1; in the OAuth 1.0a variant there
    is at most one authorization in the run and its error ends the run with
    exit status 1. *)
Theorem at_most_one_reauthorization : forall env fuel s,
  ((authorizations (after_first_get (fst (Cacher.main env fuel s))) <= 1)%nat /\
   (authorizations (after_first_get (fst (Cacher.main env fuel s))) <> O ->
    In (expired_get timeseries_url) (fst (Cacher.main env fuel s))) /\
   (forall tr1 e tr2,
      fst (Cacher.main env fuel s) = (tr1 ++ Error OpAuthorize e :: tr2)%list ->
      snd (Cacher.main env fuel s) = Exited 1 /\
      exists m, tr2 = [Log m] /\ reports m (Error OpAuthorize e))) /\
  ((authorizations (fst (OAuth1.main env fuel s)) <= 1)%nat /\
   (forall e,
      In (Error OpAuthorize e) (fst (OAuth1.main env fuel s)) ->
      snd (OAuth1.main env fuel s) = Exited 1)).
Proof.
  intros env fuel s. split; [split; [ | split] | ].
  - apply Cacher_main_reauthorizations.
  - apply Cacher_main_reauthorizations.
  - intros tr1 e tr2 E.
    destruct (good_but_first_failure _ _ _ _ _ (main_good_but_first env fuel s) E
                eq_refl) as [H | (url & Hx & _)]; [exact H | discriminate Hx].
  - apply OAuth1_main_one_authorization.
Qed.

Lemma at_most_one_reauthorization_witness :
  (authorizations
     (after_first_get
        (fst (Cacher.main Sample.env_reauth 5
                (initial_state (Some (Encoded Sample.tok_exp)))))) <= 1)%nat /\
  In (expired_get timeseries_url)
     (fst (Cacher.main Sample.env_reauth 5
             (initial_state (Some (Encoded Sample.tok_exp))))).
Proof.
  destruct (at_most_one_reauthorization Sample.env_reauth 5
              (initial_state (Some (Encoded Sample.tok_exp))))
    as [(H1 & H2 & _) _].
  split; [exact H1 | apply H2]. vm_compute. discriminate.
Defined.

(** ** The time-series request *)

Lemma weight_log_url_not_timeseries : forall endDate,
  weight_log_url endDate <> timeseries_url.
Proof.
  intros endDate H. unfold weight_log_url, timeseries_url in H.
  cbn [String.append] in H. discriminate H.
Qed.

Lemma count_occ_repeat : forall k,
  count_occ string_dec (repeat timeseries_url k) timeseries_url = k.
Proof.
  induction k as [| k IH]; [reflexivity | ].
  cbn [repeat]. rewrite count_occ_cons_eq by reflexivity. rewrite IH. reflexivity.
Qed.

Lemma count_occ_windows : forall urls,
  Forall is_window_url urls -> count_occ string_dec urls timeseries_url = O.
Proof.
  induction urls as [| u urls IH]; intro H; [reflexivity | ].
  inversion H as [| ? ? [e ->] Hrest]; subst.
  rewrite count_occ_cons_neq by apply weight_log_url_not_timeseries.
  apply IH, Hrest.
Qed.

Section TimeseriesRequests.
Variable env : Env.
Variable get : string -> M (option Response * option error).
Variable inner : Event -> bool.
Hypothesis Hget : forall url s, get_run inner url (get url s).
Hypothesis Hinner : forall e, inner e = true -> not_get e = true.

Lemma tries_loop_requested : forall fuel tries response s,
  0 <= tries ->
  exists k : nat,
    Z.of_nat k <= Z.max 0 (2 - tries) /\
    requested (fst (tries_loop get fuel tries response s)) = repeat timeseries_url k.
Proof.
  induction fuel as [| fuel IH]; intros tries response s Ht; cbn [tries_loop];
    destruct (tries <? 2) eqn:B; try (exists O; split; [lia | reflexivity]).
  apply Z.ltb_lt in B.
  pose proof (get_run_requested _ _ _ Hinner (Hget timeseries_url s)) as Hreq.
  destruct (Hget timeseries_url s) as (trg & s1 & resp & _ & [Hr | [e Hr]]);
    rewrite Hr in Hreq; cbn [fst] in Hreq;
    erewrite bind_Ret by exact Hr; cbn beta iota; cbn [fst].
  - destruct (IH (tries + 1) resp s1) as (k & Hk & Ek); [lia | ].
    exists (S k). split; [lia | ].
    rewrite requested_app, Hreq, Ek. reflexivity.
  - exists 1%nat. split; [lia | ].
    rewrite log_fatal_run. cbn [fst]. rewrite requested_app, Hreq. reflexivity.
Qed.

Lemma window_loop_urls : forall fuel endDate weights s,
  Forall is_window_url (requested (fst (window_loop env get fuel endDate weights s))).
Proof.
  induction fuel as [| fuel IH]; intros endDate weights s;
    rewrite window_loop_step;
    destruct (endDate <? env_now env (tick s)); try apply Forall_nil.
  destruct (window_body_requested get inner Hget Hinner
              (endDate + window) weights (ticked s)) as [Hreq _].
  unfold bind.
  destruct (window_body get (endDate + window) weights (ticked s))
    as [trb [w s2 | c | | ]]; cbn [fst] in Hreq |- *;
    try (rewrite Hreq; constructor; [eexists; reflexivity | constructor]).
  specialize (IH (endDate + window) w s2).
  destruct (window_loop env get fuel (endDate + window) w s2) as [tr2 o2].
  cbn [fst] in *. rewrite requested_app, Hreq.
  constructor; [eexists; reflexivity | exact IH].
Qed.

Lemma after_tries_urls : forall fuel response s,
  Forall is_window_url (requested (fst (after_tries env get fuel response s))).
Proof.
  intros fuel response s. unfold after_tries, Decode.
  destruct response as [resp | ]; [ | apply Forall_nil].
  destruct (decode_timeseries (RespBody resp)) as [e | ts].
  - erewrite bind_Ret by apply fail_with_run. cbn beta iota.
    rewrite log_fatal_run. apply Forall_nil.
  - rewrite bind_ret_l. destruct (Entries ts) as [| first rest];
      [apply Forall_nil | ].
    destruct (GoTime.Parse (DateTime first)); [apply window_loop_urls | ].
    rewrite bind_emit, log_fatal_run. apply Forall_nil.
Qed.

(** The tries loop and the tail request the time series at most twice. *)
Lemma rest_timeseries_requests : forall fuel s,
  (timeseries_requests
     (fst (bind (tries_loop get fuel 0 None)
                (fun response => after_tries env get fuel response) s)) <= 2)%nat.
Proof.
  intros fuel s. unfold timeseries_requests.
  destruct (tries_loop_requested fuel 0 None s) as (k & Hk & Ek); [lia | ].
  unfold bind.
  destruct (tries_loop get fuel 0 None s) as [tr1 [response s1 | c | | ]];
    cbn [fst] in Ek |- *;
    try (rewrite Ek, count_occ_repeat; lia).
  pose proof (after_tries_urls fuel response s1) as Hw.
  destruct (after_tries env get fuel response s1) as [tr2 o2]. cbn [fst] in *.
  rewrite requested_app, count_occ_app, Ek, count_occ_repeat.
  rewrite (count_occ_windows _ Hw). lia.
Qed.

End TimeseriesRequests.

Lemma Cacher_main_timeseries_requests : forall env fuel s,
  (timeseries_requests (fst (Cacher.main env fuel s)) <= 3)%nat.
Proof.
  intros env fuel s. unfold Cacher.main.
  destruct (clientSecret env =? "")%string; [cbn; lia | ].
  destruct (startup_good env s) as [_ Hq].
  unfold timeseries_requests in *.
  destruct (Cacher.startup env s) as [tr_s [token s1 | c | | ]] eqn:Es;
    cbn [fst] in Hq.
  2:{ erewrite bind_Exited by exact Es. cbn [fst]. rewrite Hq. cbn. lia. }
  2:{ erewrite bind_Panicked by exact Es. cbn [fst]. rewrite Hq. cbn. lia. }
  2:{ rewrite bind_not_Ret by (rewrite Es; discriminate).
      rewrite Es. cbn [fst]. rewrite Hq. cbn. lia. }
  erewrite bind_Ret by exact Es. cbn beta iota.
  destruct (client_run token s1) as (s2 & Ec).
  erewrite bind_Ret by exact Ec. cbn beta iota. cbn [fst app].
  rewrite requested_app, Hq. cbn [app].
  pose proof (rest_timeseries_requests env (Cacher.c_Get env) transport_event
                (Cacher_c_Get_run env) transport_event_not_get fuel) as Hrest.
  unfold timeseries_requests in Hrest.
  destruct (probe_cases env s2)
    as (tr0 & Hev & [(s3 & E) | [(e & Hx & E) | [E | [(s3 & E) | (msg & E)]]]]);
    pose proof (requested_not_get _
                  (forallb_weaken _ _ _ transport_event_not_get Hev)) as H0.
  - erewrite bind_Ret by exact E. cbn beta iota. cbn [fst app requested].
    rewrite requested_app, H0. cbn [app].
    rewrite count_occ_cons_eq by reflexivity. specialize (Hrest s3). lia.
  - erewrite bind_Exited by exact E. cbn [fst requested].
    rewrite requested_app, H0. cbn [app requested].
    rewrite count_occ_cons_eq by reflexivity. cbn. lia.
  - erewrite bind_Panicked by exact E. cbn [fst requested].
    rewrite requested_app, H0. cbn [app requested expired_probe expired_get].
    rewrite count_occ_cons_eq by reflexivity. cbn. lia.
  - erewrite bind_Ret by exact E. cbn beta iota. cbn [fst app requested].
    rewrite !requested_app, H0.
    unfold authorize_prompt, expired_probe, expired_get. cbn [requested app].
    rewrite count_occ_cons_eq by reflexivity. specialize (Hrest s3). lia.
  - erewrite bind_Exited by exact E. cbn [fst requested].
    rewrite !requested_app, H0.
    unfold authorize_prompt, expired_probe, expired_get. cbn [requested app].
    rewrite count_occ_cons_eq by reflexivity. cbn. lia.
Qed.

Lemma FileSource_main_timeseries_requests : forall env fuel s,
  (timeseries_requests (fst (FileSource.main env fuel s)) <= 2)%nat.
Proof.
  intros env fuel s. unfold FileSource.main.
  destruct (clientSecret env =? "")%string; [cbn; lia | ].
  erewrite bind_Ret by reflexivity. cbn beta iota. cbn [fst app].
  apply (rest_timeseries_requests env (FileSource.c_Get env) source_event
           (FileSource_c_Get_run env) source_event_not_get).
Qed.

(** C6, as the code has it. The loop [for tries < 2] requests the time
    series at most twice, and an error of the second request (as of the
    first) is fatal; the [FileTokenSource] variant therefore requests it at
    most twice in a run, and backup.go, which sends one more request to the
    same URL as a probe before the loop, at most three times. *)
Theorem timeseries_request_bounded : forall env fuel s,
  (timeseries_requests (fst (FileSource.main env fuel s)) <= 2)%nat /\
  (timeseries_requests (fst (Cacher.main env fuel s)) <= 3)%nat /\
  (forall get tr1 response1 s1 tr2 response2 e s2,
     get timeseries_url s = (tr1, Ret (response1, None) s1) ->
     get timeseries_url s1 = (tr2, Ret (response2, Some e) s2) ->
     tries_loop get (S (S fuel)) 0 None s =
       ((tr1 ++ tr2 ++ [Log (LogErr e)])%list, Exited 1)) /\
  (forall get tr1 response1 e s1,
     get timeseries_url s = (tr1, Ret (response1, Some e) s1) ->
     tries_loop get (S fuel) 0 None s = ((tr1 ++ [Log (LogErr e)])%list, Exited 1)).
Proof.
  intros env fuel s. split; [ | split; [ | split]].
  - apply FileSource_main_timeseries_requests.
  - apply Cacher_main_timeseries_requests.
  - intros get tr1 response1 s1 tr2 response2 e s2 H1 H2.
    cbn [tries_loop]. change (0 <? 2) with true. cbn beta iota.
    erewrite bind_Ret by exact H1. cbn beta iota.
    change (0 + 1 <? 2) with true. cbn beta iota.
    erewrite bind_Ret by exact H2. cbn beta iota.
    rewrite log_fatal_run. reflexivity.
  - intros get tr1 response1 e s1 H1.
    cbn [tries_loop]. change (0 <? 2) with true. cbn beta iota.
    erewrite bind_Ret by exact H1. cbn beta iota.
    rewrite log_fatal_run. reflexivity.
Qed.

Lemma timeseries_request_bounded_witness :
  (timeseries_requests
     (fst (FileSource.main Sample.env1 5 (initial_state (Some (Encoded Sample.tok)))))
   <= 2)%nat /\
  (timeseries_requests
     (fst (Cacher.main Sample.env1 5 (initial_state (Some (Encoded Sample.tok)))))
   <= 3)%nat.
Proof.
  destruct (timeseries_request_bounded Sample.env1 5
              (initial_state (Some (Encoded Sample.tok)))) as (H1 & H2 & _).
  split; [exact H1 | exact H2].
Defined.

(** C6 as stated fails: a run of backup.go in which nothing goes wrong
    requests the time series three times, once as the probe and twice in the
    loop. *)
Lemma timeseries_requested_three_times :
  timeseries_requests
    (fst (Cacher.main Sample.env1 5 (initial_state (Some (Encoded Sample.tok)))))
  = 3%nat /\
  exists s',
    snd (Cacher.main Sample.env1 5 (initial_state (Some (Encoded Sample.tok))))
    = Ret tt s'.
Proof.
  vm_compute. split; [reflexivity | eexists; reflexivity].
Qed.

(** ** The token cache and the authorizations *)

Section ProbeAuthorization.
Variable env : Env.

Lemma c_Get_error_inv : forall url s tr resp err s1,
  Cacher.c_Get env url s = (tr, Ret (resp, Some err) s1) ->
  exists tr0 e,
    err = urlError url e /\
    Cacher.RoundTrip env url s = (tr0, Ret (inl e) s1) /\
    tr = Call (OpGet url) :: (tr0 ++ [Error (OpGet url) err])%list.
Proof.
  intros url s tr resp err s1 H. unfold Cacher.c_Get, http_Get in H.
  rewrite bind_emit in H.
  destruct (emits_RoundTrip env url s) as [_ (r & s2 & Hret)].
  destruct (Cacher.RoundTrip env url s) as [tr0 o] eqn:E.
  cbn [snd] in Hret. subst o.
  erewrite bind_Ret in H by exact E. cbn beta iota in H.
  destruct r as [e | resp0]; cbn [fst snd bind emit ret app] in H.
  - inversion H; subst. exists tr0, e. auto.
  - inversion H.
Qed.

(** The probe re-authorizes only when the token source has failed. *)
Lemma probe_authorizes_after_token_failure : forall s,
  authorizations (fst (Cacher.probe env s)) <> O ->
  token_errors (fst (Cacher.probe env s)) <> [].
Proof.
  intros s Ha. unfold Cacher.probe in *.
  destruct (Cacher_c_Get_run env timeseries_url s)
    as (trg & s1 & resp & Hev & [Hr | [err Hr]]);
    pose proof (transport_no_authorization _ Hev) as H0.
  - exfalso. apply Ha. erewrite bind_Ret by exact Hr. cbn beta iota.
    cbn [fst snd ret app authorizations]. rewrite app_nil_r. exact H0.
  - destruct (c_Get_error_inv _ _ _ _ _ _ Hr) as (tr0 & e & -> & Ert & Etr).
    erewrite bind_Ret by exact Hr. erewrite bind_Ret in Ha by exact Hr.
    cbn beta iota in *. cbn [fst snd] in *.
    destruct (is_errExpiredToken e) eqn:Ex.
    + destruct (RoundTrip_error env _ _ _ _ _ Ert) as [[_ Ht] | [msg ->]];
        [ | discriminate Ex].
      injection Etr as Etr. apply app_inj_tail in Etr. destruct Etr as [-> _].
      cbn [fst app token_errors]. rewrite !token_errors_app.
      intro Hnil. apply app_eq_nil in Hnil. destruct Hnil as [Hnil _].
      apply app_eq_nil in Hnil. destruct Hnil as [Hnil _]. exact (Ht Hnil).
    + exfalso. apply Ha. rewrite log_fatal_run.
      cbn [fst app authorizations]. rewrite !authorizations_app, H0. reflexivity.
Qed.

End ProbeAuthorization.

(** * Further properties of the code *)

Lemma net_calls_app : forall a b, net_calls (a ++ b) = (net_calls a + net_calls b)%nat.
Proof.
  induction a as [| e a IH]; intro b; [reflexivity | ].
  destruct e as [t | m | o | o e | c]; simpl; try apply IH.
  destruct o; simpl; try apply IH. rewrite IH. reflexivity.
Qed.

Lemma cache_failures_app : forall a b,
  cache_failures (a ++ b) = (cache_failures a ++ cache_failures b)%list.
Proof.
  induction a as [| e a IH]; intro b; [reflexivity | ].
  destruct e as [t | m | o | o e | c]; simpl; try apply IH.
  destruct o; simpl; try apply IH; rewrite IH; reflexivity.
Qed.

Lemma write_failures_app : forall a b,
  write_failures (a ++ b) = (write_failures a ++ write_failures b)%list.
Proof.
  induction a as [| e a IH]; intro b; [reflexivity | ].
  destruct e as [t | m | o | o e | c]; simpl; try apply IH.
  destruct o; simpl; try apply IH; rewrite IH; reflexivity.
Qed.

Lemma write_failures_none : forall tr,
  cache_failures tr = [] -> write_failures tr = [].
Proof.
  induction tr as [| e tr IH]; intro H; [reflexivity | ].
  destruct e as [t | m | o | o e | c]; simpl in *; auto.
  destruct o; simpl in *; auto; discriminate.
Qed.

Section RoundTripRequests.
Variable env : Env.

(** A call of the token source returns the token it holds or a new one,
    silently, or the error of the refresh. *)
Lemma Source_Token_trace : forall s,
  exists s1,
    cache_file s1 = cache_file s /\ mux_registered s1 = mux_registered s /\
    ((exists t, Cacher.Source_Token env s = ([], Ret (inr t) s1)) \/
     (exists msg,
        Cacher.Source_Token env s =
          ([Error OpRefresh (errMsg msg); Error OpToken (errMsg msg)],
           Ret (inl (errMsg msg)) s1))).
Proof.
  intro s. unfold Cacher.Source_Token, reuse_Token. rewrite bind_get_state.
  destruct (Valid env (src_token s) s) as [trv ov] eqn:Ev.
  destruct (Valid_inv env _ _ _ _ Ev) as (-> & b & s0 & -> & Hs).
  erewrite bind_Ret by exact Ev. cbn [app fst snd].
  assert (Hsame : cache_file s0 = cache_file s /\
                  mux_registered s0 = mux_registered s).
  { destruct Hs as [-> | ->]; split; reflexivity. }
  destruct Hsame as [Hc Hm].
  assert (Hslow :
    exists s1,
      cache_file s1 = cache_file s /\ mux_registered s1 = mux_registered s /\
      ((exists t,
          (r0 <- Cacher.refresher_Token env ;;
           match r0 with
           | inl e => fail_with OpToken e
           | inr t => set_src_token (Some t) ;;; ret (inr t)
           end) s0 = ([], Ret (inr t) s1)) \/
       (exists msg,
          (r0 <- Cacher.refresher_Token env ;;
           match r0 with
           | inl e => fail_with OpToken e
           | inr t => set_src_token (Some t) ;;; ret (inr t)
           end) s0 =
            ([Error OpRefresh (errMsg msg); Error OpToken (errMsg msg)],
             Ret (inl (errMsg msg)) s1)))).
  { unfold Cacher.refresher_Token. rewrite <- Hc, <- Hm. clear.
    destruct (src_refresh s0 =? "")%string eqn:Er.
    - exists s0. split; [reflexivity | split; [reflexivity | right]].
      eexists. unfold bind at 1. rewrite bind_get_state, Er. reflexivity.
    - destruct (env_refresh env (tick s0)) as [msg | tk] eqn:En.
      + eexists. split; [ | split; [ | right; exists msg]].
        3:{ unfold bind at 1. rewrite bind_get_state, Er, bind_next_tick, En.
            reflexivity. }
        all: reflexivity.
      + eexists. split; [ | split; [ | left; exists tk]].
        3:{ unfold bind at 1. rewrite bind_get_state, Er, bind_next_tick, En.
            reflexivity. }
        all: reflexivity. }
  destruct b; [destruct (src_token s) as [t | ] | ];
    try (rewrite <- surjective_pairing; exact Hslow).
  exists s0. split; [exact Hc | split; [exact Hm | left]]. exists t. reflexivity.
Qed.

(** The base transport: the token source first, then one request. *)
Lemma oauth2_RoundTrip_trace : forall url s,
  exists s1,
    cache_file s1 = cache_file s /\ mux_registered s1 = mux_registered s /\
    ((exists msg,
        oauth2_RoundTrip env (Cacher.Source_Token env) url s =
          ([Error OpRefresh (errMsg msg); Error OpToken (errMsg msg)],
           Ret (inl (errMsg msg)) s1)) \/
     (exists msg,
        oauth2_RoundTrip env (Cacher.Source_Token env) url s =
          ([Call OpNet; Error OpNet (errMsg msg)], Ret (inl (errMsg msg)) s1)) \/
     (exists n resp,
        env_net env n url = inr resp /\
        oauth2_RoundTrip env (Cacher.Source_Token env) url s =
          ([Call OpNet], Ret (inr resp) s1))).
Proof.
  intros url s. unfold oauth2_RoundTrip.
  destruct (Source_Token_trace s) as (s1 & Hc & Hm & [(t & E) | (msg & E)]);
    erewrite bind_Ret by exact E; cbn beta iota; cbn [fst snd].
  - rewrite bind_emit, bind_next_tick.
    destruct (env_net env (tick s1) url) as [msg | resp] eqn:En.
    + exists (ticked s1). split; [exact Hc | split; [exact Hm | ]].
      right; left. exists msg. reflexivity.
    + exists (ticked s1). split; [exact Hc | split; [exact Hm | ]].
      right; right. exists (tick s1), resp. split; [exact En | reflexivity].
  - exists s1. split; [exact Hc | split; [exact Hm | ]]. left. exists msg. reflexivity.
Qed.

Lemma json_Marshal_trace : forall t s,
  json_Marshal t s = ([], Ret (inr (Encoded t)) s) \/
  exists msg, json_Marshal t s = ([Error OpMarshal (errMsg msg)], Ret (inl (errMsg msg)) s).
Proof.
  intros t s. unfold json_Marshal. cbv zeta.
  destruct ((0 <=? GoTime.Year (Expiry t)) && (GoTime.Year (Expiry t) <? 10000)).
  - left. reflexivity.
  - right. eexists. reflexivity.
Qed.

Lemma WriteFile_trace : forall c s,
  (exists s1, WriteFile env c s = ([Wrote c], Ret None s1) /\
              cache_file s1 = Some c /\ mux_registered s1 = mux_registered s) \/
  (exists msg s1,
     WriteFile env c s = ([Error OpWriteFile (errMsg msg)], Ret (Some (errMsg msg)) s1) /\
     (cache_file s1 = cache_file s \/ (exists m, cache_file s1 = Some (Malformed m)) \/
      cache_file s1 = Some c) /\
     mux_registered s1 = mux_registered s).
Proof.
  intros c s. unfold WriteFile. rewrite bind_next_tick.
  destruct (env_write_error env (tick s)) as [msg | ].
  - right. exists msg.
    destruct (env_write_left env (tick s)) as [ | m | ]; eexists;
      (split; [reflexivity | split; [ | reflexivity]]); cbn [cache_file ticked].
    + left. reflexivity.
    + right. left. exists m. reflexivity.
    + right. right. reflexivity.
  - left. eexists. split; [reflexivity | split; reflexivity].
Qed.

(** Every run of [RoundTrip], once the cache file has been read. *)
Lemma RoundTrip_with_run : forall cached url s,
  exists tr r s',
    Cacher.RoundTrip_with env cached url s = (tr, Ret r s') /\
    mux_registered s' = mux_registered s /\
    (net_calls tr <= 1)%nat /\
    match r with
    | inr resp =>
        net_calls tr = 1%nat /\ cache_failures tr = [] /\
        exists n, env_net env n url = inr resp
    | inl e =>
        writes tr = [] /\ file_after_error tr e (cache_file s) (cache_file s') /\
        (e = errExpiredToken -> net_calls tr = O) /\
        (cache_failures tr = [] \/
         (cache_failures tr = [e] /\ net_calls tr = 1%nat))
    end.
Proof.
  intros cached url s. unfold Cacher.RoundTrip_with.
  destruct (Source_Token_trace s) as (s1 & Hc1 & Hm1 & [(t1 & E1) | (msg1 & E1)]);
    erewrite bind_Ret by exact E1; cbn beta iota; cbn [fst snd].
  2:{ do 3 eexists. split; [reflexivity | ]. cbn.
      repeat split; try (left; split; [reflexivity | congruence]);
        auto; congruence. }
  destruct (oauth2_RoundTrip_trace url s1)
    as (s2 & Hc2 & Hm2 & [(msg2 & E2) | [(msg2 & E2) | (n & resp & En & E2)]]);
    erewrite bind_Ret by exact E2; cbn beta iota; cbn [fst snd].
  1,2: do 3 eexists; (split; [reflexivity | ]); cbn;
       repeat split; try (left; split; [reflexivity | congruence]);
       auto; try congruence; discriminate.
  destruct (Source_Token_trace s2) as (s3 & Hc3 & Hm3 & [(t3 & E3) | (msg3 & E3)]);
    erewrite bind_Ret by exact E3; cbn beta iota; cbn [fst snd].
  2:{ do 3 eexists. split; [reflexivity | ]. cbn.
      repeat split; auto; try congruence. exists n. exact En. }
  destruct (Cacher.must_cache cached t3).
  2:{ do 3 eexists. split; [reflexivity | ]. cbn.
      repeat split; auto; try congruence. exists n. exact En. }
  destruct (json_Marshal_trace t3 s3) as [E4 | (msg4 & E4)];
    erewrite bind_Ret by exact E4; cbn beta iota; cbn [fst snd].
  2:{ do 3 eexists. split; [reflexivity | ]. cbn.
      repeat split; try (left; split; [reflexivity | congruence]);
        auto; try congruence; discriminate. }
  destruct (WriteFile_trace (Encoded t3) s3)
    as [(s5 & E5 & Hc5 & Hm5) | (msg5 & s5 & E5 & Hc5 & Hm5)];
    erewrite bind_Ret by exact E5; cbn beta iota; cbn [fst snd].
  - do 3 eexists. split; [reflexivity | ]. cbn.
    repeat split; auto; try congruence. exists n. exact En.
  - do 3 eexists. split; [reflexivity | ]. cbn.
    split; [congruence | ]. split; [auto | ].
    split; [reflexivity | ]. split.
    + right. split; [reflexivity | ].
      destruct Hc5 as [Hc5 | [(m & Hc5) | Hc5]].
      * left. congruence.
      * right. left. exists m. exact Hc5.
      * right. right. exists t3. exact Hc5.
    + split; [discriminate | ]. right. split; reflexivity.
Qed.

(** The four ways [tokenFromFile] goes. *)
Lemma tokenFromFile_trace : forall s,
  (cache_file s = None /\
   Cacher.tokenFromFile env s =
     ([Error OpReadFile errNotExist], Ret (inl errNotExist) (ticked s))) \/
  (exists c msg,
     cache_file s = Some c /\ env_read_error env (tick s) = Some msg /\
     Cacher.tokenFromFile env s =
       ([Error OpReadFile (errMsg msg)], Ret (inl (errMsg msg)) (ticked s))) \/
  (exists msg,
     cache_file s = Some (Malformed msg) /\ env_read_error env (tick s) = None /\
     Cacher.tokenFromFile env s =
       ([Error OpUnmarshal (errMsg msg)], Ret (inl (errMsg msg)) (ticked s))) \/
  (exists t,
     cache_file s = Some (Encoded t) /\ env_read_error env (tick s) = None /\
     Cacher.tokenFromFile env s = ([], Ret (inr t) (ticked s))).
Proof.
  intro s.
  assert (Hrun : forall r,
            ReadFile env s = (match r with inl e => [Error OpReadFile e] | inr _ => [] end,
                              Ret r (ticked s)) ->
            Cacher.tokenFromFile env s =
              (let (tr', o) :=
                 match r with
                 | inl e => ret (inl e)
                 | inr c => json_Unmarshal c
                 end (ticked s) in
               ((match r with inl e => [Error OpReadFile e] | inr _ => [] end ++ tr')%list, o))).
  { intros r H. unfold Cacher.tokenFromFile, bind. rewrite H. reflexivity. }
  unfold ReadFile in Hrun. rewrite bind_next_tick, bind_get_state in Hrun.
  cbn [cache_file ticked] in Hrun.
  destruct (cache_file s) as [c | ].
  - destruct (env_read_error env (tick s)) as [msg | ].
    + right; left. exists c, msg. repeat split.
      apply (Hrun (inl (errMsg msg))). reflexivity.
    + destruct c as [t | msg].
      * right; right; right. exists t. repeat split.
        apply (Hrun (inr (Encoded t))). reflexivity.
      * right; right; left. exists msg. repeat split.
        apply (Hrun (inr (Malformed msg))). reflexivity.
  - left. split; [reflexivity | ]. apply (Hrun (inl errNotExist)). reflexivity.
Qed.

(** Every run of [RoundTrip]. *)
Lemma RoundTrip_run : forall url s,
  exists tr r s',
    Cacher.RoundTrip env url s = (tr, Ret r s') /\
    mux_registered s' = mux_registered s /\
    (net_calls tr <= 1)%nat /\
    match r with
    | inr resp =>
        net_calls tr = 1%nat /\ cache_failures tr = [] /\
        exists n, env_net env n url = inr resp
    | inl e =>
        writes tr = [] /\ file_after_error tr e (cache_file s) (cache_file s') /\
        (e = errExpiredToken -> net_calls tr = O) /\
        (cache_failures tr = [] \/
         (cache_failures tr = [e] /\ net_calls tr = 1%nat))
    end /\
    ((exists c, cache_file s = Some c /\
                (env_read_error env (tick s) <> None \/ exists msg, c = Malformed msg)) ->
     net_calls tr = O /\ exists msg, r = inl (errMsg msg)).
Proof.
  intros url s. unfold Cacher.RoundTrip.
  assert (Hwith : forall cached pre e0,
            net_calls pre = O -> writes pre = [] -> cache_failures pre = [] ->
            Cacher.tokenFromFile env s = (pre, Ret e0 (ticked s)) ->
            (forall c, cache_file s = Some c ->
               env_read_error env (tick s) = None /\ forall msg, c <> Malformed msg) ->
            exists tr r s',
              (let (tr', o) := Cacher.RoundTrip_with env cached url (ticked s) in
               ((pre ++ tr')%list, o)) = (tr, Ret r s') /\
              mux_registered s' = mux_registered s /\
              (net_calls tr <= 1)%nat /\
              match r with
              | inr resp =>
                  net_calls tr = 1%nat /\ cache_failures tr = [] /\
                  exists n, env_net env n url = inr resp
              | inl e =>
                  writes tr = [] /\
                  file_after_error tr e (cache_file s) (cache_file s') /\
                  (e = errExpiredToken -> net_calls tr = O) /\
                  (cache_failures tr = [] \/
                   (cache_failures tr = [e] /\ net_calls tr = 1%nat))
              end /\
              ((exists c, cache_file s = Some c /\
                          (env_read_error env (tick s) <> None \/
                           exists msg, c = Malformed msg)) ->
               net_calls tr = O /\ exists msg, r = inl (errMsg msg))).
  { intros cached pre e0 Hn Hw Hf _ Hfile.
    destruct (RoundTrip_with_run cached url (ticked s)) as (tr & r & s' & E & Hm & Hle & Hr).
    rewrite E. exists (pre ++ tr)%list, r, s'.
    split; [reflexivity | ]. split; [exact Hm | ].
    rewrite net_calls_app, Hn. split; [exact Hle | ]. split.
    - destruct r as [e | resp].
      + rewrite writes_app, Hw. destruct Hr as (H1 & H2 & H3 & H4).
        split; [exact H1 | ]. split; [ | split; [exact H3 | ]].
        * unfold file_after_error in *.
          rewrite write_failures_app, (write_failures_none pre Hf). exact H2.
        * rewrite cache_failures_app, Hf. exact H4.
      + destruct Hr as (H1 & H2 & H3). repeat split; auto.
        replace (cache_failures (pre ++ tr)) with (cache_failures tr); [exact H2 | ].
        clear - Hf. induction pre as [| x pre IH]; [reflexivity | ].
        destruct x as [t | m | o | o e' | c]; cbn in Hf |- *; auto.
        destruct o; cbn in Hf |- *; auto; discriminate.
    - intros (c & Hc & [Hbad | (msg & ->)]).
      + destruct (Hfile c Hc) as [Hok _]. contradiction.
      + destruct (Hfile _ Hc) as [_ Hok]. elim (Hok msg). reflexivity. }
  destruct (tokenFromFile_trace s)
    as [(Hc & E) | [(c & msg & Hc & He & E) | [(msg & Hc & He & E) | (t & Hc & He & E)]]];
    unfold bind; rewrite E; cbn beta iota; cbn [IsNotExist].
  - apply (Hwith None [Error OpReadFile errNotExist] (inl errNotExist));
      try reflexivity; [exact E | ]. intros c Hc'. congruence.
  - do 3 eexists. split; [reflexivity | ]. cbn.
    repeat split; try (left; split; reflexivity);
      auto; try congruence; try discriminate.
    eexists. reflexivity.
  - do 3 eexists. split; [reflexivity | ]. cbn.
    repeat split; try (left; split; reflexivity);
      auto; try congruence; try discriminate.
    eexists. reflexivity.
  - apply (Hwith (Some t) [] (inr t)); try reflexivity; [exact E | ].
    intros c Hc'. split; [exact He | ]. intros msg ->. congruence.
Qed.

End RoundTripRequests.

(** X1. Every call of [cacherTransport.RoundTrip] returns, and it sends at
    most one request through the base transport: exactly one when it
    returns a response, which is the reply of the network to that request;
    none when it returns [errExpiredToken]; none when the cache file exists
    but cannot be read or parsed, in which case it returns that error. *)
Theorem RoundTrip_sends_one_request : forall env url s,
  exists tr r s',
    Cacher.RoundTrip env url s = (tr, Ret r s') /\
    (net_calls tr <= 1)%nat /\
    match r with
    | inr resp => net_calls tr = 1%nat /\ exists n, env_net env n url = inr resp
    | inl e => e = errExpiredToken -> net_calls tr = O
    end /\
    ((exists c, cache_file s = Some c /\
                (env_read_error env (tick s) <> None \/ exists msg, c = Malformed msg)) ->
     net_calls tr = O /\ exists msg, r = inl (errMsg msg)).
Proof.
  intros env url s.
  destruct (RoundTrip_run env url s) as (tr & r & s' & E & _ & Hle & Hr & Hbad).
  exists tr, r, s'. split; [exact E | ]. split; [exact Hle | ]. split; [ | exact Hbad].
  destruct r as [e | resp].
  - destruct Hr as (_ & _ & H & _). exact H.
  - destruct Hr as (H1 & _ & H2). split; assumption.
Qed.



(** X4. After a call of [RoundTrip] that returns a response and during which
    the token source did not fail, the cache file holds a token with the
    access token and the refresh token of the token source; a later run
    that can read the file starts with that token, without an
    authorization. *)
Theorem RoundTrip_leaves_cache_in_sync : forall env url s tr resp s',
  Cacher.RoundTrip env url s = (tr, Ret (inr resp) s') ->
  token_errors tr = [] ->
  exists newTok cached,
    src_token s' = Some newTok /\
    cache_file s' = Some (Encoded cached) /\
    AccessToken cached = AccessToken newTok /\
    RefreshToken cached = RefreshToken newTok /\
    forall env',
      env_read_error env' O = None ->
      Cacher.startup env' (initial_state (cache_file s')) =
        ([], Ret cached (ticked (initial_state (cache_file s')))).
Proof.
  intros env url s tr resp s' H Hok. unfold Cacher.RoundTrip in H. inv_bind H.
  apply tokenFromFile_inv in Hrun. destruct Hrun as (-> & Hw & Ht & Hr).
  rewrite token_errors_app, Ht in Hok. cbn [app] in Hok.
  assert (Hcase : exists cached,
             Cacher.RoundTrip_with env cached url (ticked s) =
               (tr1, Ret (inr resp) s') /\
             match cached with
             | None => cache_file s = None
             | Some c => cache_file s = Some (Encoded c)
             end).
  { destruct a as [e | c].
    - destruct (IsNotExist e) eqn:En; [ | discriminate].
      exists None. split; [exact Hrest | apply Hr; reflexivity].
    - exists (Some c). split; [exact Hrest | apply Hr]. }
  destruct Hcase as (cached & Hrt & Hfile).
  apply RoundTrip_with_ok in Hrt.
  destruct Hrt as [(e & He & _) | (_ & newTok & Hs & Hcache)]; [congruence | ].
  cbn [cache_file ticked] in Hcache.
  assert (Hsync : exists c, cache_file s' = Some (Encoded c) /\
                            AccessToken c = AccessToken newTok /\
                            RefreshToken c = RefreshToken newTok).
  { destruct Hcache as [(Hm & Hwr & Hc) | (Hm & Hwr & Hc)].
    - exists newTok. auto.
    - destruct cached as [c | ]; [ | discriminate Hm].
      exists c. unfold Cacher.must_cache in Hm. apply orb_false_elim in Hm.
      destruct Hm as [Ha Hr']. apply negb_false_iff, String.eqb_eq in Ha, Hr'.
      repeat split; congruence. }
  destruct Hsync as (c & Hc & Ha & Hr').
  exists newTok, c. repeat split; auto.
  intros env' He. apply startup_cached; [rewrite Hc; reflexivity | exact He].
Qed.



Lemma RoundTrip_leaves_cache_in_sync_witness :
  exists tr resp s',
    Cacher.RoundTrip Sample.env1 timeseries_url (Scenario.holding None Sample.tok) =
      (tr, Ret (inr resp) s') /\
    exists newTok cached,
      src_token s' = Some newTok /\
      cache_file s' = Some (Encoded cached) /\
      AccessToken cached = AccessToken newTok /\
      RefreshToken cached = RefreshToken newTok /\
      forall env',
        env_read_error env' O = None ->
        Cacher.startup env' (initial_state (cache_file s')) =
          ([], Ret cached (ticked (initial_state (cache_file s')))).
Proof.
  do 3 eexists. split; [vm_compute; reflexivity | ].
  eapply (RoundTrip_leaves_cache_in_sync Sample.env1 timeseries_url
           (Scenario.holding None Sample.tok)
           [Error OpReadFile errNotExist; Call OpNet; Wrote (Encoded Sample.tok)]).
  - vm_compute. reflexivity.
  - reflexivity.
Defined.

(** X5. [tokenFromFile] returns the token of the file exactly when the file
    exists, can be read and parses as a token, and the not-exist error
    exactly when there is no file; every other error is an error of the
    outside (of the read or of the parser); the file is never written. *)
Theorem tokenFromFile_result : forall env s,
  exists tr r,
    Cacher.tokenFromFile env s = (tr, Ret r (ticked s)) /\
    (forall t, r = inr t <->
               (cache_file s = Some (Encoded t) /\ env_read_error env (tick s) = None)) /\
    (r = inl errNotExist <-> cache_file s = None) /\
    (forall e, r = inl e -> e = errNotExist \/ foreign e) /\
    writes tr = [].
Proof.
  intros env s.
  destruct (tokenFromFile_trace env s)
    as [(Hc & E) | [(c & msg & Hc & He & E) | [(msg & Hc & He & E) | (t & Hc & He & E)]]];
    rewrite E; do 2 eexists; (split; [reflexivity | ]); rewrite Hc.
  - split; [ | split; [ | split; [ | reflexivity]]].
    + intro t. split; [discriminate | intros [H _]; discriminate H].
    + split; reflexivity.
    + intros e H. left. congruence.
  - split; [ | split; [ | split; [ | reflexivity]]].
    + intro t. split; [discriminate | intros [_ H]; congruence].
    + split; discriminate.
    + intros e H. right. exists msg. congruence.
  - split; [ | split; [ | split; [ | reflexivity]]].
    + intro t. split; [discriminate | intros [H _]; discriminate H].
    + split; discriminate.
    + intros e H. right. exists msg. congruence.
  - split; [ | split; [ | split; [ | reflexivity]]].
    + intro t0. split; [intro H; split; [congruence | exact He] | intros [H _]; congruence].
    + split; discriminate.
    + intros e H. discriminate H.
Qed.

Section AuthorizeOnce.
Variable env : Env.

(** [authorize] in a process that has registered the handler already. *)
Lemma authorize_registered : forall s,
  mux_registered s = true -> Cacher.authorize env s = ([], Panicked).
Proof.
  intros s H. unfold Cacher.authorize. rewrite bind_get_state, H. reflexivity.
Qed.

Lemma authorize_fresh : forall s,
  mux_registered s = false ->
  exists tr r s1,
    Cacher.authorize env s = (tr, Ret r s1) /\
    mux_registered s1 = true /\ authorizations tr = 1%nat /\
    match r with
    | inr _ => tr = authorize_prompt env
    | inl e => tr = (authorize_prompt env ++ [Error OpAuthorize e])%list
    end.
Proof.
  intros s H. unfold Cacher.authorize. rewrite bind_get_state, H.
  unfold bind, set_mux_registered, emit, next_tick, fail_with, ret.
  cbn [tick app fst snd].
  destruct (env_callback env (tick s)) as [msg | token];
    do 3 eexists; (split; [reflexivity | ]); repeat split.
Qed.

Lemma startup_cases : forall s,
  (exists t, Cacher.startup env s = ([], Ret t (ticked s))) \/
  (exists tr, Cacher.startup env s = (tr, Exited 1) /\ (authorizations tr <= 1)%nat) \/
  (exists tr, Cacher.startup env s = (tr, Panicked) /\ authorizations tr = O) \/
  (exists tr t s1,
     Cacher.startup env s = (tr, Ret t s1) /\
     authorizations tr = 1%nat /\ mux_registered s1 = true /\
     cache_file s = None).
Proof.
  intro s. unfold Cacher.startup.
  destruct (tokenFromFile_trace env s)
    as [(Hc & E) | [(c & msg & Hc & He & E) | [(msg & Hc & He & E) | (t & Hc & He & E)]]];
    erewrite bind_Ret by exact E; cbn beta iota; cbn [IsNotExist fst snd].
  - destruct (mux_registered (ticked s)) eqn:Hm.
    + right; right; left. erewrite bind_Panicked by (apply authorize_registered; exact Hm).
      eexists. split; reflexivity.
    + destruct (authorize_fresh _ Hm) as (tr & r & s1 & Ea & Hm1 & Ha & Hr).
      erewrite bind_Ret by exact Ea. cbn beta iota.
      destruct r as [e | token].
      * right; left. rewrite log_fatal_run. cbn [fst snd].
        eexists. split; [reflexivity | ].
        cbn [app authorizations]. rewrite authorizations_app, Ha. cbn. lia.
      * right; right; right. cbn [ret fst snd]. exists ([Error OpReadFile errNotExist] ++ (tr ++ []))%list, token, s1.
        split; [reflexivity | ]. rewrite app_nil_r. cbn [app authorizations].
        auto.
  - right; left. rewrite bind_ret_l, log_fatal_run. cbn [fst snd].
    eexists. split; [reflexivity | ]. cbn. lia.
  - right; left. rewrite bind_ret_l, log_fatal_run. cbn [fst snd].
    eexists. split; [reflexivity | ]. cbn. lia.
  - left. exists t. rewrite bind_ret_l. reflexivity.
Qed.

(** A GET of the caching variant keeps the registration of the handler and
    runs no authorization. *)
Lemma c_Get_cases_mux : forall url s,
  exists tr0 s1,
    forallb transport_event tr0 = true /\
    mux_registered s1 = mux_registered s /\
    ((exists resp,
        Cacher.c_Get env url s =
          (Call (OpGet url) :: tr0, Ret (Some resp, None) s1)) \/
     (exists e,
        Cacher.c_Get env url s =
          (Call (OpGet url) :: (tr0 ++ [Error (OpGet url) (urlError url e)])%list,
           Ret (None, Some (urlError url e)) s1))).
Proof.
  intros url s. unfold Cacher.c_Get, http_Get. rewrite bind_emit.
  destruct (emits_RoundTrip env url s) as [Hev _].
  destruct (RoundTrip_run env url s) as (tr0 & r & s1 & E & Hm & _).
  rewrite E in Hev. cbn [fst] in Hev.
  exists tr0, s1. split; [exact Hev | ]. split; [exact Hm | ].
  erewrite bind_Ret by exact E. cbn beta iota.
  destruct r as [e | resp]; cbn [fst snd bind emit ret app].
  - right. exists e. reflexivity.
  - left. exists resp. rewrite app_nil_r. reflexivity.
Qed.

(** The probe in a process that has registered the handler already: it
    returns, or ends on an error that is not the expired token, or panics
    right after the expired-token error. *)
Lemma probe_registered : forall s,
  mux_registered s = true ->
  exists tr0,
    forallb transport_event tr0 = true /\
    ((exists s1,
        Cacher.probe env s = (Call (OpGet timeseries_url) :: tr0, Ret tt s1)) \/
     (exists e,
        is_errExpiredToken e = false /\
        Cacher.probe env s =
          (Call (OpGet timeseries_url) ::
             (tr0 ++ [Error (OpGet timeseries_url) (urlError timeseries_url e);
                      Log (LogErr (urlError timeseries_url e))])%list,
           Exited 1)) \/
     Cacher.probe env s =
       (Call (OpGet timeseries_url) :: (tr0 ++ [expired_probe])%list, Panicked)).
Proof.
  intros s Hreg. unfold Cacher.probe.
  destruct (c_Get_cases_mux timeseries_url s)
    as (tr0 & s1 & Hev & Hm & [(resp & E) | (e & E)]);
    exists tr0; (split; [exact Hev | ]);
    erewrite bind_Ret by exact E; cbn beta iota; cbn [fst snd].
  1:{ left. exists s1. cbn [ret app]. rewrite app_nil_r. reflexivity. }
  destruct (is_errExpiredToken e) eqn:Ex.
  - destruct e; try discriminate Ex. right; right.
    erewrite bind_Panicked by (apply authorize_registered; congruence).
    cbn [fst snd]. list_norm. reflexivity.
  - right; left. exists e. split; [exact Ex | ].
    rewrite log_fatal_run. cbn [fst snd]. list_norm. reflexivity.
Qed.

Lemma Cacher_main_authorizations : forall fuel s,
  (authorizations (fst (Cacher.main env fuel s)) <= 1)%nat.
Proof.
  intros fuel s. unfold Cacher.main.
  destruct (clientSecret env =? "")%string; [cbn; lia | ].
  destruct (startup_cases s)
    as [(t & E) | [(tr & E & Ha) | [(tr & E & Ha) | (tr & t & s1 & E & Ha & Hm & _)]]].
  - erewrite bind_Ret by exact E. cbn beta iota.
    destruct (client_run t (ticked s)) as (s2 & Ec).
    erewrite bind_Ret by exact Ec. cbn beta iota. cbn [fst app].
    destruct (probe_rest_authorizations env fuel s2) as (tr' & Et & H1 & _).
    rewrite Et. cbn [authorizations]. exact H1.
  - erewrite bind_Exited by exact E. exact Ha.
  - erewrite bind_Panicked by exact E. cbn [fst]. lia.
  - erewrite bind_Ret by exact E. cbn beta iota.
    unfold Cacher.client at 1. unfold bind at 1. unfold set_source at 1.
    cbn beta iota.
    match goal with
    | |- context [bind (Cacher.probe env) ?k ?s2] =>
        set (s2' := s2);
        assert (Hreg : mux_registered s2' = true) by exact Hm;
        pose proof (rest_no_authorize env fuel) as Hrest;
        destruct (probe_registered s2' Hreg)
          as (tr0 & Hev & [(s3 & Ep) | [(e & _ & Ep) | Ep]]);
        pose proof (transport_no_authorization _ Hev) as H0
    end.
    + erewrite bind_Ret by exact Ep. cbn beta iota. cbn [fst app].
      destruct (no_authorize_count _ (Hrest s3)) as [Hr0 _].
      rewrite !authorizations_app, Ha. cbn [authorizations].
      rewrite authorizations_app, H0, Hr0. lia.
    + erewrite bind_Exited by exact Ep. cbn [fst app].
      rewrite !authorizations_app, Ha. cbn [authorizations].
      rewrite authorizations_app, H0. cbn. lia.
    + erewrite bind_Panicked by exact Ep. cbn [fst app].
      rewrite !authorizations_app, Ha. cbn [authorizations].
      rewrite authorizations_app, H0. cbn. lia.
Qed.

End AuthorizeOnce.

(** X6. A run of backup.go shows the authorization prompt at most once.
    [authorize] registers its handler for "/" on the default mux of
    net/http, and a second registration panics: when the run has authorized
    at startup and the first request then reports an expired token, the
    program panics right after that error, without a second prompt and
    without a log line. *)
Theorem Cacher_authorizes_at_most_once : forall env fuel s,
  (authorizations (fst (Cacher.main env fuel s)) <= 1)%nat /\
  (forall tr_s token s1 s2 tr_g resp s3,
     clientSecret env <> "" ->
     Cacher.startup env s = (tr_s, Ret token s1) ->
     authorizations tr_s = 1%nat ->
     Cacher.client token s1 = ([], Ret tt s2) ->
     Cacher.c_Get env timeseries_url s2 =
       (tr_g, Ret (resp, Some (urlError timeseries_url errExpiredToken)) s3) ->
     Cacher.main env fuel s = ((tr_s ++ tr_g)%list, Panicked)).
Proof.
  intros env fuel s. split; [apply Cacher_main_authorizations | ].
  intros tr_s token s1 s2 tr_g resp s3 Hsec Es Ha Ec Eg.
  assert (Hm1 : mux_registered s1 = true).
  { destruct (startup_cases env s)
      as [(t & E) | [(tr & E & _) | [(tr & E & _) | (tr & t & s0 & E & _ & Hm & _)]]];
      rewrite E in Es; inversion Es; subst; [discriminate Ha | exact Hm]. }
  assert (Hm2 : mux_registered s2 = true).
  { unfold Cacher.client, set_source in Ec. inversion Ec. exact Hm1. }
  assert (Hm3 : mux_registered s3 = true).
  { destruct (c_Get_cases_mux env timeseries_url s2)
      as (tr0 & s0 & _ & Hm & [(r0 & E) | (e0 & E)]);
      rewrite E in Eg; inversion Eg; subst; congruence. }
  unfold Cacher.main. apply String.eqb_neq in Hsec. rewrite Hsec.
  erewrite bind_Ret by exact Es. cbn beta iota.
  erewrite bind_Ret by exact Ec. cbn beta iota. cbn [fst snd app].
  assert (Ep : Cacher.probe env s2 = (tr_g, Panicked)).
  { unfold Cacher.probe. erewrite bind_Ret by exact Eg.
    cbn beta iota. cbn [snd is_errExpiredToken].
    erewrite bind_Panicked by (apply authorize_registered; exact Hm3).
    cbn [fst snd]. rewrite app_nil_r. reflexivity. }
  erewrite bind_Panicked by exact Ep. reflexivity.
Qed.

Lemma Cacher_authorizes_at_most_once_witness :
  exists tr, Cacher.main Scenario.env_stale 5 (initial_state None) = (tr, Panicked).
Proof.
  eexists.
  eapply (proj2 (Cacher_authorizes_at_most_once Scenario.env_stale 5
                   (initial_state None))).
  - vm_compute. discriminate.
  - vm_compute. reflexivity.
  - reflexivity.
  - reflexivity.
  - vm_compute. reflexivity.
Defined.

Section ExpiredCache.
Variable env : Env.

(** The token source holding a token that is not valid and cannot be
    refreshed. *)
Lemma Source_Token_fails : forall s t,
  src_token s = Some t ->
  (forall n, valid_at env t (env_now env n) = false) ->
  (src_refresh s = "" \/ forall n, exists msg, env_refresh env n = inl msg) ->
  exists msg s1,
    Cacher.Source_Token env s =
      ([Error OpRefresh (errMsg msg); Error OpToken (errMsg msg)],
       Ret (inl (errMsg msg)) s1) /\
    mux_registered s1 = mux_registered s.
Proof.
  intros s t Hsrc Hinv Href. unfold Cacher.Source_Token, reuse_Token.
  rewrite bind_get_state, Hsrc.
  destruct (Valid_valid_at env t s) as (s1 & E & Hs).
  rewrite Hinv in E. erewrite bind_Ret by exact E. cbn beta iota. cbn [app fst snd].
  assert (Hr1 : src_refresh s1 = src_refresh s) by (destruct Hs as [-> | ->]; reflexivity).
  assert (Hm1 : mux_registered s1 = mux_registered s)
    by (destruct Hs as [-> | ->]; reflexivity).
  rewrite <- surjective_pairing. unfold Cacher.refresher_Token.
  destruct (src_refresh s1 =? "")%string eqn:Er.
  - exists "oauth2: token expired and refresh token is not set", s1.
    split; [ | exact Hm1].
    unfold bind at 1. rewrite bind_get_state, Er. reflexivity.
  - destruct Href as [Hempty | Hfail].
    + rewrite Hr1, Hempty in Er. discriminate Er.
    + destruct (Hfail (tick s1)) as [msg Hmsg].
      exists msg, (ticked s1). split; [ | exact Hm1].
      unfold bind at 1. rewrite bind_get_state, Er, bind_next_tick, Hmsg.
      reflexivity.
Qed.

(** The first request of a run whose cached token is not valid and cannot
    be refreshed. *)
Lemma expired_cache_probe : forall s t,
  cache_file s = Some (Encoded t) ->
  mux_registered s = false ->
  src_token s = Some t -> src_refresh s = RefreshToken t ->
  (forall n, env_read_error env n = None) ->
  (forall n, valid_at env t (env_now env n) = false) ->
  (RefreshToken t = "" \/ forall n, exists msg, env_refresh env n = inl msg) ->
  exists msg o rest,
    Cacher.probe env s =
      ((Call (OpGet timeseries_url) ::
        Error OpRefresh (errMsg msg) :: Error OpToken (errMsg msg) ::
        expired_probe :: authorize_prompt env ++ rest)%list, o).
Proof.
  intros s t Hc Hm Hsrc Hrs Hread Hinv Href.
  assert (Eg : exists msg s3,
             Cacher.c_Get env timeseries_url s =
               ([Call (OpGet timeseries_url);
                 Error OpRefresh (errMsg msg); Error OpToken (errMsg msg);
                 expired_probe],
                Ret (None, Some (urlError timeseries_url errExpiredToken)) s3) /\
             mux_registered s3 = false).
  { destruct (Source_Token_fails (ticked s) t Hsrc Hinv) as (msg & s1 & E & Hm1).
    { destruct Href as [H | H]; [left | right; exact H].
      cbn [src_refresh ticked]. congruence. }
    exists msg, s1. split; [ | cbn [mux_registered ticked] in Hm1; congruence].
    unfold Cacher.c_Get, http_Get. rewrite bind_emit.
    assert (Ert : Cacher.RoundTrip env timeseries_url s =
                    ([Error OpRefresh (errMsg msg); Error OpToken (errMsg msg)],
                     Ret (inl errExpiredToken) s1)).
    { unfold Cacher.RoundTrip, Cacher.tokenFromFile.
      erewrite bind_Ret.
      2:{ erewrite bind_Ret by (apply ReadFile_ok; [exact Hc | apply Hread]).
          reflexivity. }
      cbn beta iota. cbn [app fst snd]. unfold Cacher.RoundTrip_with.
      erewrite bind_Ret by exact E. reflexivity. }
    erewrite bind_Ret by exact Ert. reflexivity. }
  destruct Eg as (msg & s3 & Eg & Hm3).
  destruct (authorize_fresh env s3 Hm3) as (tra & r & s4 & Ea & _ & _ & Hr).
  exists msg. unfold Cacher.probe.
  erewrite bind_Ret by exact Eg. cbn beta iota. cbn [snd is_errExpiredToken].
  erewrite bind_Ret by exact Ea. cbn [fst snd app].
  destruct r as [e | token]; subst tra.
  - rewrite log_fatal_run. cbn [fst snd]. do 2 eexists.
    rewrite <- app_assoc. reflexivity.
  - unfold Cacher.client, set_source. cbn [fst snd]. do 2 eexists. reflexivity.
Qed.

End ExpiredCache.

(** X7. A cached token that is no longer valid and cannot be refreshed (it
    has no refresh token, or the token endpoint refuses): the first request
    of backup.go fails on the token source, before anything is sent to the
    API, and the program asks for a new authorization. *)
Theorem expired_cache_asks_again : forall env fuel s t,
  clientSecret env <> "" ->
  cache_file s = Some (Encoded t) ->
  mux_registered s = false ->
  (forall n, env_read_error env n = None) ->
  (forall n, valid_at env t (env_now env n) = false) ->
  (RefreshToken t = "" \/ forall n, exists msg, env_refresh env n = inl msg) ->
  exists msg rest,
    fst (Cacher.main env fuel s) =
      (Call (OpGet timeseries_url) ::
       Error OpRefresh (errMsg msg) :: Error OpToken (errMsg msg) ::
       Error (OpGet timeseries_url) (urlError timeseries_url errExpiredToken) ::
       Call OpAuthorize ::
       Stdout ("Please visit the following URL to authorize:" ++ GoString.nl) ::
       Stdout (authUrl env ++ GoString.nl) :: rest)%list.
Proof.
  intros env fuel s t Hsec Hc Hm Hread Hinv Href.
  unfold Cacher.main. apply String.eqb_neq in Hsec. rewrite Hsec.
  erewrite bind_Ret by (apply startup_cached; [exact Hc | apply Hread]).
  cbn beta iota. cbn [app].
  erewrite bind_Ret by reflexivity. cbn beta iota. cbn [app fst snd].
  match goal with
  | |- context [bind (Cacher.probe env) ?k ?s2] =>
      destruct (expired_cache_probe env s2 t Hc Hm eq_refl eq_refl Hread Hinv Href)
        as (msg & o & rest & Ep)
  end.
  exists msg.
  match goal with
  | |- context [bind (Cacher.probe env) ?k ?s2] =>
      unfold bind at 1; rewrite Ep
  end.
  destruct o as [[] s5 | c | | ].
  - match goal with
    | |- context [let (tr', o) := ?x in _] => destruct x as [tr' o']
    end.
    cbn [fst]. unfold authorize_prompt, expired_probe, expired_get. cbn [app].
    eexists. reflexivity.
  - cbn [fst]. eexists. reflexivity.
  - cbn [fst]. eexists. reflexivity.
  - cbn [fst]. eexists. reflexivity.
Qed.

Lemma expired_cache_asks_again_witness :
  exists msg rest,
    fst (Cacher.main Sample.env_reauth 5
           (initial_state (Some (Encoded Sample.tok_exp)))) =
      (Call (OpGet timeseries_url) ::
       Error OpRefresh (errMsg msg) :: Error OpToken (errMsg msg) ::
       Error (OpGet timeseries_url) (urlError timeseries_url errExpiredToken) ::
       Call OpAuthorize ::
       Stdout ("Please visit the following URL to authorize:" ++ GoString.nl) ::
       Stdout (authUrl Sample.env_reauth ++ GoString.nl) :: rest)%list.
Proof.
  apply (expired_cache_asks_again Sample.env_reauth 5
           (initial_state (Some (Encoded Sample.tok_exp))) Sample.tok_exp).
  - vm_compute. discriminate.
  - reflexivity.
  - reflexivity.
  - intro n. reflexivity.
  - intro n. vm_compute. reflexivity.
  - right. intro n. exists "invalid_grant". reflexivity.
Defined.

(** ** Properties of traces that the tail of [main] keeps *)

Section TailTraces.
Variable env : Env.
Variable get : string -> M (option Response * option error).
Variable I : State -> Prop.
Variable P : list Event -> Prop.
Hypothesis P_nil : P [].
Hypothesis P_app : forall a b, P a -> P b -> P (a ++ b)%list.
Hypothesis P_out : forall w, P [Stdout (weight_line w)].
Hypothesis P_log : forall m, P [Log m].
Hypothesis P_decode : forall e, P [Error OpDecode e].
Hypothesis P_parse : forall e, P [Error OpParseDate e].
Hypothesis I_tick : forall s, I s -> I (ticked s).
Hypothesis Hget : forall url s,
  I s ->
  P (fst (get url s)) /\
  exists r s1, snd (get url s) = Ret r s1 /\ I s1.

Lemma kept_bind : forall A B (m : M A) (f : A -> M B),
  kept I P m -> (forall a, kept I P (f a)) -> kept I P (bind m f).
Proof.
  intros A B m f Hm Hf s Hs. destruct (Hm s Hs) as [H1 H2]. unfold bind.
  destruct (m s) as [tr [a s1 | c | | ]]; cbn [fst snd] in *;
    try (split; [exact H1 | discriminate]).
  destruct (Hf a s1 (H2 a s1 eq_refl)) as [F1 F2].
  destruct (f a s1) as [tr2 o2]. cbn [fst snd] in *.
  split; [apply P_app; assumption | exact F2].
Qed.

Lemma kept_ret : forall A (a : A), kept I P (ret a).
Proof. intros A a s Hs. split; [exact P_nil | ]. intros a0 s1 E. inversion E; subst. exact Hs. Qed.

Lemma kept_log_fatal : forall A m, kept I P (@log_fatal A m).
Proof. intros A m s Hs. rewrite log_fatal_run. split; [apply P_log | discriminate]. Qed.

Lemma kept_get : forall url, kept I P (get url).
Proof.
  intros url s Hs. destruct (Hget url s Hs) as [H1 (r & s1 & E & H2)].
  split; [exact H1 | ]. intros a s2 E2. rewrite E in E2. inversion E2; subst. exact H2.
Qed.

Lemma kept_print_entries : forall ws, kept I P (print_entries ws).
Proof.
  intros ws s Hs.
  assert (L : forall l, P (map (fun w => Stdout (weight_line w)) l)).
  { induction l as [| w l IHl]; [exact P_nil | ].
    cbn [map]. apply (P_app [Stdout (weight_line w)]); [apply P_out | exact IHl]. }
  destruct (print_entries_run ws s) as [ws' [E | E]]; rewrite E; cbn [fst snd].
  - split; [apply L | ]. intros a s1 E1. inversion E1; subst. exact Hs.
  - split; [apply L | discriminate].
Qed.

Lemma kept_Decode : forall A response (dec : Body -> error + A),
  kept I P (Decode response dec).
Proof.
  intros A response dec s Hs. unfold Decode.
  destruct response as [resp | ]; [ | split; [exact P_nil | discriminate]].
  destruct (dec (RespBody resp)) as [e | v].
  - rewrite fail_with_run. split; [apply P_decode | ].
    intros a s1 E. inversion E; subst. exact Hs.
  - split; [exact P_nil | ]. intros a s1 E. inversion E; subst. exact Hs.
Qed.

Lemma kept_tries_loop : forall fuel tries response,
  kept I P (tries_loop get fuel tries response).
Proof.
  induction fuel as [| fuel IH]; intros tries response; cbn [tries_loop];
    destruct (tries <? 2); try apply kept_ret;
    try (intros s Hs; split; [exact P_nil | discriminate]).
  apply kept_bind; [apply kept_get | ].
  intros [resp [e | ]]; [apply kept_log_fatal | apply IH].
Qed.

Lemma kept_window_body : forall endDate weights,
  kept I P (window_body get endDate weights).
Proof.
  intros endDate weights. unfold window_body. cbv zeta.
  apply kept_bind; [apply kept_get | ].
  intros [resp [e | ]]; [apply kept_log_fatal | ].
  apply kept_bind; [apply kept_Decode | ].
  intros [e | ws]; [apply kept_log_fatal | ].
  apply kept_bind; [apply kept_print_entries | ]. intros _. apply kept_ret.
Qed.

Lemma kept_window_loop : forall fuel endDate weights,
  kept I P (window_loop env get fuel endDate weights).
Proof.
  induction fuel as [| fuel IH]; intros endDate weights s Hs;
    rewrite window_loop_step;
    destruct (endDate <? env_now env (tick s));
    try (split; [exact P_nil | ]; intros a s1 E;
         first [discriminate E | inversion E; subst; apply I_tick; exact Hs]).
  apply (kept_bind _ _ (window_body get (endDate + window) weights)
           (fun w => window_loop env get fuel (endDate + window) w)).
  - apply kept_window_body.
  - intro w. apply IH.
  - apply I_tick. exact Hs.
Qed.

Lemma kept_after_tries : forall fuel response,
  kept I P (after_tries env get fuel response).
Proof.
  intros fuel response. unfold after_tries.
  apply kept_bind; [apply kept_Decode | ].
  intros [e | ts]; [apply kept_log_fatal | ].
  destruct (Entries ts) as [| first rest].
  - intros s Hs. split; [apply P_log | discriminate].
  - destruct (GoTime.Parse (DateTime first)) as [endDate | ].
    + apply kept_window_loop.
    + intros s Hs. rewrite bind_emit, log_fatal_run. cbn [fst snd].
      split; [ | discriminate].
      apply (P_app [Error OpParseDate (errMsg "parsing time")]);
        [apply P_parse | apply P_log].
Qed.

End TailTraces.

(** ** A run with a valid cached token *)

Lemma must_cache_same : forall t, Cacher.must_cache (Some t) t = false.
Proof.
  intro t. unfold Cacher.must_cache. rewrite !String.eqb_refl. reflexivity.
Qed.

Lemma undisturbed_app : forall a b, undisturbed a -> undisturbed b -> undisturbed (a ++ b)%list.
Proof.
  intros a b (A1 & A2 & A3 & A4) (B1 & B2 & B3 & B4). unfold undisturbed.
  rewrite authorizations_app, writes_app, token_errors_app, net_calls_app,
    requested_app, length_app, A1, A2, A3, A4, B1, B2, B3, B4.
  repeat split.
Qed.

Section ValidCache.
Variable env : Env.
Variable t : Token.
Hypothesis Hread : forall n, env_read_error env n = None.
Hypothesis Hvalid : forall n, valid_at env t (env_now env n) = true.

(** The token source while it holds the valid token. *)
Lemma Source_Token_valid : forall s,
  src_token s = Some t ->
  exists s1,
    Cacher.Source_Token env s = ([], Ret (inr t) s1) /\
    cache_file s1 = cache_file s /\ src_token s1 = Some t.
Proof.
  intros s Hsrc. unfold Cacher.Source_Token, reuse_Token.
  rewrite bind_get_state, Hsrc.
  destruct (Valid_valid_at env t s) as (s1 & E & Hs).
  rewrite Hvalid in E. erewrite bind_Ret by exact E. cbn beta iota. cbn [app fst snd].
  exists s1. split; [reflexivity | ].
  destruct Hs as [-> | ->]; split; auto.
Qed.

Lemma oauth2_RoundTrip_valid : forall url s,
  src_token s = Some t ->
  exists s1,
    cache_file s1 = cache_file s /\ src_token s1 = Some t /\
    ((exists msg,
        oauth2_RoundTrip env (Cacher.Source_Token env) url s =
          ([Call OpNet; Error OpNet (errMsg msg)], Ret (inl (errMsg msg)) s1)) \/
     (exists resp,
        oauth2_RoundTrip env (Cacher.Source_Token env) url s =
          ([Call OpNet], Ret (inr resp) s1))).
Proof.
  intros url s Hsrc. unfold oauth2_RoundTrip.
  destruct (Source_Token_valid s Hsrc) as (s1 & E & Hc & Hs).
  erewrite bind_Ret by exact E. cbn beta iota. cbn [app fst snd].
  rewrite bind_emit, bind_next_tick.
  destruct (env_net env (tick s1) url) as [msg | resp].
  - exists (ticked s1). split; [exact Hc | split; [exact Hs | left]].
    exists msg. reflexivity.
  - exists (ticked s1). split; [exact Hc | split; [exact Hs | right]].
    exists resp. reflexivity.
Qed.

Lemma c_Get_valid : forall url s,
  holds_cached t s ->
  undisturbed (fst (Cacher.c_Get env url s)) /\
  exists r s1, snd (Cacher.c_Get env url s) = Ret r s1 /\ holds_cached t s1.
Proof.
  intros url s [Hc Hs].
  assert (Ert : exists tr r s1,
            Cacher.RoundTrip env url s = (tr, Ret r s1) /\ holds_cached t s1 /\
            (tr = [Call OpNet] \/ exists e, tr = [Call OpNet; Error OpNet e])).
  { unfold Cacher.RoundTrip, Cacher.tokenFromFile.
    erewrite bind_Ret.
    2:{ erewrite bind_Ret by (apply ReadFile_ok; [exact Hc | apply Hread]).
        reflexivity. }
    cbn beta iota. cbn [app fst snd]. unfold Cacher.RoundTrip_with.
    destruct (Source_Token_valid (ticked s) Hs) as (s1 & E1 & Hc1 & Hs1).
    erewrite bind_Ret by exact E1. cbn beta iota. cbn [app fst snd].
    destruct (oauth2_RoundTrip_valid url s1 Hs1)
      as (s2 & Hc2 & Hs2 & [(msg & E2) | (resp & E2)]);
      erewrite bind_Ret by exact E2; cbn beta iota; cbn [app fst snd].
    - do 3 eexists. split; [reflexivity | ]. split.
      + split; cbn [cache_file src_token ticked] in *; congruence.
      + right. eexists. reflexivity.
    - destruct (Source_Token_valid s2 Hs2) as (s3 & E3 & Hc3 & Hs3).
      erewrite bind_Ret by exact E3. cbn beta iota. cbn [app fst snd].
      rewrite must_cache_same. cbn [ret fst snd].
      do 3 eexists. split; [reflexivity | ]. split.
      + split; [ | exact Hs3]. cbn [cache_file ticked] in *. congruence.
      + left. reflexivity. }
  destruct Ert as (tr & r & s1 & E & Hh & Htr).
  unfold Cacher.c_Get, http_Get. rewrite bind_emit.
  erewrite bind_Ret by exact E. cbn beta iota.
  destruct r as [e | resp]; cbn [fst snd bind emit ret app].
  - split; [ | eauto].
    destruct Htr as [-> | [e0 ->]]; repeat split.
  - split; [ | eauto].
    destruct Htr as [-> | [e0 ->]]; repeat split.
Qed.

Lemma valid_cache_rest : forall fuel s,
  holds_cached t s ->
  undisturbed (fst (bind (tries_loop (Cacher.c_Get env) fuel 0 None)
                   (fun response => after_tries env (Cacher.c_Get env) fuel response) s)).
Proof.
  intros fuel s Hs.
  assert (Htick : forall s0, holds_cached t s0 -> holds_cached t (ticked s0)).
  { intros s0 [H1 H2]. split; assumption. }
  refine (proj1 (kept_bind (holds_cached t) undisturbed undisturbed_app _ _ _ _ _ _ s Hs)).
  - apply (kept_tries_loop (Cacher.c_Get env) (holds_cached t) undisturbed);
      try (repeat split; fail); [exact undisturbed_app | exact c_Get_valid].
  - intro response.
    apply (kept_after_tries env (Cacher.c_Get env) (holds_cached t) undisturbed);
      try (intros; repeat split; fail);
      [exact undisturbed_app | exact Htick | exact c_Get_valid].
Qed.

End ValidCache.

(** X8. backup.go with a cached token that is valid whenever it is checked,
    in a file that can be read: the run asks for no authorization, the
    token source never fails, the cache file is not written, and every GET
    reaches the network exactly once. *)
Theorem valid_cache_runs_silently : forall env fuel s t,
  cache_file s = Some (Encoded t) ->
  (forall n, env_read_error env n = None) ->
  (forall n, valid_at env t (env_now env n) = true) ->
  authorizations (fst (Cacher.main env fuel s)) = O /\
  writes (fst (Cacher.main env fuel s)) = [] /\
  token_errors (fst (Cacher.main env fuel s)) = [] /\
  net_calls (fst (Cacher.main env fuel s)) =
    List.length (requested (fst (Cacher.main env fuel s))).
Proof.
  intros env fuel s t Hc Hread Hvalid. unfold Cacher.main.
  destruct (clientSecret env =? "")%string; [repeat split | ].
  erewrite bind_Ret by (apply startup_cached; [exact Hc | apply Hread]).
  cbn beta iota. cbn [app].
  erewrite bind_Ret by reflexivity. cbn beta iota. cbn [app fst snd].
  match goal with
  | |- context [bind (Cacher.probe env) ?k ?s2] =>
      assert (Hh : holds_cached t s2) by (split; [exact Hc | reflexivity]);
      set (s2' := s2) in *
  end.
  destruct (c_Get_valid env t Hread Hvalid timeseries_url s2' Hh)
    as [Hq (r & s3 & Er & Hh3)].
  assert (Ep : Cacher.probe env s2' = (fst (Cacher.c_Get env timeseries_url s2'),
                                        Ret tt s3) \/
               exists m, Cacher.probe env s2' =
                 ((fst (Cacher.c_Get env timeseries_url s2') ++ [Log m])%list, Exited 1)).
  { unfold Cacher.probe.
    destruct (c_Get_cases env timeseries_url s2')
      as (tr0 & s1 & Hev & [(resp & E) | (e & E)]).
    - rewrite E in Er |- *. cbn [snd] in Er. inversion Er; subst.
      left. erewrite bind_Ret by exact E. cbn. rewrite app_nil_r. reflexivity.
    - right. rewrite E in Hq |- *. cbn [fst] in Hq |- *.
      erewrite bind_Ret by exact E. cbn beta iota. cbn [snd].
      destruct (is_errExpiredToken e) eqn:Ex.
      + exfalso. destruct e; try discriminate Ex.
        destruct (emits_RoundTrip env timeseries_url s2') as [_ (r0 & s0 & Hret)].
        destruct (Cacher.RoundTrip env timeseries_url s2') as [trr orr] eqn:Ert.
        cbn [snd] in Hret. subst orr.
        destruct r0 as [e0 | resp0].
        * unfold Cacher.c_Get, http_Get in E. rewrite bind_emit in E.
          erewrite bind_Ret in E by exact Ert. cbn in E.
          inversion E as [[Htr He Hs0]]. subst e0.
          apply RoundTrip_error in Ert.
          destruct Ert as [[_ Hne] | [msg Hf]]; [ | discriminate Hf].
          destruct Hq as (_ & _ & Hq3 & _). apply Hne.
          rewrite <- Htr in Hq3. cbn [token_errors] in Hq3.
          rewrite token_errors_app in Hq3.
          apply app_eq_nil in Hq3. destruct Hq3 as [Hq3 _].
          apply app_inv_tail in Htr. congruence.
        * unfold Cacher.c_Get, http_Get in E. rewrite bind_emit in E.
          erewrite bind_Ret in E by exact Ert. cbn in E. inversion E.
      + rewrite log_fatal_run. cbn [fst snd]. eexists. reflexivity. }
  destruct Ep as [Ep | [m Ep]].
  - erewrite bind_Ret by exact Ep. cbn beta iota.
    apply undisturbed_app; [exact Hq | ].
    apply (valid_cache_rest env t Hread Hvalid fuel s3 Hh3).
  - erewrite bind_Exited by exact Ep. cbn [fst].
    apply undisturbed_app; [exact Hq | repeat split].
Qed.

Lemma valid_cache_runs_silently_witness :
  authorizations (fst (Cacher.main Sample.env1 5
                         (initial_state (Some (Encoded Sample.tok))))) = O /\
  writes (fst (Cacher.main Sample.env1 5
                 (initial_state (Some (Encoded Sample.tok))))) = [] /\
  token_errors (fst (Cacher.main Sample.env1 5
                       (initial_state (Some (Encoded Sample.tok))))) = [] /\
  net_calls (fst (Cacher.main Sample.env1 5
                    (initial_state (Some (Encoded Sample.tok))))) =
    List.length (requested (fst (Cacher.main Sample.env1 5
                                   (initial_state (Some (Encoded Sample.tok)))))).
Proof.
  apply (valid_cache_runs_silently Sample.env1 5
           (initial_state (Some (Encoded Sample.tok))) Sample.tok).
  - reflexivity.
  - intro n. reflexivity.
  - intro n. reflexivity.
Defined.

(** ** Standard output *)

Lemma weight_lines_app : forall a b,
  weight_lines a -> weight_lines b -> weight_lines (a ++ b)%list.
Proof.
  intros a b [wa Ha] [wb Hb]. exists (wa ++ wb)%list.
  rewrite stdout_app, Ha, Hb, map_app. reflexivity.
Qed.

Lemma weight_lines_silent : forall tr, stdout tr = [] -> weight_lines tr.
Proof. intros tr H. exists []. exact H. Qed.

Lemma transport_stdout : forall tr,
  forallb transport_event tr = true -> stdout tr = [].
Proof.
  induction tr as [| e tr IH]; intro H; [reflexivity | ].
  cbn [forallb] in H. apply andb_prop in H. destruct H as [He H].
  destruct e as [t | m | o | o e | c]; cbn in He |- *; try discriminate; auto.
Qed.

Section StandardOutput.
Variable env : Env.

Lemma c_Get_stdout : forall url s, stdout (fst (Cacher.c_Get env url s)) = [].
Proof.
  intros url s.
  destruct (c_Get_cases env url s) as (tr0 & s1 & Hev & [(resp & E) | (e & E)]);
    rewrite E; cbn [fst stdout]; rewrite ?stdout_app, (transport_stdout _ Hev);
    reflexivity.
Qed.

Lemma rest_weight_lines : forall fuel s,
  weight_lines
    (fst (bind (tries_loop (Cacher.c_Get env) fuel 0 None)
               (fun response => after_tries env (Cacher.c_Get env) fuel response) s)).
Proof.
  intros fuel s.
  assert (Hget : forall url s0,
            True ->
            weight_lines (fst (Cacher.c_Get env url s0)) /\
            exists r s1, snd (Cacher.c_Get env url s0) = Ret r s1 /\ True).
  { intros url s0 _. split; [apply weight_lines_silent, c_Get_stdout | ].
    destruct (c_Get_cases env url s0) as (tr0 & s1 & _ & [(resp & E) | (e & E)]);
      rewrite E; cbn [snd]; do 2 eexists; (split; [reflexivity | exact I]). }
  assert (Hline : forall w, weight_lines [Stdout (weight_line w)]).
  { intro w. exists [w]. reflexivity. }
  refine (proj1 (kept_bind (fun _ => True) weight_lines weight_lines_app
                   _ _ _ _ _ _ s I)).
  - apply (kept_tries_loop (Cacher.c_Get env) (fun _ => True) weight_lines);
      [apply weight_lines_silent; reflexivity | exact weight_lines_app
      | intro; apply weight_lines_silent; reflexivity | exact Hget].
  - intro response.
    apply (kept_after_tries env (Cacher.c_Get env) (fun _ => True) weight_lines);
      try (intros; apply weight_lines_silent; reflexivity);
      [exact weight_lines_app | exact Hline | auto | exact Hget].
Qed.

Lemma transport_quiet_output : forall tr,
  forallb transport_event tr = true -> authorizations tr = O /\ stdout tr = [].
Proof.
  intros tr H. split; [apply transport_no_authorization | apply transport_stdout];
    exact H.
Qed.

(** The probe prints nothing, or it runs the one authorization of a process
    that has not registered the handler yet, and prints its prompt. *)
Lemma probe_output : forall s,
  (authorizations (fst (Cacher.probe env s)) = O /\
   stdout (fst (Cacher.probe env s)) = []) \/
  (mux_registered s = false /\
   authorizations (fst (Cacher.probe env s)) = 1%nat /\
   stdout (fst (Cacher.probe env s)) = prompt_lines env).
Proof.
  intro s. destruct (mux_registered s) eqn:Hm.
  - left.
    destruct (probe_registered env s Hm)
      as (tr0 & Hev & [(s1 & E) | [(e & _ & E) | E]]);
      destruct (transport_quiet_output _ Hev) as [Ha Ho];
      rewrite E; cbn [fst authorizations stdout];
      rewrite ?authorizations_app, ?stdout_app, Ha, Ho; split; reflexivity.
  - destruct (probe_cases env s)
      as (tr0 & Hev & [(s1 & E) | [(e & Hx & E) | [E | [(s1 & E) | (msg & E)]]]]);
      destruct (transport_quiet_output _ Hev) as [Ha Ho];
      rewrite E; cbn [fst authorizations stdout];
      rewrite ?authorizations_app, ?stdout_app, ?Ha, ?Ho.
    + left. split; reflexivity.
    + left. split; reflexivity.
    + left. split; reflexivity.
    + right. split; [reflexivity | split; reflexivity].
    + right. split; [reflexivity | ].
      cbn [app authorizations stdout expired_probe expired_get].
      rewrite authorizations_app, stdout_app. split; reflexivity.
Qed.

(** [startup] prints nothing, or it runs one authorization and prints its
    prompt; if it returns after that, the handler is registered. *)
Lemma startup_output : forall s,
  (exists t, Cacher.startup env s = ([], Ret t (ticked s))) \/
  (authorizations (fst (Cacher.startup env s)) = O /\
   stdout (fst (Cacher.startup env s)) = [] /\
   forall t s1, snd (Cacher.startup env s) <> Ret t s1) \/
  (authorizations (fst (Cacher.startup env s)) = 1%nat /\
   stdout (fst (Cacher.startup env s)) = prompt_lines env /\
   forall t s1, snd (Cacher.startup env s) = Ret t s1 -> mux_registered s1 = true).
Proof.
  intro s. unfold Cacher.startup.
  destruct (tokenFromFile_trace env s)
    as [(Hc & E) | [(c & msg & Hc & He & E) | [(msg & Hc & He & E) | (t & Hc & He & E)]]];
    erewrite bind_Ret by exact E; cbn beta iota; cbn [IsNotExist fst snd].
  - destruct (mux_registered (ticked s)) eqn:Hm.
    + right; left. erewrite bind_Panicked by (apply authorize_registered; exact Hm).
      cbn [fst snd app authorizations stdout]. repeat split. discriminate.
    + right; right.
      destruct (authorize_fresh env _ Hm) as (tr & r & s1 & Ea & Hm1 & Ha & Hr).
      erewrite bind_Ret by exact Ea. cbn beta iota.
      destruct r as [e | token]; subst tr.
      * rewrite log_fatal_run. cbn [fst snd app authorizations stdout].
        rewrite !authorizations_app, !stdout_app. repeat split. discriminate.
      * cbn [ret fst snd app authorizations stdout].
        rewrite !authorizations_app, !stdout_app. repeat split.
        intros t s2 Eq. inversion Eq; subst. exact Hm1.
  - right; left. rewrite bind_ret_l, log_fatal_run.
    cbn [fst snd app authorizations stdout]. repeat split. discriminate.
  - right; left. rewrite bind_ret_l, log_fatal_run.
    cbn [fst snd app authorizations stdout]. repeat split. discriminate.
  - left. exists t. rewrite bind_ret_l. reflexivity.
Qed.

Lemma prompt_then_lines : forall a b,
  (authorizations a = O /\ stdout a = []) \/
  (authorizations a = 1%nat /\ stdout a = prompt_lines env) ->
  authorizations b = O -> weight_lines b ->
  exists ws,
    stdout (a ++ b) =
      ((if (authorizations (a ++ b) =? 0)%nat then [] else prompt_lines env) ++
       map weight_line ws)%list.
Proof.
  intros a b Ha Hb [ws Hw]. exists ws.
  rewrite stdout_app, authorizations_app, Hb, Hw.
  destruct Ha as [[H1 H2] | [H1 H2]]; rewrite H1, H2; reflexivity.
Qed.

Lemma rest_output : forall fuel s,
  authorizations
    (fst (bind (tries_loop (Cacher.c_Get env) fuel 0 None)
               (fun response => after_tries env (Cacher.c_Get env) fuel response) s))
    = O.
Proof.
  intros fuel s. apply no_authorize_count, rest_no_authorize.
Qed.

(** The probe and what follows it. *)
Lemma probe_rest_output : forall fuel s,
  exists a b,
    fst (bind (Cacher.probe env)
              (fun _ =>
                 bind (tries_loop (Cacher.c_Get env) fuel 0 None)
                      (fun response =>
                         after_tries env (Cacher.c_Get env) fuel response)) s)
      = (a ++ b)%list /\
    a = fst (Cacher.probe env s) /\
    authorizations b = O /\ weight_lines b.
Proof.
  intros fuel s. unfold bind at 1.
  destruct (Cacher.probe env s) as [trp [[] s1 | c | | ]] eqn:Ep; cbn [fst].
  - pose proof (rest_output fuel s1) as Hr. pose proof (rest_weight_lines fuel s1) as Hw.
    match goal with
    | |- context [let (tr', o) := ?x in _] => destruct x as [tr' o']
    end.
    cbn [fst] in *. exists trp, tr'. auto.
  - exists trp, []. rewrite app_nil_r. repeat split.
    apply weight_lines_silent. reflexivity.
  - exists trp, []. rewrite app_nil_r. repeat split.
    apply weight_lines_silent. reflexivity.
  - exists trp, []. rewrite app_nil_r. repeat split.
    apply weight_lines_silent. reflexivity.
Qed.

Lemma Cacher_main_output : forall fuel s,
  exists ws,
    stdout (fst (Cacher.main env fuel s)) =
      ((if (authorizations (fst (Cacher.main env fuel s)) =? 0)%nat
        then [] else prompt_lines env) ++ map weight_line ws)%list.
Proof.
  intros fuel s. unfold Cacher.main.
  destruct (clientSecret env =? "")%string; [exists []; reflexivity | ].
  destruct (startup_output s) as [(t & E) | [(Ha & Ho & Hn) | (Ha & Ho & Hm)]].
  - erewrite bind_Ret by exact E. cbn beta iota.
    erewrite bind_Ret by reflexivity. cbn beta iota. cbn [fst app].
    match goal with
    | |- context [bind (Cacher.probe env) ?k ?s2] =>
        destruct (probe_rest_output fuel s2) as (a & b & Et & -> & Hb & Hw);
        pose proof (probe_output s2) as Hp
    end.
    rewrite Et. apply prompt_then_lines; [ | exact Hb | exact Hw].
    destruct Hp as [Hp | (_ & Hp)]; [left | right]; exact Hp.
  - rewrite bind_not_Ret by exact Hn.
    rewrite <- (app_nil_r (fst (Cacher.startup env s))).
    apply prompt_then_lines; [left; auto | reflexivity | ].
    apply weight_lines_silent. reflexivity.
  - destruct (Cacher.startup env s) as [tr_s [token s1 | c | | ]] eqn:Es;
      cbn [fst snd] in *.
    2:{ erewrite bind_Exited by exact Es. cbn [fst].
        rewrite <- (app_nil_r tr_s).
        apply prompt_then_lines; [right; auto | reflexivity | ].
        apply weight_lines_silent. reflexivity. }
    2:{ erewrite bind_Panicked by exact Es. cbn [fst].
        rewrite <- (app_nil_r tr_s).
        apply prompt_then_lines; [right; auto | reflexivity | ].
        apply weight_lines_silent. reflexivity. }
    2:{ rewrite bind_not_Ret by (rewrite Es; discriminate). rewrite Es. cbn [fst].
        rewrite <- (app_nil_r tr_s).
        apply prompt_then_lines; [right; auto | reflexivity | ].
        apply weight_lines_silent. reflexivity. }
    erewrite bind_Ret by exact Es. cbn beta iota.
    erewrite bind_Ret by reflexivity. cbn beta iota. cbn [fst app].
    match goal with
    | |- context [bind (Cacher.probe env) ?k ?s2] =>
        destruct (probe_rest_output fuel s2) as (a & b & Et & -> & Hb & Hw);
        pose proof (probe_output s2) as Hp;
        assert (Hreg : mux_registered s2 = true) by (apply (Hm token s1); reflexivity)
    end.
    rewrite Et. destruct Hp as [[Hp1 Hp2] | (Hf & _)]; [ | congruence].
    rewrite app_assoc. apply prompt_then_lines; [right | exact Hb | exact Hw].
    rewrite authorizations_app, stdout_app, Ha, Ho, Hp1, Hp2.
    split; reflexivity.
Qed.

End StandardOutput.

(** X9. Standard output of backup.go holds the two lines of the
    authorization prompt, if the run authorized, followed by weight lines
    and nothing else: no error text and no other message goes to standard
    output. *)
Theorem stdout_is_prompt_then_weight_lines : forall env fuel s,
  exists ws,
    stdout (fst (Cacher.main env fuel s)) =
      ((if (authorizations (fst (Cacher.main env fuel s)) =? 0)%nat then []
        else [("Please visit the following URL to authorize:" ++ GoString.nl)%string;
              (authUrl env ++ GoString.nl)%string]) ++
       map (fun entry =>
              (Date entry ++ " " ++ GoString.take 5 (Time entry) ++ " " ++
               GoFmt.format_f1 (Weight entry) ++ GoString.nl)%string) ws)%list.
Proof.
  intros env fuel s. destruct (Cacher_main_output env fuel s) as [ws H].
  exists ws. exact H.
Qed.


(** ** [FileTokenSource] *)

Section FileTokenSourceRuns.
Variable env : Env.

(** The ways [cachedToken] goes. *)
Lemma cachedToken_trace : forall s,
  (cache_file s = None /\
   FileSource.cachedToken env s =
     ([Error OpReadFile errNotExist], Ret (inl errNotExist) (ticked s))) \/
  (exists c msg,
     cache_file s = Some c /\ env_read_error env (tick s) = Some msg /\
     FileSource.cachedToken env s =
       ([Error OpReadFile (errMsg msg)], Ret (inl (errMsg msg)) (ticked s))) \/
  (exists msg,
     cache_file s = Some (Malformed msg) /\ env_read_error env (tick s) = None /\
     FileSource.cachedToken env s =
       ([Error OpUnmarshal (errMsg msg)], Ret (inl (errMsg msg)) (ticked s))) \/
  (exists tok s1,
     cache_file s = Some (Encoded tok) /\ env_read_error env (tick s) = None /\
     cache_file s1 = cache_file s /\
     ((valid_at env tok (env_now env (S (tick s))) = true /\
       FileSource.cachedToken env s = ([], Ret (inr tok) s1)) \/
      (valid_at env tok (env_now env (S (tick s))) = false /\
       exists n,
         (S (tick s) <= n <= S (S (tick s)))%nat /\
         ((Expiry tok < env_now env n /\
           FileSource.cachedToken env s = ([], Ret (inl errExpiredToken) s1)) \/
          (env_now env n <= Expiry tok /\
           FileSource.cachedToken env s = ([], Ret (inl errInvalidToken) s1)))))).
Proof.
  intro s.
  assert (Hrun : forall r,
            ReadFile env s = (match r with inl e => [Error OpReadFile e] | inr _ => [] end,
                              Ret r (ticked s)) ->
            FileSource.cachedToken env s =
              (let (tr', o) :=
                 match r with
                 | inl e => ret (inl e)
                 | inr c =>
                     u <- json_Unmarshal c ;;
                     match u with
                     | inl e => ret (inl e)
                     | inr tok =>
                         v <- Valid env (Some tok) ;;
                         if v then ret (inr tok)
                         else
                           now <- time_Now env ;;
                           if GoTime.After now (Expiry tok) then ret (inl errExpiredToken)
                           else ret (inl errInvalidToken)
                     end
                 end (ticked s) in
               ((match r with inl e => [Error OpReadFile e] | inr _ => [] end ++ tr')%list, o))).
  { intros r H. unfold FileSource.cachedToken. unfold bind at 1. rewrite H. reflexivity. }
  unfold ReadFile in Hrun. rewrite bind_next_tick, bind_get_state in Hrun.
  cbn [cache_file ticked] in Hrun.
  destruct (cache_file s) as [c | ] eqn:Hc.
  - destruct (env_read_error env (tick s)) as [msg | ].
    + right; left. exists c, msg. repeat split.
      apply (Hrun (inl (errMsg msg))). reflexivity.
    + destruct c as [tok | msg].
      * right; right; right.
        specialize (Hrun (inr (Encoded tok)) eq_refl).
        cbn [json_Unmarshal] in Hrun. rewrite bind_ret_l in Hrun. cbn [app] in Hrun.
        destruct (Valid_valid_at env tok (ticked s)) as (s1 & E & Hs).
        cbn [tick ticked] in E.
        erewrite bind_Ret in Hrun by exact E. cbn [app fst snd] in Hrun.
        destruct (valid_at env tok (env_now env (S (tick s)))) eqn:Hv.
        -- exists tok, s1. repeat split;
             [destruct Hs as [-> | ->]; cbn [cache_file ticked]; exact Hc | ].
           left. split; [exact Hv | exact Hrun].
        -- unfold bind in Hrun. rewrite time_Now_run in Hrun.
           cbn beta iota in Hrun. unfold GoTime.After in Hrun.
           exists tok, (ticked s1).
           repeat split;
             [destruct Hs as [-> | ->]; cbn [cache_file ticked]; exact Hc | ].
           right. split; [exact Hv | ]. exists (tick s1).
           split; [destruct Hs as [-> | ->]; cbn [tick ticked]; lia | ].
           destruct (Expiry tok <? env_now env (tick s1)) eqn:B.
           ++ left. split; [apply Z.ltb_lt; exact B | exact Hrun].
           ++ right. split; [apply Z.ltb_ge; exact B | exact Hrun].
      * right; right; left. exists msg. repeat split.
        apply (Hrun (inr (Malformed msg))). reflexivity.
  - left. split; [reflexivity | ]. apply (Hrun (inl errNotExist)). reflexivity.
Qed.

Lemma AuthCode_run : forall s,
  FileSource.AuthCode env s =
    (auth_code_prompt env,
     Ret (FileSource.code_of env (env_stdin env (tick s))) (ticked s)).
Proof. reflexivity. Qed.

(** [Token()] once the cache has given no token: the code is asked for and
    exchanged; the token is written to the cache file if there is a path. *)
Lemma Token_after_cache_trace : forall path s,
  exists tr r s1,
    FileSource.Token_after_cache env path (Some (FileSource.AuthCode env)) s =
      ((auth_code_prompt env ++ tr)%list, Ret r s1) /\
    authorizations tr = O /\ logged tr = [] /\
    match env_exchange env (S (tick s))
            (FileSource.code_of env (env_stdin env (tick s))) with
    | inl msg =>
        r = inl (errWrap "could not exchange auth code for a token: " (errMsg msg)) /\
        writes tr = [] /\ cache_failures tr = [] /\ cache_file s1 = cache_file s
    | inr tok =>
        (r = inr tok /\ cache_failures tr = [] /\
         if (path =? "")%string
         then writes tr = [] /\ cache_file s1 = cache_file s
         else writes tr = [Encoded tok] /\ cache_file s1 = Some (Encoded tok)) \/
        (path <> "" /\ writes tr = [] /\
         exists msg,
           cache_failures tr = [errMsg msg] /\
           ((r = inl (errWrap "could not encode token as json: " (errMsg msg)) /\
             cache_file s1 = cache_file s) \/
            (r = inl (errWrap ("could not cache token in " ++ fmt_q env path ++ ": ")
                        (errMsg msg)) /\
             (cache_file s1 = cache_file s \/
              (exists m, cache_file s1 = Some (Malformed m)) \/
              cache_file s1 = Some (Encoded tok)))))
    end.
Proof.
  intros path s. unfold FileSource.Token_after_cache.
  erewrite bind_Ret by apply AuthCode_run. cbn beta iota. cbn [fst snd].
  rewrite bind_next_tick. cbn [tick ticked].
  destruct (env_exchange env (S (tick s))
              (FileSource.code_of env (env_stdin env (tick s)))) as [msg | tok].
  - rewrite fail_with_run. cbn [fst snd].
    do 3 eexists. split; [reflexivity | ]. repeat split.
  - destruct (path =? "")%string eqn:Ep.
    + cbn [ret fst snd]. exists [], (inr tok). eexists.
      split; [reflexivity | ]. repeat split. left. repeat split.
    + apply String.eqb_neq in Ep.
      destruct (json_Marshal_trace tok (ticked (ticked s))) as [E4 | (msg4 & E4)];
        erewrite bind_Ret by exact E4; cbn beta iota; cbn [fst snd app].
      * destruct (WriteFile_trace env (Encoded tok) (ticked (ticked s)))
          as [(s5 & E5 & Hc5 & Hm5) | (msg5 & s5 & E5 & Hc5 & Hm5)];
          erewrite bind_Ret by exact E5; cbn beta iota; cbn [fst snd app ret].
        -- do 3 eexists. split; [reflexivity | ]. repeat split.
           left. repeat split. exact Hc5.
        -- do 3 eexists. split; [reflexivity | ]. repeat split.
           right. repeat split; [exact Ep | ].
           exists msg5. split; [reflexivity | right]. split; [reflexivity | ].
           cbn [cache_file ticked] in Hc5. exact Hc5.
      * do 3 eexists. split; [reflexivity | ]. repeat split.
        right. repeat split; [exact Ep | ].
        exists msg4. split; [reflexivity | left]. split; reflexivity.
Qed.

Lemma logged_app : forall a b, logged (a ++ b) = (logged a ++ logged b)%list.
Proof.
  induction a as [| e a IH]; intro b; [reflexivity | ].
  destruct e; simpl; rewrite ?IH; reflexivity.
Qed.

(** [Token()] with a cache path, when the cache gives a token. *)
Lemma Token_cached : forall path ask s tr_c tok s1,
  path <> "" ->
  FileSource.cachedToken env s = (tr_c, Ret (inr tok) s1) ->
  FileSource.Token_ env path ask s = (tr_c, Ret (inr tok) s1).
Proof.
  intros path ask s tr_c tok s1 Hp E. apply String.eqb_neq in Hp.
  unfold FileSource.Token_. rewrite Hp. cbn [negb].
  erewrite bind_Ret by exact E. cbn [ret fst snd]. rewrite app_nil_r. reflexivity.
Qed.

(** [Token()] with a cache path, when the cache gives an error: the error
    is logged unless it is the expired token, and the rest follows. *)
Lemma Token_after_failure : forall path ask s tr_c err s1,
  path <> "" ->
  FileSource.cachedToken env s = (tr_c, Ret (inl err) s1) ->
  FileSource.Token_ env path ask s =
    ((tr_c ++
      (if is_errExpiredToken err then [] else [Log (LogTokenFile path err)]) ++
      fst (FileSource.Token_after_cache env path ask s1))%list,
     snd (FileSource.Token_after_cache env path ask s1)).
Proof.
  intros path ask s tr_c err s1 Hp E. apply String.eqb_neq in Hp.
  unfold FileSource.Token_. rewrite Hp. cbn [negb].
  erewrite bind_Ret by exact E. cbn beta iota. cbn [fst snd].
  destruct (is_errExpiredToken err); cbn [negb].
  - rewrite bind_ret_l. reflexivity.
  - unfold log_print. rewrite bind_emit. reflexivity.
Qed.

Lemma Token_no_path : forall ask s,
  FileSource.Token_ env "" ask s = FileSource.Token_after_cache env "" ask s.
Proof. reflexivity. Qed.

(** Every run of [Token()] as [main] sets it up. *)
Lemma Token_run : forall path s,
  exists tr r s1,
    FileSource.Token_ env path (Some (FileSource.AuthCode env)) s = (tr, Ret r s1) /\
    match r with
    | inr tok =>
        (authorizations tr = O /\ writes tr = [] /\ cache_file s1 = cache_file s /\
         path <> "" /\ cache_file s = Some (Encoded tok)) \/
        (authorizations tr = 1%nat /\
         if (path =? "")%string
         then writes tr = [] /\ cache_file s1 = cache_file s
         else writes tr = [Encoded tok] /\ cache_file s1 = Some (Encoded tok))
    | inl e =>
        authorizations tr = 1%nat /\ writes tr = [] /\
        Token_failure env path e (cache_file s) (cache_file s1)
    end.
Proof.
  intros path s.
  assert (Hafter : forall pre s0,
            authorizations pre = O -> writes pre = [] ->
            cache_file s0 = cache_file s ->
            exists tr r s1,
              ((pre ++ fst (FileSource.Token_after_cache env path
                              (Some (FileSource.AuthCode env)) s0))%list,
               snd (FileSource.Token_after_cache env path
                      (Some (FileSource.AuthCode env)) s0)) = (tr, Ret r s1) /\
              match r with
              | inr tok =>
                  (authorizations tr = O /\ writes tr = [] /\
                   cache_file s1 = cache_file s /\
                   path <> "" /\ cache_file s = Some (Encoded tok)) \/
                  (authorizations tr = 1%nat /\
                   if (path =? "")%string
                   then writes tr = [] /\ cache_file s1 = cache_file s
                   else writes tr = [Encoded tok] /\ cache_file s1 = Some (Encoded tok))
              | inl e =>
                  authorizations tr = 1%nat /\ writes tr = [] /\
                  Token_failure env path e (cache_file s) (cache_file s1)
              end).
  { intros pre s0 Ha Hw Hc.
    destruct (Token_after_cache_trace path s0) as (tr & r & s1 & E & Ha' & _ & Hr).
    rewrite E. cbn [fst snd]. exists (pre ++ auth_code_prompt env ++ tr)%list, r, s1.
    split; [reflexivity | ].
    rewrite !authorizations_app, !writes_app, Ha, Hw, Ha'. cbn [app].
    change (authorizations (auth_code_prompt env)) with 1%nat.
    change (writes (auth_code_prompt env)) with (@nil content). cbn [app Nat.add].
    destruct (env_exchange env (S (tick s0))
                (FileSource.code_of env (env_stdin env (tick s0)))) as [msg | tok].
    - destruct Hr as (-> & Hw' & _ & Hc'). split; [reflexivity | ].
      split; [exact Hw' | ]. left. exists msg. split; [reflexivity | congruence].
    - destruct Hr as [(-> & _ & Hr) |
                      (Hp & Hw' & msg & _ & [[-> Hc'] | [-> Hc']])].
      + right. split; [reflexivity | ].
        destruct (path =? "")%string; destruct Hr as [Hr1 Hr2];
          split; congruence.
      + split; [reflexivity | ]. split; [exact Hw' | ].
        right. left. exists msg. split; [reflexivity | congruence].
      + split; [reflexivity | ]. split; [exact Hw' | ].
        right. right. exists msg. split; [reflexivity | ].
        destruct Hc' as [Hc' | [(m & Hc') | Hc']].
        * left. congruence.
        * right. left. exists m. exact Hc'.
        * right. right. exists tok. exact Hc'. }
  destruct (String.eqb_spec path "") as [-> | Hp].
  - rewrite Token_no_path.
    destruct (Hafter [] s eq_refl eq_refl eq_refl) as (tr & r & s1 & E & Hr).
    cbn [app] in E. rewrite <- surjective_pairing in E. eauto.
  - destruct (cachedToken_trace s)
      as [(Hc & E) | [(c & msg & Hc & He & E) | [(msg & Hc & He & E) |
          (tok & s1 & Hc & He & Hc1 & [(Hv & E) | (Hv & n & Hn & [(Hx & E) | (Hx & E)])])]]].
    + rewrite (Token_after_failure _ _ _ _ _ _ Hp E). cbn [is_errExpiredToken].
      rewrite app_assoc. apply Hafter; reflexivity.
    + rewrite (Token_after_failure _ _ _ _ _ _ Hp E). cbn [is_errExpiredToken].
      rewrite app_assoc. apply Hafter; reflexivity.
    + rewrite (Token_after_failure _ _ _ _ _ _ Hp E). cbn [is_errExpiredToken].
      rewrite app_assoc. apply Hafter; reflexivity.
    + rewrite (Token_cached _ _ _ _ _ _ Hp E). do 3 eexists.
      split; [reflexivity | ]. left. repeat split; auto.
    + rewrite (Token_after_failure _ _ _ _ _ _ Hp E). cbn [is_errExpiredToken app].
      exact (Hafter [] s1 eq_refl eq_refl Hc1).
    + rewrite (Token_after_failure _ _ _ _ _ _ Hp E). cbn [is_errExpiredToken app].
      apply (Hafter [Log (LogTokenFile path errInvalidToken)]);
        [reflexivity | reflexivity | exact Hc1].
Qed.

End FileTokenSourceRuns.

(** X10. [cachedToken] never writes the file and returns a token only when
    the file reads, parses and holds a token that is valid at that moment;
    it reports [errExpiredToken] or "invalid token" only for a file that
    parses to a token that is not valid, the former exactly when the expiry
    of the token lies before the current time; it reports the not-exist
    error exactly when there is no file; every other error is an error of
    the read or of the parser. *)
Theorem cachedToken_result : forall env s,
  exists tr r s1,
    FileSource.cachedToken env s = (tr, Ret r s1) /\
    writes tr = [] /\ cache_file s1 = cache_file s /\
    match r with
    | inr tok =>
        cache_file s = Some (Encoded tok) /\
        valid_at env tok (env_now env (S (tick s))) = true
    | inl e =>
        (e = errExpiredToken \/ e = errInvalidToken ->
         exists tok n,
           cache_file s = Some (Encoded tok) /\
           valid_at env tok (env_now env (S (tick s))) = false /\
           (S (tick s) <= n <= S (S (tick s)))%nat /\
           (e = errExpiredToken <-> Expiry tok < env_now env n)) /\
        (e = errNotExist <-> cache_file s = None) /\
        (e = errExpiredToken \/ e = errInvalidToken \/ e = errNotExist \/ foreign e)
    end.
Proof.
  intros env s.
  destruct (cachedToken_trace env s)
    as [(Hc & E) | [(c & msg & Hc & He & E) | [(msg & Hc & He & E) |
        (tok & s1 & Hc & He & Hc1 & [(Hv & E) | (Hv & n & Hn & [(Hx & E) | (Hx & E)])])]]];
    rewrite E; do 3 eexists; (split; [reflexivity | ]);
    (split; [reflexivity | ]); (split; [first [reflexivity | exact Hc1] | ]);
    cbn beta iota.
  - split; [intros [H | H]; discriminate H | ]. split.
    + split; auto.
    + auto.
  - split; [intros [H | H]; discriminate H | ]. split.
    + split; [discriminate | congruence].
    + do 3 right. exists msg. reflexivity.
  - split; [intros [H | H]; discriminate H | ]. split.
    + split; [discriminate | congruence].
    + do 3 right. exists msg. reflexivity.
  - split; assumption.
  - split.
    + intros _. exists tok, n. destruct Hn as [Hn1 Hn2]. repeat split; auto.
    + split; [split; [discriminate | congruence] | auto].
  - split.
    + intros _. exists tok, n. destruct Hn as [Hn1 Hn2].
      repeat split; auto; [discriminate | intro; lia].
    + split; [split; [discriminate | congruence] | auto].
Qed.

(** X11. [FileTokenSource.Token] with a cache path: a token of the cache is
    returned as it is, without another step; when the cache gives an error
    the user is asked for an authorization code, and the error is logged
    first unless it is the expired token, which is passed over in
    silence. *)
Theorem Token_logs_unless_expired : forall env path s,
  path <> "" ->
  exists tr_c r s1,
    FileSource.cachedToken env s = (tr_c, Ret r s1) /\
    match r with
    | inr tok =>
        FileSource.Token_ env path (Some (FileSource.AuthCode env)) s =
          (tr_c, Ret (inr tok) s1)
    | inl err =>
        logged (fst (FileSource.Token_ env path (Some (FileSource.AuthCode env)) s)) =
          (if is_errExpiredToken err then [] else [LogTokenFile path err]) /\
        authorizations
          (fst (FileSource.Token_ env path (Some (FileSource.AuthCode env)) s)) = 1%nat
    end.
Proof.
  intros env path s Hp.
  assert (Hfail : forall tr_c err s1,
            FileSource.cachedToken env s = (tr_c, Ret (inl err) s1) ->
            logged tr_c = [] -> authorizations tr_c = O ->
            logged (fst (FileSource.Token_ env path
                           (Some (FileSource.AuthCode env)) s)) =
              (if is_errExpiredToken err then [] else [LogTokenFile path err]) /\
            authorizations
              (fst (FileSource.Token_ env path
                      (Some (FileSource.AuthCode env)) s)) = 1%nat).
  { intros tr_c err s1 E Hl Ha.
    rewrite (Token_after_failure env _ _ _ _ _ _ Hp E). cbn [fst].
    destruct (Token_after_cache_trace env path s1) as (tr & r & s2 & Ea & Ha' & Hl' & _).
    rewrite Ea. cbn [fst].
    rewrite !logged_app, !authorizations_app, Hl, Ha, Hl', Ha'.
    destruct (is_errExpiredToken err); split; reflexivity. }
  destruct (cachedToken_trace env s)
    as [(Hc & E) | [(c & msg & Hc & He & E) | [(msg & Hc & He & E) |
        (tok & s1 & Hc & He & Hc1 & [(Hv & E) | (Hv & n & Hn & [(Hx & E) | (Hx & E)])])]]];
    do 3 eexists; (split; [exact E | ]); cbn beta iota;
    try (apply (Hfail _ _ _ E); reflexivity).
  apply Token_cached; assumption.
Qed.

Lemma Token_logs_unless_expired_witness :
  exists tr_c r s1,
    FileSource.cachedToken Sample.env1 (initial_state None) = (tr_c, Ret r s1) /\
    match r with
    | inr tok =>
        FileSource.Token_ Sample.env1 "token.json"
          (Some (FileSource.AuthCode Sample.env1)) (initial_state None) =
          (tr_c, Ret (inr tok) s1)
    | inl err =>
        logged (fst (FileSource.Token_ Sample.env1 "token.json"
                       (Some (FileSource.AuthCode Sample.env1)) (initial_state None))) =
          (if is_errExpiredToken err then [] else [LogTokenFile "token.json" err]) /\
        authorizations
          (fst (FileSource.Token_ Sample.env1 "token.json"
                  (Some (FileSource.AuthCode Sample.env1)) (initial_state None))) = 1%nat
    end.
Proof.
  apply (Token_logs_unless_expired Sample.env1 "token.json" (initial_state None)).
  discriminate.
Defined.

(** X12. [FileTokenSource.Token] without an [AuthCode] function returns the
    token of the cache exactly when there is a cache path whose file reads,
    parses and holds a token that is valid at that moment, and
    [ErrNoAuthCode] in every other case; it asks nothing, exchanges nothing
    and leaves the cache file as it is. *)
Theorem Token_without_AuthCode : forall env path s,
  exists tr r s1,
    FileSource.Token_ env path None s = (tr, Ret r s1) /\
    authorizations tr = O /\ writes tr = [] /\ cache_file s1 = cache_file s /\
    (forall tok,
       r = inr tok <->
       (path <> "" /\ cache_file s = Some (Encoded tok) /\
        env_read_error env (tick s) = None /\
        valid_at env tok (env_now env (S (tick s))) = true)) /\
    match r with
    | inr _ => True
    | inl e => e = ErrNoAuthCode
    end.
Proof.
  intros env path s.
  destruct (String.eqb_spec path "") as [-> | Hp].
  - rewrite Token_no_path. do 3 eexists. split; [reflexivity | ].
    repeat split; try discriminate. intros (Hp & _). elim Hp. reflexivity.
  - destruct (cachedToken_trace env s)
      as [(Hc & E) | [(c & msg & Hc & He & E) | [(msg & Hc & He & E) |
          (tok & s1 & Hc & He & Hc1 & [(Hv & E) | (Hv & n & Hn & [(Hx & E) | (Hx & E)])])]]];
      try (rewrite (Token_after_failure env _ _ _ _ _ _ Hp E);
           do 3 eexists; (split; [reflexivity | ]);
           repeat split; try assumption; try discriminate;
           intros (_ & Hc' & He' & Hv'); congruence).
    rewrite (Token_cached env _ _ _ _ _ _ Hp E).
    do 3 eexists. split; [reflexivity | ].
    repeat split; try assumption; try congruence.
    intros (_ & Hc' & _). congruence.
Qed.

(** X13. [FileTokenSource.Token] without a cache path never reads or writes
    the cache file: every call asks the user for a code and exchanges what
    the [AuthCode] closure makes of the line typed (the [code] parameter of
    a URL, else the line without the white space around it); the result is
    the token of the exchange, or its error, wrapped. *)
Theorem Token_without_cache_path : forall env s,
  exists tr r s1,
    FileSource.Token_ env "" (Some (FileSource.AuthCode env)) s = (tr, Ret r s1) /\
    authorizations tr = 1%nat /\ writes tr = [] /\ cache_failures tr = [] /\
    cache_file s1 = cache_file s /\
    match env_exchange env (S (tick s))
            (match query_code env (env_stdin env (tick s)) with
             | Some c =>
                 if (c =? "")%string then GoString.TrimSpace (env_stdin env (tick s))
                 else c
             | None => GoString.TrimSpace (env_stdin env (tick s))
             end)
    with
    | inl msg =>
        r = inl (errWrap "could not exchange auth code for a token: " (errMsg msg))
    | inr tok => r = inr tok
    end.
Proof.
  intros env s. rewrite Token_no_path. unfold FileSource.Token_after_cache.
  erewrite bind_Ret by apply AuthCode_run. cbn beta iota. cbn [fst snd].
  rewrite bind_next_tick. cbn [tick ticked].
  change (match query_code env (env_stdin env (tick s)) with
          | Some c =>
              if (c =? "")%string then GoString.TrimSpace (env_stdin env (tick s))
              else c
          | None => GoString.TrimSpace (env_stdin env (tick s))
          end) with (FileSource.code_of env (env_stdin env (tick s))).
  destruct (env_exchange env (S (tick s))
              (FileSource.code_of env (env_stdin env (tick s)))) as [msg | tok].
  - rewrite fail_with_run. do 3 eexists. split; [reflexivity | ]. repeat split.
  - do 3 eexists. split; [reflexivity | ]. repeat split.
Qed.

Lemma Token_without_cache_path_witness :
  exists tr s1,
    FileSource.Token_ Scenario.env_url "" (Some (FileSource.AuthCode Scenario.env_url))
      (initial_state None) = (tr, Ret (inr Sample.tok) s1) /\
    env_stdin Scenario.env_url O = "http://localhost:7319/?code=xyz&state=state" /\
    env_exchange Scenario.env_url 1 "xyz" = inr Sample.tok.
Proof.
  destruct (Token_without_cache_path Scenario.env_url (initial_state None))
    as (tr & r & s1 & E & _ & _ & _ & _ & Hr).
  exists tr, s1. split; [ | split; reflexivity].
  rewrite E. vm_compute in Hr. rewrite Hr. reflexivity.
Defined.

(** X14. A token that [FileTokenSource.Token] obtains by an exchange is
    written to the cache file before it is returned; a later call that
    finds the file readable and the token still valid returns that token
    without asking again. *)
Theorem exchanged_token_is_cached : forall env s tr tok s1,
  cachePath env <> "" ->
  FileSource.Token_ env (cachePath env) (Some (FileSource.AuthCode env)) s =
    (tr, Ret (inr tok) s1) ->
  authorizations tr <> O ->
  writes tr = [Encoded tok] /\ cache_file s1 = Some (Encoded tok) /\
  forall s2,
    cache_file s2 = cache_file s1 ->
    env_read_error env (tick s2) = None ->
    valid_at env tok (env_now env (S (tick s2))) = true ->
    exists s3,
      FileSource.Token_ env (cachePath env) (Some (FileSource.AuthCode env)) s2 =
        ([], Ret (inr tok) s3).
Proof.
  intros env s tr tok s1 Hp E Ha.
  destruct (Token_run env (cachePath env) s) as (tr0 & r & s0 & E0 & Hr).
  rewrite E in E0. inversion E0; subst tr0 r s0. clear E0.
  destruct Hr as [(Ha0 & _) | (_ & Hr)]; [contradiction | ].
  apply String.eqb_neq in Hp. rewrite Hp in Hr. destruct Hr as [Hw Hc].
  split; [exact Hw | ]. split; [exact Hc | ].
  intros s2 Hc2 Hread Hv.
  destruct (Token_usable env s2 tok) as (s3 & E3 & _).
  - split; [apply String.eqb_neq; exact Hp | ].
    split; [congruence | ]. split; assumption.
  - exists s3. exact E3.
Qed.

Lemma exchanged_token_is_cached_witness :
  exists tr s1,
    FileSource.Token_ Sample.env1 (cachePath Sample.env1)
      (Some (FileSource.AuthCode Sample.env1)) (initial_state None) =
      (tr, Ret (inr Sample.tok) s1) /\
    writes tr = [Encoded Sample.tok] /\ cache_file s1 = Some (Encoded Sample.tok) /\
    forall s2,
      cache_file s2 = cache_file s1 ->
      env_read_error Sample.env1 (tick s2) = None ->
      valid_at Sample.env1 Sample.tok (env_now Sample.env1 (S (tick s2))) = true ->
      exists s3,
        FileSource.Token_ Sample.env1 (cachePath Sample.env1)
          (Some (FileSource.AuthCode Sample.env1)) s2 =
          ([], Ret (inr Sample.tok) s3).
Proof.
  do 2 eexists. split; [vm_compute; reflexivity | ].
  apply (exchanged_token_is_cached Sample.env1 (initial_state None)).
  - vm_compute. discriminate.
  - vm_compute. reflexivity.
  - vm_compute. discriminate.
Defined.



(** The base transport after the token source has given a token, or an
    error. *)
Lemma oauth2_RoundTrip_after_token : forall env source url s tr tok s1,
  source s = (tr, Ret (inr tok) s1) ->
  (exists msg,
     oauth2_RoundTrip env source url s =
       ((tr ++ [Call OpNet; Error OpNet (errMsg msg)])%list,
        Ret (inl (errMsg msg)) (ticked s1))) \/
  (exists resp,
     oauth2_RoundTrip env source url s =
       ((tr ++ [Call OpNet])%list, Ret (inr resp) (ticked s1))).
Proof.
  intros env source url s tr tok s1 E. unfold oauth2_RoundTrip.
  erewrite bind_Ret by exact E. cbn beta iota. cbn [fst snd].
  rewrite bind_emit, bind_next_tick.
  destruct (env_net env (tick s1) url) as [msg | resp].
  - left. exists msg. reflexivity.
  - right. exists resp. reflexivity.
Qed.

Lemma oauth2_RoundTrip_after_error : forall env source url s tr e s1,
  source s = (tr, Ret (inl e) s1) ->
  oauth2_RoundTrip env source url s = (tr, Ret (inl e) s1).
Proof.
  intros env source url s tr e s1 E. unfold oauth2_RoundTrip.
  erewrite bind_Ret by exact E. cbn [fst snd ret]. rewrite app_nil_r. reflexivity.
Qed.

(** ** The [FileTokenSource] variant with a valid cached token *)

Section FileSourceValidCache.
Variable env : Env.
Variable t : Token.
Hypothesis Hpath : cachePath env <> "".
Hypothesis Hread : forall n, env_read_error env n = None.
Hypothesis Hvalid : forall n, valid_at env t (env_now env n) = true.

(** The reusing token source over [FileTokenSource]: it returns the valid
    token, from the cache file the first time, and holds it afterwards. *)
Lemma reuse_Token_ready : forall s,
  cache_ready t s ->
  exists s1,
    reuse_Token env (FileSource.Token_ env (cachePath env)
                       (Some (FileSource.AuthCode env))) s =
      ([], Ret (inr t) s1) /\
    cache_file s1 = cache_file s /\ src_token s1 = Some t.
Proof.
  intros s [Hc Hs]. unfold reuse_Token. rewrite bind_get_state.
  destruct Hs as [Hs | Hs]; rewrite Hs.
  - cbn [Valid]. rewrite bind_ret_l.
    destruct (Token_usable env s t) as (s1 & E & Hc1).
    { split; [exact Hpath | ]. split; [exact Hc | ]. split; [apply Hread | apply Hvalid]. }
    erewrite bind_Ret by exact E. cbn beta iota. cbn [app].
    eexists. split; [reflexivity | ]. split; [exact Hc1 | reflexivity].
  - destruct (Valid_valid_at env t s) as (s1 & E & Hs1).
    rewrite Hvalid in E. erewrite bind_Ret by exact E. cbn beta iota. cbn [app fst snd].
    exists s1. split; [reflexivity | ].
    destruct Hs1 as [-> | ->]; split; auto.
Qed.

Lemma FileSource_c_Get_ready : forall url s,
  cache_ready t s ->
  undisturbed (fst (FileSource.c_Get env url s)) /\
  exists r s1, snd (FileSource.c_Get env url s) = Ret r s1 /\ cache_ready t s1.
Proof.
  intros url s Hs.
  destruct (reuse_Token_ready s Hs) as (s1 & E & Hc1 & Hs1).
  destruct Hs as [Hc _].
  unfold FileSource.c_Get, http_Get. rewrite bind_emit.
  destruct (oauth2_RoundTrip_after_token env _ url s [] t s1 E) as [(msg & Er) | (resp & Er)];
    erewrite bind_Ret by exact Er; cbn [fst snd app bind emit ret].
  - split; [repeat split | ]. do 2 eexists. split; [reflexivity | ].
    split; [ | right]; cbn [cache_file src_token ticked]; congruence.
  - split; [repeat split | ]. do 2 eexists. split; [reflexivity | ].
    split; [ | right]; cbn [cache_file src_token ticked]; congruence.
Qed.

Lemma FileSource_main_quiet : forall fuel s,
  cache_file s = Some (Encoded t) ->
  undisturbed (fst (FileSource.main env fuel s)).
Proof.
  intros fuel s Hc. unfold FileSource.main.
  destruct (clientSecret env =? "")%string; [repeat split | ].
  erewrite bind_Ret by reflexivity. cbn beta iota. cbn [app fst snd].
  assert (Htick : forall s0, cache_ready t s0 -> cache_ready t (ticked s0)).
  { intros s0 [H1 H2]. split; assumption. }
  match goal with
  | |- undisturbed (fst (bind _ _ ?s2)) =>
      refine (proj1 (kept_bind (cache_ready t) undisturbed undisturbed_app _ _ _ _ _ _ s2 _))
  end.
  - apply (kept_tries_loop (FileSource.c_Get env) (cache_ready t) undisturbed);
      try (repeat split; fail); [exact undisturbed_app | exact FileSource_c_Get_ready].
  - intro response.
    apply (kept_after_tries env (FileSource.c_Get env) (cache_ready t) undisturbed);
      try (intros; repeat split; fail);
      [exact undisturbed_app | exact Htick | exact FileSource_c_Get_ready].
  - split; [exact Hc | left; reflexivity].
Qed.

End FileSourceValidCache.

(** X16. The [FileTokenSource] variant with a cache path whose file can be
    read and holds a token that is valid whenever it is checked: the run
    asks for no authorization code, the token source never fails, the cache
    file is not written, and every GET reaches the network exactly once. *)
Theorem FileSource_valid_cache_runs_silently : forall env fuel s t,
  cachePath env <> "" ->
  cache_file s = Some (Encoded t) ->
  (forall n, env_read_error env n = None) ->
  (forall n, valid_at env t (env_now env n) = true) ->
  authorizations (fst (FileSource.main env fuel s)) = O /\
  writes (fst (FileSource.main env fuel s)) = [] /\
  token_errors (fst (FileSource.main env fuel s)) = [] /\
  net_calls (fst (FileSource.main env fuel s)) =
    List.length (requested (fst (FileSource.main env fuel s))).
Proof.
  intros env fuel s t Hp Hc Hread Hvalid.
  exact (FileSource_main_quiet env t Hp Hread Hvalid fuel s Hc).
Qed.

Lemma FileSource_valid_cache_runs_silently_witness :
  authorizations (fst (FileSource.main Sample.env1 5
                         (initial_state (Some (Encoded Sample.tok))))) = O /\
  writes (fst (FileSource.main Sample.env1 5
                 (initial_state (Some (Encoded Sample.tok))))) = [] /\
  token_errors (fst (FileSource.main Sample.env1 5
                       (initial_state (Some (Encoded Sample.tok))))) = [] /\
  net_calls (fst (FileSource.main Sample.env1 5
                    (initial_state (Some (Encoded Sample.tok))))) =
    List.length (requested (fst (FileSource.main Sample.env1 5
                                   (initial_state (Some (Encoded Sample.tok)))))).
Proof.
  apply (FileSource_valid_cache_runs_silently Sample.env1 5
           (initial_state (Some (Encoded Sample.tok))) Sample.tok).
  - vm_compute. discriminate.
  - reflexivity.
  - intro n. reflexivity.
  - intro n. reflexivity.
Defined.

(** ** Failures of the [FileTokenSource] variant *)

Lemma source_event_clean : forall e, source_event e = true -> clean e = true.
Proof.
  intros [t | m | o | o e | c] H; simpl in *; try discriminate; auto;
    destruct o; simpl in *; try discriminate; auto.
Qed.

Lemma no_token_errors : forall tr,
  forallb no_token_error tr = true -> token_errors tr = [].
Proof.
  induction tr as [| e tr IH]; intro H; [reflexivity | ].
  cbn [forallb] in H. apply andb_prop in H. destruct H as [He H].
  destruct e as [t | m | o | o e | c]; cbn in He |- *; auto.
  destruct o; cbn in He |- *; auto. discriminate.
Qed.

Lemma token_error_seen_app : forall a b,
  token_error_seen a -> token_error_seen b -> token_error_seen (a ++ b)%list.
Proof.
  intros a b [Ha | Ha] [Hb | Hb]; unfold token_error_seen;
    rewrite token_errors_app, existsb_app.
  - left. rewrite Ha, Hb. reflexivity.
  - right. rewrite Hb. apply orb_true_r.
  - right. rewrite Ha. reflexivity.
  - right. rewrite Ha. reflexivity.
Qed.

Lemma clean_not_failed : forall tr,
  forallb clean tr = true -> existsb is_failure tr = true -> False.
Proof.
  induction tr as [| e tr IH]; intros Hc Hf; [discriminate Hf | ].
  cbn [forallb existsb] in *. apply andb_prop in Hc. destruct Hc as [He Hc].
  apply orb_prop in Hf. destruct Hf as [Hf | Hf]; [ | exact (IH Hc Hf)].
  unfold clean in He. rewrite Hf in He. discriminate He.
Qed.

Section FileSourceFailures.
Variable env : Env.

Lemma emits_Token_no_token_error : forall path,
  emits no_token_error
    (FileSource.Token_ env path (Some (FileSource.AuthCode env))).
Proof.
  intro path.
  pose proof (emits_Valid env no_token_error) as HV.
  pose proof (emits_time_Now env no_token_error) as HN.
  unfold FileSource.Token_, FileSource.cachedToken, FileSource.Token_after_cache,
    FileSource.AuthCode, ReadFile, WriteFile, json_Unmarshal, json_Marshal, log_print.
  cbv zeta. emits_auto.
Qed.

Lemma FileSource_c_Get_token_error_seen : forall url s,
  token_error_seen (fst (FileSource.c_Get env url s)).
Proof.
  intros url s. unfold FileSource.c_Get, http_Get. rewrite bind_emit.
  set (new := FileSource.Token_ env (cachePath env) (Some (FileSource.AuthCode env))).
  assert (Hsrc : exists tr r s1,
            reuse_Token env new s = (tr, Ret r s1) /\
            match r with inr _ => token_errors tr = [] | inl _ => True end).
  { unfold reuse_Token. rewrite bind_get_state.
    destruct (Valid env (src_token s) s) as [trv ov] eqn:Ev.
    destruct (Valid_inv env _ _ _ _ Ev) as (-> & b & s0 & -> & _).
    erewrite bind_Ret by exact Ev. cbn [app fst snd]. rewrite <- surjective_pairing.
    assert (Hslow : exists tr r s1,
              (r0 <- new ;;
               match r0 with
               | inl e => fail_with OpToken e
               | inr t => set_src_token (Some t) ;;; ret (inr t)
               end) s0 = (tr, Ret r s1) /\
              match r with inr _ => token_errors tr = [] | inl _ => True end).
    { destruct (emits_Token_no_token_error (cachePath env) s0) as [Hev (r & s1 & Hret)].
      fold new in Hev, Hret.
      destruct (new s0) as [tr o] eqn:En. cbn [fst snd] in Hev, Hret. subst o.
      erewrite bind_Ret by exact En. cbn beta iota.
      destruct r as [e | tok].
      - rewrite fail_with_run. cbn [fst snd]. do 3 eexists. split; [reflexivity | exact I].
      - cbn [fst snd]. do 3 eexists. split; [reflexivity | ].
        rewrite app_nil_r. apply no_token_errors. exact Hev. }
    destruct b; [destruct (src_token s) as [tok | ] | ]; try exact Hslow.
    do 3 eexists. split; [reflexivity | reflexivity]. }
  destruct Hsrc as (tr & r & s1 & E & Hr).
  destruct r as [e | tok].
  - erewrite bind_Ret by (apply oauth2_RoundTrip_after_error; exact E).
    cbn [fst snd ret bind emit app]. right.
    cbn [existsb]. rewrite existsb_app. cbn. apply orb_true_r.
  - destruct (oauth2_RoundTrip_after_token env _ url s tr tok s1 E)
      as [(msg & Er) | (resp & Er)];
      erewrite bind_Ret by exact Er; cbn [fst snd ret bind emit app].
    + right. cbn [existsb]. rewrite !existsb_app. cbn. rewrite !orb_true_r. reflexivity.
    + left. cbn [token_errors]. rewrite !token_errors_app, Hr. reflexivity.
Qed.

Lemma FileSource_main_good : forall fuel s,
  good clean is_failure (FileSource.main env fuel s).
Proof.
  intros fuel s. unfold FileSource.main.
  destruct (clientSecret env =? "")%string; [left; reflexivity | ].
  erewrite bind_Ret by reflexivity. cbn beta iota. cbn [app].
  rewrite <- surjective_pairing.
  apply (good_weaken clean clean tail_failure is_failure);
    [auto | apply tail_failure_is_failure | ].
  apply good_bind.
  - apply (good_tries_loop (FileSource.c_Get env) source_event clean
             (FileSource_c_Get_run env) source_event_clean).
    reflexivity.
  - intros response s1 tr1 _.
    apply (good_after_tries env (FileSource.c_Get env) source_event clean
             (FileSource_c_Get_run env) source_event_clean); reflexivity.
Qed.

Lemma FileSource_main_token_error_seen : forall fuel s,
  token_error_seen (fst (FileSource.main env fuel s)).
Proof.
  intros fuel s. unfold FileSource.main.
  destruct (clientSecret env =? "")%string; [left; reflexivity | ].
  erewrite bind_Ret by reflexivity. cbn beta iota. cbn [app fst snd].
  assert (Hget : forall url s0,
            True ->
            token_error_seen (fst (FileSource.c_Get env url s0)) /\
            exists r s1, snd (FileSource.c_Get env url s0) = Ret r s1 /\ True).
  { intros url s0 _. split; [apply FileSource_c_Get_token_error_seen | ].
    destruct (FileSource_c_Get_run env url s0) as (tr & s1 & resp & _ & [Hr | [e Hr]]);
      rewrite Hr; cbn [snd]; do 2 eexists; (split; [reflexivity | exact I]). }
  match goal with
  | |- token_error_seen (fst (bind _ _ ?s2)) =>
      refine (proj1 (kept_bind (fun _ => True) token_error_seen token_error_seen_app
                       _ _ _ _ _ _ s2 I))
  end.
  - apply (kept_tries_loop (FileSource.c_Get env) (fun _ => True) token_error_seen);
      try (intros; left; reflexivity); [exact token_error_seen_app | exact Hget].
  - intro response.
    apply (kept_after_tries env (FileSource.c_Get env) (fun _ => True) token_error_seen);
      try (intros; left; reflexivity);
      [exact token_error_seen_app | auto | exact Hget].
Qed.

End FileSourceFailures.

(** X17. In the [FileTokenSource] variant every failure is fatal, without
    exception: an error of a GET, of the decoding of a reply or of the
    parsing of the first date is followed by the log line that reports it
    and by exit status 1; an error of the token source (the exchange is
    refused, the token cannot be cached) makes the request fail and so ends
    the run in the same way. *)
Theorem FileSource_failures_are_fatal : forall env fuel s,
  (forall tr1 ev tr2,
     fst (FileSource.main env fuel s) = (tr1 ++ ev :: tr2)%list ->
     is_failure ev = true ->
     snd (FileSource.main env fuel s) = Exited 1 /\
     exists m, tr2 = [Log m] /\ reports m ev) /\
  (token_errors (fst (FileSource.main env fuel s)) <> [] ->
   snd (FileSource.main env fuel s) = Exited 1).
Proof.
  intros env fuel s. split.
  - intros tr1 ev tr2 E Hf.
    exact (good_failure_fatal _ _ _ _ _ (FileSource_main_good env fuel s) E Hf).
  - intro Ht.
    destruct (FileSource_main_token_error_seen env fuel s) as [H | H];
      [contradiction | ].
    destruct (FileSource_main_good env fuel s) as [Hc | [Ho _]]; [ | exact Ho].
    exfalso. exact (clean_not_failed _ Hc H).
Qed.

Lemma FileSource_failures_are_fatal_witness :
  snd (FileSource.main Sample.env_garbled 5 (initial_state (Some (Encoded Sample.tok))))
    = Exited 1 /\
  exists m,
    [Log (LogErr (errMsg "invalid character"))] = [Log m] /\
    reports m (Error OpDecode (errMsg "invalid character")).
Proof.
  apply (proj1 (FileSource_failures_are_fatal Sample.env_garbled 5
                  (initial_state (Some (Encoded Sample.tok))))
           [Call (OpGet timeseries_url); Call OpNet;
            Call (OpGet timeseries_url); Call OpNet]
           (Error OpDecode (errMsg "invalid character"))
           [Log (LogErr (errMsg "invalid character"))]).
  - vm_compute. reflexivity.
  - reflexivity.
Defined.

(** ** The time-series loop and the tail of [main] *)

(** X18. The loop [for tries < 2] of the two OAuth 2.0 variants sends the
    time-series request twice also when the first request succeeds: given
    fuel for two iterations, it returns exactly when both requests return
    without an error, and what it returns, and what is decoded afterwards,
    is the reply to the second request; the reply to the first is
    dropped. *)
Theorem tries_loop_returns_second_reply : forall get fuel s tr response s',
  (2 <= fuel)%nat ->
  (tries_loop get fuel 0 None s = (tr, Ret response s') <->
   exists tr1 r1 s1 tr2,
     get timeseries_url s = (tr1, Ret (r1, None) s1) /\
     get timeseries_url s1 = (tr2, Ret (response, None) s') /\
     tr = (tr1 ++ tr2)%list).
Proof.
  intros get fuel s tr response s' Hfuel.
  destruct fuel as [| [| fuel]]; try lia. clear Hfuel.
  cbn [tries_loop]. change (0 <? 2) with true. cbn beta iota. split.
  - intro H. apply bind_inv_Ret in H.
    destruct H as ([r1 [e | ]] & s1 & tr1 & tr_rest & E1 & H & ->);
      [discriminate H | ].
    change (0 + 1 <? 2) with true in H. cbn beta iota in H.
    apply bind_inv_Ret in H.
    destruct H as ([r2 [e | ]] & s2 & tr2 & tr_end & E2 & H & ->);
      [discriminate H | ].
    destruct fuel; cbn in H; inversion H; subst.
    + exists tr1, r1, s1, tr2. rewrite app_nil_r. auto.
    + exists tr1, r1, s1, tr2. rewrite app_nil_r. auto.
  - intros (tr1 & r1 & s1 & tr2 & E1 & E2 & ->).
    erewrite bind_Ret by exact E1. cbn beta iota.
    change (0 + 1 <? 2) with true. cbn beta iota.
    erewrite bind_Ret by exact E2. cbn beta iota.
    destruct fuel; cbn; rewrite app_nil_r; reflexivity.
Qed.

Lemma tries_loop_returns_second_reply_witness :
  exists tr1 r1 s1 tr2,
    Cacher.c_Get Sample.env1 timeseries_url Sample.ready = (tr1, Ret (r1, None) s1) /\
    Cacher.c_Get Sample.env1 timeseries_url s1 =
      (tr2,
       Ret (Some (Sample.ok (Sample.body_of [Sample.first_entry]
                                            [Sample.entry1; Sample.entry2])), None)
           {| tick := 4; cache_file := Some (Encoded Sample.tok);
              mux_registered := false; src_token := Some Sample.tok;
              src_refresh := "rt" |}) /\
    [Call (OpGet timeseries_url); Call OpNet;
     Call (OpGet timeseries_url); Call OpNet] = (tr1 ++ tr2)%list.
Proof.
  apply (proj1 (tries_loop_returns_second_reply (Cacher.c_Get Sample.env1) 2
                  Sample.ready _ _ _ (le_n 2))).
  vm_compute. reflexivity.
Defined.

(** X19. The range loop prints the entries in order up to the first one
    whose time has fewer than five bytes and panics there: the lines of the
    entries before it have been written, nothing of that entry or of the
    entries after it is. *)
Theorem print_entries_stops_at_short_time : forall pre bad post s,
  Forall (fun entry => (5 <= String.length (Time entry))%nat) pre ->
  (String.length (Time bad) < 5)%nat ->
  print_entries (pre ++ bad :: post) s =
    (map (fun entry =>
            Stdout (Date entry ++ " " ++ GoString.take 5 (Time entry) ++ " " ++
                    GoFmt.format_f1 (Weight entry) ++ GoString.nl)) pre,
     Panicked).
Proof.
  induction pre as [| entry pre IH]; intros bad post s Hpre Hbad.
  - cbn [app print_entries map]. unfold bind.
    rewrite print_entry_panics by exact Hbad. reflexivity.
  - inversion Hpre as [| ? ? H1 H2]; subst. cbn [app print_entries map].
    erewrite bind_Ret by (apply print_entry_ok; exact H1).
    rewrite (IH bad post s H2 Hbad). reflexivity.
Qed.

Lemma print_entries_stops_at_short_time_witness :
  print_entries
    ([Sample.entry1] ++
     {| Bmi := Sample.f64 false 0 0; Date := "2013-07-31"; Logid := 3;
        Time := "7:30"; Weight := Sample.w653 |} :: [Sample.entry2])
    (initial_state None) =
    ([Stdout ("2013-07-30 18:00 65.9" ++ GoString.nl)], Panicked).
Proof.
  assert (H : Forall (fun entry => (5 <= String.length (Time entry))%nat)
                [Sample.entry1]) by (repeat constructor).
  generalize (print_entries_stops_at_short_time [Sample.entry1]
                {| Bmi := Sample.f64 false 0 0; Date := "2013-07-31"; Logid := 3;
                   Time := "7:30"; Weight := Sample.w653 |}
                [Sample.entry2] (initial_state None) H ltac:(vm_compute; lia)).
  vm_compute. exact (fun x => x).
Defined.

(** X20. A first time-series entry whose date [time.Parse] rejects: the
    program logs the value and the error and exits with status 1, before
    any body-weight log is requested and before anything is written to
    standard output.  A value that is not ten bytes long is rejected. *)
Theorem unparsable_first_date_is_fatal : forall env get fuel resp first rest s,
  decode_timeseries (RespBody resp) = inr {| Entries := first :: rest |} ->
  (String.length (DateTime first) <> 10%nat \/ GoTime.Parse (DateTime first) = None) ->
  after_tries env get fuel (Some resp) s =
    ([Error OpParseDate (errMsg "parsing time");
      Log (LogParse (DateTime first) (errMsg "parsing time"))],
     Exited 1).
Proof.
  intros env get fuel resp first rest s Hdec Hbad.
  assert (Hnone : GoTime.Parse (DateTime first) = None).
  { destruct Hbad as [Hlen | H]; [ | exact H].
    unfold GoTime.Parse. destruct (GoTime.parse_day (DateTime first)) as [d | ] eqn:E;
      [ | reflexivity].
    exfalso. apply Hlen. revert E. generalize (DateTime first). clear.
    intros str E. unfold GoTime.parse_day in E.
    repeat (cbv beta iota in E;
            match type of E with
            | None = Some _ => discriminate E
            | match ?x with _ => _ end = Some _ => is_var x; destruct x
            end).
    reflexivity. }
  unfold after_tries, Decode. rewrite Hdec, bind_ret_l. cbn [Entries].
  rewrite Hnone. reflexivity.
Qed.

Lemma unparsable_first_date_is_fatal_witness :
  after_tries Sample.env1 (Cacher.c_Get Sample.env1) 5
    (Some (Sample.ok (Sample.body_of
                        [{| DateTime := "2013-07-30T18:00:00"; Value := "65.9" |}]
                        [Sample.entry1])))
    Sample.ready =
    ([Error OpParseDate (errMsg "parsing time");
      Log (LogParse "2013-07-30T18:00:00" (errMsg "parsing time"))],
     Exited 1).
Proof.
  apply (unparsable_first_date_is_fatal Sample.env1 (Cacher.c_Get Sample.env1) 5
           (Sample.ok (Sample.body_of
                         [{| DateTime := "2013-07-30T18:00:00"; Value := "65.9" |}]
                         [Sample.entry1]))
           {| DateTime := "2013-07-30T18:00:00"; Value := "65.9" |} []).
  - reflexivity.
  - left. vm_compute. discriminate.
Defined.

Lemma requested_bind_head : forall A B (m : M A) (f : A -> M B) s url,
  requested (fst (m s)) = [url] ->
  exists rest, requested (fst (bind m f s)) = url :: rest.
Proof.
  intros A B m f s url H. unfold bind.
  destruct (m s) as [tr [a s1 | c | | ]]; cbn [fst] in *;
    try (exists []; exact H).
  destruct (f a s1) as [tr2 o2]. cbn [fst].
  exists (requested tr2). rewrite requested_app, H. reflexivity.
Qed.

(** X21. Whether the window loop is entered depends on the first date
    alone: when the current time is not after the midnight that begins the
    day before the first entry, the tail of [main] returns without a
    request and without output; otherwise its first request is for the
    window that ends 29 days after the first entry, also in runs that fail
    later. *)
Theorem first_window_request : forall env v fuel resp first rest d0 s,
  decode_timeseries (RespBody resp) = inr {| Entries := first :: rest |} ->
  GoTime.parse_day (DateTime first) = Some d0 ->
  (env_now env (tick s) <= GoTime.midnight (d0 - 1) ->
   after_tries env (variant_Get env v) fuel (Some resp) s = ([], Ret tt (ticked s))) /\
  (GoTime.midnight (d0 - 1) < env_now env (tick s) -> (1 <= fuel)%nat ->
   exists urls,
     requested (fst (after_tries env (variant_Get env v) fuel (Some resp) s)) =
       weight_log_url (GoTime.midnight (d0 + 29)) :: urls).
Proof.
  intros env v fuel resp first rest d0 s Hdec Hparse.
  assert (Hstart : GoTime.Add (GoTime.midnight d0) (-24 * GoTime.Hour) =
                   GoTime.midnight (d0 - 1)).
  { unfold GoTime.Add, GoTime.midnight, GoTime.Day. ring. }
  assert (Hnext : GoTime.midnight (d0 - 1) + window = GoTime.midnight (d0 + 29)).
  { unfold GoTime.midnight, window, GoTime.Day. ring. }
  assert (Hrun : after_tries env (variant_Get env v) fuel (Some resp) s =
                 window_loop env (variant_Get env v) fuel (GoTime.midnight (d0 - 1))
                   {| Weights := [] |} s).
  { unfold after_tries, Decode. rewrite Hdec, bind_ret_l. cbn [Entries].
    unfold GoTime.Parse. rewrite Hparse. cbn [option_map]. rewrite Hstart.
    reflexivity. }
  rewrite Hrun, window_loop_step. split.
  - intro Hnow. apply Z.ltb_ge in Hnow. rewrite Hnow. reflexivity.
  - intros Hnow Hfuel. apply Z.ltb_lt in Hnow. rewrite Hnow.
    destruct fuel as [| fuel]; [lia | ]. rewrite Hnext.
    apply requested_bind_head.
    apply (window_body_requested (variant_Get env v) source_event
             (variant_Get_run env v) source_event_not_get).
Qed.

Lemma first_window_request_witness :
  exists urls,
    requested
      (fst (after_tries Sample.env1 (variant_Get Sample.env1 VCacher) 5
              (Some (Sample.ok (Sample.body_of [Sample.first_entry]
                                               [Sample.entry1; Sample.entry2])))
              Sample.ready)) =
      weight_log_url (GoTime.midnight (15916 + 29)) :: urls.
Proof.
  apply (proj2 (first_window_request Sample.env1 VCacher 5
                  (Sample.ok (Sample.body_of [Sample.first_entry]
                                             [Sample.entry1; Sample.entry2]))
                  Sample.first_entry [] 15916 Sample.ready eq_refl eq_refl)).
  - vm_compute. reflexivity.
  - vm_compute. lia.
Defined.

(** ** Termination of [main] *)

Lemma is_digit_val : forall c, GoString.is_digit c = true -> 0 <= GoString.digit_val c <= 9.
Proof.
  intros c H. unfold GoString.is_digit in H. unfold GoString.digit_val.
  apply andb_prop in H. destruct H as [H1 H2].
  apply Nat.leb_le in H1, H2. lia.
Qed.

Lemma value_of_nonneg : forall s acc,
  GoString.all_digits s = true -> 0 <= acc -> 0 <= GoString.value_of s acc.
Proof.
  induction s as [| c s IH]; intros acc H Hacc; cbn [GoString.value_of]; [exact Hacc | ].
  cbn [GoString.all_digits] in H. apply andb_prop in H. destruct H as [Hc Hs].
  apply IH; [exact Hs | ]. pose proof (is_digit_val c Hc). lia.
Qed.

Lemma days_from_civil_lower : forall y m d,
  0 <= y -> 1 <= m <= 12 -> 1 <= d ->
  GoTime.days_from_civil 0 1 1 <= GoTime.days_from_civil y m d.
Proof.
  intros y m d Hy Hm Hd. change (GoTime.days_from_civil 0 1 1) with (-719528).
  unfold GoTime.days_from_civil. cbv zeta.
  destruct (m <=? 2) eqn:E1; destruct (2 <? m) eqn:E2;
    try apply Z.leb_le in E1; try apply Z.leb_gt in E1;
    try apply Z.ltb_lt in E2; try apply Z.ltb_ge in E2; try lia.
  - Z.div_mod_to_equations; lia.
  - Z.div_mod_to_equations; lia.
Qed.

(** What [time.Parse] accepts: ten bytes, digits around two dashes, a month
    and a day in range; the result is the day number of that date. *)
Lemma parse_day_inv : forall str d,
  GoTime.parse_day str = Some d ->
  exists y m dd,
    0 <= y /\ 1 <= m <= 12 /\ 1 <= dd <= GoTime.daysIn m y /\
    d = GoTime.days_from_civil y m dd /\ String.length str = 10%nat.
Proof.
  intros str d E. unfold GoTime.parse_day in E.
  repeat (cbv beta iota in E;
          match type of E with
          | None = Some _ => discriminate E
          | match ?x with _ => _ end = Some _ => is_var x; destruct x
          end).
  match type of E with
  | (if ?b then _ else _) = _ => destruct b eqn:Hd; [ | discriminate E]
  end.
  cbv zeta in E.
  match type of E with
  | (if ?b then _ else _) = _ => destruct b eqn:Hr; [ | discriminate E]
  end.
  injection E as <-.
  apply andb_prop in Hr. destruct Hr as [Hr H4].
  apply andb_prop in Hr. destruct Hr as [Hr H3].
  apply andb_prop in Hr. destruct Hr as [H1 H2].
  apply Z.leb_le in H1, H2, H3, H4.
  match type of H4 with
  | ?D <= GoTime.daysIn ?M ?Y => exists Y, M, D
  end.
  split; [ | split; [split; assumption | split; [split; assumption | ]]].
  - apply value_of_nonneg; [ | lia].
    cbn [GoString.all_digits] in Hd |- *.
    repeat (apply andb_prop in Hd; destruct Hd as [? Hd]).
    repeat match goal with
           | H : GoString.is_digit _ = true |- _ => rewrite ?H; clear H
           end.
    reflexivity.
  - split; reflexivity.
Qed.

Lemma parse_day_lower : forall str d,
  GoTime.parse_day str = Some d -> GoTime.days_from_civil 0 1 1 <= d.
Proof.
  intros str d E.
  destruct (parse_day_inv str d E) as (y & m & dd & Hy & Hm & Hdd & -> & _).
  apply days_from_civil_lower; lia.
Qed.

Lemma iterations_mono : forall T e1 e2,
  e1 <= e2 -> (iterations T e2 <= iterations T e1)%nat.
Proof.
  intros T e1 e2 H. unfold iterations.
  assert (Hq : (T - e2 + window - 1) / window <= (T - e1 + window - 1) / window)
    by (apply Z.div_le_mono; [reflexivity | lia]).
  lia.
Qed.

Lemma bind_no_fuel_loss : forall A B (m : M A) (f : A -> M B) s,
  snd (m s) <> OutOfFuel ->
  (forall a s1, snd (f a s1) <> OutOfFuel) ->
  snd (bind m f s) <> OutOfFuel.
Proof.
  intros A B m f s Hm Hf. unfold bind.
  destruct (m s) as [tr [a s1 | c | | ]]; cbn [snd] in *; try discriminate; auto.
  specialize (Hf a s1). destruct (f a s1) as [tr2 o2]. exact Hf.
Qed.

Section Termination.
Variable env : Env.
Variable T : GoTime.Time.
Hypothesis HT : forall k, env_now env k <= T.
Variable get : string -> M (option Response * option error).
Variable inner : Event -> bool.
Hypothesis Hget : forall url s, get_run inner url (get url s).
Hypothesis Hinner : forall e, inner e = true -> not_get e = true.

Lemma get_returns : forall url s, exists r s1, snd (get url s) = Ret r s1.
Proof.
  intros url s. destruct (Hget url s) as (tr & s1 & resp & _ & [Hr | [e Hr]]);
    rewrite Hr; cbn [snd]; eauto.
Qed.

Lemma tries_loop_fuel : forall fuel tries response s,
  (Z.to_nat (2 - tries) <= fuel)%nat ->
  snd (tries_loop get fuel tries response s) <> OutOfFuel.
Proof.
  induction fuel as [| fuel IH]; intros tries response s Hfuel; cbn [tries_loop];
    destruct (tries <? 2) eqn:B; try discriminate.
  - apply Z.ltb_lt in B. lia.
  - apply Z.ltb_lt in B. apply bind_no_fuel_loss.
    + destruct (get_returns timeseries_url s) as (r & s1 & E). rewrite E. discriminate.
    + intros [resp [e | ]] s1; [rewrite log_fatal_run; discriminate | ].
      apply IH. lia.
Qed.

Lemma after_tries_fuel : forall fuel response s,
  (iterations T earliest_start <= fuel)%nat ->
  snd (after_tries env get fuel response s) <> OutOfFuel.
Proof.
  intros fuel response s Hfuel. unfold after_tries, Decode.
  destruct response as [resp | ]; [ | discriminate].
  destruct (decode_timeseries (RespBody resp)) as [e | ts].
  - erewrite bind_Ret by apply fail_with_run. cbn beta iota.
    rewrite log_fatal_run. discriminate.
  - rewrite bind_ret_l. destruct (Entries ts) as [| first rest]; [discriminate | ].
    unfold GoTime.Parse.
    destruct (GoTime.parse_day (DateTime first)) as [d0 | ] eqn:Ep; cbn [option_map].
    + apply (window_loop_bounded env get inner Hget Hinner T HT).
      eapply Nat.le_trans; [ | exact Hfuel]. apply iterations_mono.
      pose proof (parse_day_lower _ _ Ep) as Hlow.
      unfold earliest_start, GoTime.Add, GoTime.midnight, GoTime.Day.
      change (-24 * GoTime.Hour) with (- (24 * GoTime.Hour)).
      assert (0 < 24 * GoTime.Hour) by reflexivity. nia.
    + rewrite bind_emit, log_fatal_run. discriminate.
Qed.

Lemma rest_fuel : forall fuel s,
  (main_fuel T <= fuel)%nat ->
  snd (bind (tries_loop get fuel 0 None)
            (fun response => after_tries env get fuel response) s) <> OutOfFuel.
Proof.
  intros fuel s Hfuel. unfold main_fuel in Hfuel.
  apply bind_no_fuel_loss.
  - apply tries_loop_fuel. change (Z.to_nat (2 - 0)) with 2%nat. lia.
  - intros response s1. apply after_tries_fuel. lia.
Qed.

End Termination.

Section MainsTerminate.
Variable env : Env.
Variable T : GoTime.Time.
Hypothesis HT : forall k, env_now env k <= T.

Lemma Cacher_main_fuel : forall fuel s,
  (main_fuel T <= fuel)%nat -> snd (Cacher.main env fuel s) <> OutOfFuel.
Proof.
  intros fuel s Hfuel. unfold Cacher.main.
  destruct (clientSecret env =? "")%string; [discriminate | ].
  apply bind_no_fuel_loss.
  - destruct (startup_cases env s)
      as [(t & E) | [(tr & E & _) | [(tr & E & _) | (tr & t & s1 & E & _)]]];
      rewrite E; discriminate.
  - intros token s1. apply bind_no_fuel_loss; [discriminate | ]. intros [] s2.
    apply bind_no_fuel_loss.
    + destruct (probe_cases env s2)
        as (tr0 & _ & [(s3 & E) | [(e & _ & E) | [E | [(s3 & E) | (msg & E)]]]]);
        rewrite E; discriminate.
    + intros [] s3.
      apply (rest_fuel env T HT (Cacher.c_Get env) transport_event
               (Cacher_c_Get_run env) transport_event_not_get fuel s3 Hfuel).
Qed.

Lemma FileSource_main_fuel : forall fuel s,
  (main_fuel T <= fuel)%nat -> snd (FileSource.main env fuel s) <> OutOfFuel.
Proof.
  intros fuel s Hfuel. unfold FileSource.main.
  destruct (clientSecret env =? "")%string; [discriminate | ].
  apply bind_no_fuel_loss; [discriminate | ]. intros [] s1.
  apply (rest_fuel env T HT (FileSource.c_Get env) source_event
           (FileSource_c_Get_run env) source_event_not_get fuel s1 Hfuel).
Qed.

Lemma reauthorize_ends : forall s,
  snd (OAuth1.reauthorize env s) <> OutOfFuel.
Proof.
  intro s. unfold OAuth1.reauthorize. rewrite bind_emit, bind_next_tick.
  destruct (env_request_token env (tick s)) as [msg | [requestToken url]].
  - rewrite bind_emit, log_fatal_run. discriminate.
  - rewrite !bind_emit, bind_next_tick. cbv zeta. rewrite bind_next_tick.
    destruct (env_authorize_token env (tick (ticked (ticked s))) requestToken
                (env_scanln env (tick (ticked s)))) as [msg | a].
    + rewrite bind_emit, log_fatal_run. discriminate.
    + unfold log_print. rewrite bind_emit. discriminate.
Qed.

Lemma OAuth1_tries_loop_fuel : forall fuel tries response a s,
  (Z.to_nat (2 - tries) <= fuel)%nat ->
  snd (OAuth1.tries_loop env fuel tries response a s) <> OutOfFuel.
Proof.
  induction fuel as [| fuel IH]; intros tries response a s Hfuel;
    cbn [OAuth1.tries_loop]; destruct (tries <? 2) eqn:B; try discriminate.
  - apply Z.ltb_lt in B. lia.
  - apply Z.ltb_lt in B. apply bind_no_fuel_loss.
    + destruct (OAuth1_c_Get_cases env timeseries_url a s)
        as [(resp & E) | (resp & msg & E)]; rewrite E; discriminate.
    + intros [resp [e | ]] s1; [ | apply IH; lia].
      destruct (tries + 1 =? 1); [ | rewrite log_fatal_run; discriminate].
      destruct resp as [resp | ]; [ | discriminate].
      destruct (StatusCode resp =? 401); [ | rewrite log_fatal_run; discriminate].
      apply bind_no_fuel_loss; [apply reauthorize_ends | ].
      intros a' s2. apply IH. lia.
Qed.

Lemma OAuth1_main_fuel : forall fuel s,
  (main_fuel T <= fuel)%nat -> snd (OAuth1.main env fuel s) <> OutOfFuel.
Proof.
  intros fuel s Hfuel. unfold OAuth1.main.
  destruct ((consumerKey env =? "")%string || (consumerSecret env =? "")%string);
    [discriminate | ].
  cbv zeta. apply bind_no_fuel_loss.
  - apply OAuth1_tries_loop_fuel. unfold main_fuel in Hfuel.
    change (Z.to_nat (2 - 0)) with 2%nat. lia.
  - intros [response a] s1.
    apply (after_tries_fuel env T HT (fun url => OAuth1.c_Get env url a) transport_event).
    + intros url s0. apply OAuth1_c_Get_run.
    + apply transport_event_not_get.
    + unfold main_fuel in Hfuel. lia.
Qed.

End MainsTerminate.

(** X22. The program terminates.  While the clock does not pass [T], the
    three variants of [main] end (they return, exit or panic) within
    [main_fuel T] iterations of their loops, whatever the API replies: two
    iterations of the time-series loop, and at most the number of 30-day
    windows between the earliest date that [time.Parse] accepts and [T]. *)
Theorem main_terminates : forall env T fuel s,
  (forall k, env_now env k <= T) ->
  (main_fuel T <= fuel)%nat ->
  snd (Cacher.main env fuel s) <> OutOfFuel /\
  snd (FileSource.main env fuel s) <> OutOfFuel /\
  snd (OAuth1.main env fuel s) <> OutOfFuel.
Proof.
  intros env T fuel s HT Hfuel. split; [ | split].
  - apply (Cacher_main_fuel env T HT fuel s Hfuel).
  - apply (FileSource_main_fuel env T HT fuel s Hfuel).
  - apply (OAuth1_main_fuel env T HT fuel s Hfuel).
Qed.

Lemma main_terminates_witness :
  snd (Cacher.main Sample.env1 (main_fuel Sample.noon)
         (initial_state (Some (Encoded Sample.tok)))) <> OutOfFuel /\
  snd (FileSource.main Sample.env1 (main_fuel Sample.noon)
         (initial_state (Some (Encoded Sample.tok)))) <> OutOfFuel /\
  snd (OAuth1.main Sample.env1 (main_fuel Sample.noon)
         (initial_state (Some (Encoded Sample.tok)))) <> OutOfFuel.
Proof.
  apply (main_terminates Sample.env1 Sample.noon (main_fuel Sample.noon)
           (initial_state (Some (Encoded Sample.tok)))).
  - intro k. apply Z.le_refl.
  - apply le_n.
Defined.

Lemma bind_prefix : forall A B (m : M A) (f : A -> M B) s,
  exists tr, fst (bind m f s) = (fst (m s) ++ tr)%list.
Proof.
  intros A B m f s. unfold bind.
  destruct (m s) as [tr [a s1 | c | | ]]; cbn [fst].
  - destruct (f a s1) as [tr1 o]. exists tr1. reflexivity.
  - exists []. symmetry. apply app_nil_r.
  - exists []. symmetry. apply app_nil_r.
  - exists []. symmetry. apply app_nil_r.
Qed.

Lemma reauthorize_first : forall env s,
  exists tr, fst (OAuth1.reauthorize env s) = Call OpAuthorize :: tr.
Proof.
  intros env s. unfold OAuth1.reauthorize. rewrite bind_emit. cbn [fst].
  eexists. reflexivity.
Qed.

(** X23. The first request of the OAuth 1.0a variant fails.  If the consumer
    returns the error without a response, [response.StatusCode] is read from a
    nil pointer and the program panics right after the request, with nothing
    logged; with a response whose status is not 401 the error is fatal; with
    status 401 the next thing the program does is ask for a request token. *)
Theorem OAuth1_first_failure : forall env fuel s msg,
  (consumerKey env =? "")%string || (consumerSecret env =? "")%string = false ->
  snd (env_get1 env (tick s) timeseries_url
         {| Token1 := accessTokenToken env; Secret1 := accessTokenSecret env |})
    = Some msg ->
  match fst (env_get1 env (tick s) timeseries_url
               {| Token1 := accessTokenToken env; Secret1 := accessTokenSecret env |})
  with
  | None =>
      OAuth1.main env (S fuel) s =
        ([Call (OpGet timeseries_url); Error (OpGet timeseries_url) (errMsg msg)],
         Panicked)
  | Some resp =>
      if StatusCode resp =? 401 then
        exists tr,
          fst (OAuth1.main env (S fuel) s) =
            Call (OpGet timeseries_url) :: Error (OpGet timeseries_url) (errMsg msg)
              :: Call OpAuthorize :: tr
      else
        OAuth1.main env (S fuel) s =
          ([Call (OpGet timeseries_url); Error (OpGet timeseries_url) (errMsg msg);
            Log (LogErr (errMsg msg))],
           Exited 1)
  end.
Proof.
  intros env fuel s msg Hkeys Hmsg. unfold OAuth1.main. rewrite Hkeys. cbv zeta.
  cbn [OAuth1.tries_loop]. change (0 <? 2) with true. cbn beta iota.
  assert (E : OAuth1.c_Get env timeseries_url
                {| Token1 := accessTokenToken env; Secret1 := accessTokenSecret env |} s =
              ([Call (OpGet timeseries_url); Error (OpGet timeseries_url) (errMsg msg)],
               Ret (fst (env_get1 env (tick s) timeseries_url
                           {| Token1 := accessTokenToken env;
                              Secret1 := accessTokenSecret env |}),
                    Some (errMsg msg)) (ticked s))).
  { unfold OAuth1.c_Get, bind, emit, next_tick, ret. fold (ticked s).
    cbn [fst snd app]. rewrite Hmsg. reflexivity. }
  destruct (fst (env_get1 env (tick s) timeseries_url _)) as [resp | ].
  - destruct (StatusCode resp =? 401) eqn:B.
    + match goal with |- exists tr, fst (bind ?m ?f s) = _ =>
        destruct (bind_prefix _ _ m f s) as (tr1 & ->) end.
      erewrite bind_Ret by exact E. cbn beta iota.
      change (0 + 1 =? 1) with true. cbn beta iota. rewrite B. cbn [fst].
      match goal with |- context [fst (bind ?m ?f (ticked s))] =>
        destruct (bind_prefix _ _ m f (ticked s)) as (tr2 & ->) end.
      destruct (reauthorize_first env (ticked s)) as (tr3 & ->).
      eexists. cbn [app]. reflexivity.
    + apply bind_Exited. erewrite bind_Ret by exact E. cbn beta iota.
      change (0 + 1 =? 1) with true. cbn beta iota. rewrite B.
      rewrite log_fatal_run. reflexivity.
  - apply bind_Panicked. erewrite bind_Ret by exact E. reflexivity.
Qed.

Lemma OAuth1_first_failure_witness :
  OAuth1.main Scenario.env_unreachable 1 (initial_state None) =
    ([Call (OpGet timeseries_url);
      Error (OpGet timeseries_url) (errMsg "connection refused")],
     Panicked).
Proof.
  apply (OAuth1_first_failure Scenario.env_unreachable 0 (initial_state None)
           "connection refused"); reflexivity.
Defined.

(** * The failures of backup.go, and the cached token *)

Section ExpiredProbe.
Variable env : Env.

(** The probe in a process that has not registered the handler: it
    returns, or ends on an error that is not the expired token, or starts
    the authorization right after the expired-token error. *)
Lemma probe_fresh : forall s,
  mux_registered s = false ->
  exists tr0,
    forallb transport_event tr0 = true /\
    ((exists s1,
        Cacher.probe env s = (Call (OpGet timeseries_url) :: tr0, Ret tt s1)) \/
     (exists e,
        is_errExpiredToken e = false /\
        Cacher.probe env s =
          (Call (OpGet timeseries_url) ::
             (tr0 ++ [Error (OpGet timeseries_url) (urlError timeseries_url e);
                      Log (LogErr (urlError timeseries_url e))])%list,
           Exited 1)) \/
     (exists rest o,
        Cacher.probe env s =
          (Call (OpGet timeseries_url) ::
             (tr0 ++ expired_probe :: authorize_prompt env ++ rest)%list, o))).
Proof.
  intros s Hreg. unfold Cacher.probe.
  destruct (c_Get_cases_mux env timeseries_url s)
    as (tr0 & s1 & Hev & Hm & [(resp & E) | (e & E)]);
    exists tr0; (split; [exact Hev | ]);
    erewrite bind_Ret by exact E; cbn beta iota; cbn [fst snd].
  1:{ left. exists s1. cbn [ret app]. rewrite app_nil_r. reflexivity. }
  destruct (is_errExpiredToken e) eqn:Ex.
  - destruct e; try discriminate Ex. right; right.
    destruct (authorize_fresh env s1) as (tr & r & s2 & Ea & _ & _ & Hr);
      [congruence | ].
    erewrite bind_Ret by exact Ea. cbn beta iota.
    destruct r as [e | token]; subst tr.
    + rewrite log_fatal_run. cbn [fst snd].
      exists [Error OpAuthorize e;
              Log (LogReauth (urlError timeseries_url errExpiredToken) e)], (Exited 1).
      unfold expired_probe, expired_get. list_norm. reflexivity.
    + destruct (client_run token s2) as (s3 & Ec). rewrite Ec. cbn [fst snd].
      exists [], (Ret tt s3). unfold expired_probe, expired_get. list_norm. reflexivity.
  - right; left. exists e. split; [exact Ex | ].
    rewrite log_fatal_run. cbn [fst snd]. list_norm. reflexivity.
Qed.

(** What follows the probe begins with a GET, if it does anything. *)
Lemma rest_head : forall fuel s,
  fst (bind (tries_loop (Cacher.c_Get env) fuel 0 None)
            (fun response => after_tries env (Cacher.c_Get env) fuel response) s) = [] \/
  exists tl,
    fst (bind (tries_loop (Cacher.c_Get env) fuel 0 None)
              (fun response => after_tries env (Cacher.c_Get env) fuel response) s) =
      Call (OpGet timeseries_url) :: tl.
Proof.
  intros [| fuel] s; [left; reflexivity | right].
  match goal with |- exists tl, fst (bind ?m ?f s) = _ =>
    destruct (bind_prefix _ _ m f s) as (tr1 & ->) end.
  cbn [tries_loop]. change (0 <? 2) with true. cbn beta iota.
  match goal with |- exists tl, (fst (bind ?m ?f s) ++ _)%list = _ =>
    destruct (bind_prefix _ _ m f s) as (tr2 & ->) end.
  destruct (c_Get_cases env timeseries_url s)
    as (tr0 & s1 & _ & [(resp & E) | (e & E)]); rewrite E; cbn [fst app];
    eexists; reflexivity.
Qed.

Lemma probe_rest_reauthorizes : forall fuel s tr1 url tr2,
  mux_registered s = false ->
  fst (bind (Cacher.probe env)
            (fun _ =>
               bind (tries_loop (Cacher.c_Get env) fuel 0 None)
                    (fun response => after_tries env (Cacher.c_Get env) fuel response))
            s) = (tr1 ++ expired_get url :: tr2)%list ->
  requested tr1 = [url] -> authorizations tr1 = O ->
  exists rest, tr2 = (authorize_prompt env ++ rest)%list.
Proof.
  intros fuel s tr1 url tr2 Hmux H Hreq Hauth.
  destruct (probe_fresh s Hmux)
    as (tr0 & Hev & [(s3 & Ep) | [(e & Hne & Ep) | (rest & o & Ep)]]).
  - exfalso. erewrite bind_Ret in H by exact Ep. cbn [fst] in H.
    apply split_after_clean in H;
      [ | cbn [forallb clean is_failure negb andb];
          apply (forallb_weaken transport_event clean);
          [apply transport_event_clean | exact Hev]
        | reflexivity].
    destruct H as (mid & -> & Htl).
    rewrite requested_app in Hreq. cbn [requested] in Hreq.
    rewrite (requested_not_get tr0) in Hreq
      by (apply (forallb_weaken transport_event not_get);
          [apply transport_event_not_get | exact Hev]).
    cbn [app] in Hreq.
    destruct (rest_head fuel s3) as [Hr | (tl & Hr)]; rewrite Hr in Htl.
    + destruct mid; discriminate Htl.
    + destruct mid as [| x mid]; [discriminate Htl | ].
      injection Htl as <- _. discriminate Hreq.
  - exfalso. erewrite bind_Exited in H by exact Ep. cbn [fst] in H.
    change (Call (OpGet timeseries_url) ::
              (tr0 ++ [Error (OpGet timeseries_url) (urlError timeseries_url e);
                       Log (LogErr (urlError timeseries_url e))])%list)
      with ((Call (OpGet timeseries_url) :: tr0) ++
              [Error (OpGet timeseries_url) (urlError timeseries_url e);
               Log (LogErr (urlError timeseries_url e))])%list in H.
    apply split_after_clean in H;
      [ | cbn [forallb clean is_failure negb andb];
          apply (forallb_weaken transport_event clean);
          [apply transport_event_clean | exact Hev]
        | reflexivity].
    destruct H as (mid & _ & Htl).
    destruct mid as [| x [| y mid]].
    + unfold expired_get in Htl. cbn [app] in Htl.
      assert (He : e = errExpiredToken) by congruence.
      subst e. discriminate Hne.
    + discriminate Htl.
    + injection Htl as _ _ Htl. destruct mid; discriminate Htl.
  - destruct (bind_prefix _ _ (Cacher.probe env)
                (fun _ =>
                   bind (tries_loop (Cacher.c_Get env) fuel 0 None)
                        (fun response =>
                           after_tries env (Cacher.c_Get env) fuel response)) s)
      as (tr' & Hp).
    rewrite Hp, Ep in H. cbn [fst] in H.
    replace ((Call (OpGet timeseries_url) ::
                (tr0 ++ expired_probe :: authorize_prompt env ++ rest)) ++ tr')%list
      with ((Call (OpGet timeseries_url) :: tr0) ++
              (expired_probe :: authorize_prompt env ++ (rest ++ tr')))%list in H
      by (cbn [app]; list_norm; reflexivity).
    apply split_after_clean in H;
      [ | cbn [forallb clean is_failure negb andb];
          apply (forallb_weaken transport_event clean);
          [apply transport_event_clean | exact Hev]
        | reflexivity].
    destruct H as (mid & -> & Htl).
    destruct mid as [| x mid].
    + exists (rest ++ tr')%list. cbn [app] in Htl. congruence.
    + exfalso. unfold authorize_prompt, expired_get in Htl. cbn [app] in Htl.
      destruct mid as [| y mid]; cbn [app] in Htl; [congruence | ].
      assert (Hx : x = expired_probe) by congruence.
      assert (Hy : y = Call OpAuthorize) by congruence.
      subst x y. rewrite authorizations_app in Hauth.
      cbn [authorizations expired_probe expired_get] in Hauth. lia.
Qed.

Lemma expired_probe_reauthorizes : forall fuel s tr1 url tr2,
  mux_registered s = false ->
  fst (Cacher.main env fuel s) = (tr1 ++ expired_get url :: tr2)%list ->
  requested tr1 = [url] -> authorizations tr1 = O ->
  exists rest, tr2 = (authorize_prompt env ++ rest)%list.
Proof.
  intros fuel s tr1 url tr2 Hmux H Hreq Hauth.
  assert (Hnone : forall T,
            requested T = [] -> T = (tr1 ++ expired_get url :: tr2)%list -> False).
  { intros T HT E. apply (f_equal requested) in E.
    rewrite requested_app, Hreq, HT in E. discriminate E. }
  unfold Cacher.main in H.
  destruct (clientSecret env =? "")%string.
  { exfalso. rewrite log_fatal_run in H. cbn [fst] in H.
    eapply Hnone; [ | exact H]. reflexivity. }
  destruct (startup_good env s) as [_ Hsreq].
  destruct (startup_cases env s)
    as [(t & E) | [(tr & E & Ha) | [(tr & E & Ha) | (tr & t & s1 & E & Ha & Hm & _)]]].
  - erewrite bind_Ret in H by exact E. cbn beta iota in H. cbn [fst app] in H.
    unfold Cacher.client at 1 in H. unfold bind at 1 in H.
    unfold set_source at 1 in H. cbn beta iota in H.
    match type of H with
    | fst (let (tr', o) := ?X ?s2 in _) = _ =>
        pose proof (probe_rest_reauthorizes fuel s2 tr1 url tr2 Hmux) as Hp;
        destruct (X s2) as [tr' o]
    end.
    cbn [fst app] in H, Hp. exact (Hp H Hreq Hauth).
  - exfalso. erewrite bind_Exited in H by exact E. cbn [fst] in H.
    rewrite E in Hsreq. eapply Hnone; [ | exact H]. exact Hsreq.
  - exfalso. erewrite bind_Panicked in H by exact E. cbn [fst] in H.
    rewrite E in Hsreq. eapply Hnone; [ | exact H]. exact Hsreq.
  - exfalso. rewrite E in Hsreq. cbn [fst] in Hsreq.
    erewrite bind_Ret in H by exact E. cbn [fst] in H.
    apply app_eq_app in H. destruct H as (l & [[H1 H2] | [H1 H2]]).
    + rewrite H1, requested_app, Hreq in Hsreq. discriminate Hsreq.
    + rewrite H1, authorizations_app, Ha in Hauth. discriminate Hauth.
Qed.
End ExpiredProbe.


(** C3, as the code has it. In backup.go every error of a GET, of the
    decoding of a reply, of the parsing of the first date and of an
    authorization ends the run: the log line that reports it follows and the
    exit status is 1.  The one exception is the expired-token error of the
    first GET (the probe): in a run that has not authorized before, what
    follows it is the authorization, with its prompt.  An error of the
    token source after a successful exchange is not fatal: [RoundTrip]
    returns the response. *)
Theorem failures_are_fatal : forall env,
  (forall fuel s tr1 ev tr2,
     fst (Cacher.main env fuel s) = (tr1 ++ ev :: tr2)%list ->
     is_failure ev = true ->
     (snd (Cacher.main env fuel s) = Exited 1 /\
      exists m, tr2 = [Log m] /\ reports m ev) \/
     (exists url, ev = expired_get url /\ requested tr1 = [url])) /\
  (forall fuel s tr1 url tr2,
     mux_registered s = false ->
     fst (Cacher.main env fuel s) = (tr1 ++ expired_get url :: tr2)%list ->
     requested tr1 = [url] -> authorizations tr1 = O ->
     exists rest, tr2 = (authorize_prompt env ++ rest)%list) /\
  (forall cached url s0 tr_1 t s_1 tr_2 resp s_2 tr_3 e s_3,
     Cacher.Source_Token env s0 = (tr_1, Ret (inr t) s_1) ->
     oauth2_RoundTrip env (Cacher.Source_Token env) url s_1 =
       (tr_2, Ret (inr resp) s_2) ->
     Cacher.Source_Token env s_2 = (tr_3, Ret (inl e) s_3) ->
     Cacher.RoundTrip_with env cached url s0 =
       ((tr_1 ++ tr_2 ++ tr_3)%list, Ret (inr resp) s_3)).
Proof.
  intro env. split; [ | split].
  - intros fuel s tr1 ev tr2 E Hf.
    eapply good_but_first_failure; eauto. apply main_good_but_first.
  - apply expired_probe_reauthorizes.
  - apply RoundTrip_with_swallows.
Qed.

Lemma failures_are_fatal_witness :
  ((snd (Cacher.main Sample.env_garbled 5 (initial_state (Some (Encoded Sample.tok))))
      = Exited 1 /\
    exists m,
      [Log (LogErr (errMsg "invalid character"))] = [Log m] /\
      reports m (Error OpDecode (errMsg "invalid character"))) \/
   (exists url,
      Error OpDecode (errMsg "invalid character") = expired_get url /\
      requested [Call (OpGet timeseries_url); Call OpNet;
                 Call (OpGet timeseries_url); Call OpNet;
                 Call (OpGet timeseries_url); Call OpNet] = [url])) /\
  exists rest,
    skipn 4 (fst (Cacher.main Sample.env_reauth 5
                    (initial_state (Some (Encoded Sample.tok_exp))))) =
      (authorize_prompt Sample.env_reauth ++ rest)%list.
Proof.
  split.
  - apply (proj1 (failures_are_fatal Sample.env_garbled) 5%nat
             (initial_state (Some (Encoded Sample.tok)))
             [Call (OpGet timeseries_url); Call OpNet;
              Call (OpGet timeseries_url); Call OpNet;
              Call (OpGet timeseries_url); Call OpNet]
             (Error OpDecode (errMsg "invalid character"))
             [Log (LogErr (errMsg "invalid character"))]).
    + vm_compute. reflexivity.
    + reflexivity.
  - apply (proj1 (proj2 (failures_are_fatal Sample.env_reauth)) 5%nat
             (initial_state (Some (Encoded Sample.tok_exp)))
             [Call (OpGet timeseries_url);
              Error OpRefresh (errMsg "invalid_grant");
              Error OpToken (errMsg "invalid_grant")]
             timeseries_url).
    + reflexivity.
    + vm_compute. reflexivity.
    + reflexivity.
    + reflexivity.
Defined.

(** C3 as stated fails.  In the first run the token source fails (the
    refresh request is refused right after the exchange of the probe); the
    failure is neither logged nor fatal, and [main] returns.  In the second
    run the cached token has expired, the program re-authorizes, and the API
    rejects the new token too, with status 401 on every request: the
    program never looks at the status, decodes the error object, logs that
    there are no values and exits with status 0. *)
Lemma failure_not_fatal :
  (In (Error OpToken (errMsg "token endpoint unreachable"))
      (fst (Cacher.main Sample.env_swallow 5
              (initial_state (Some (Encoded Sample.tok_exp))))) /\
   logged (fst (Cacher.main Sample.env_swallow 5
                  (initial_state (Some (Encoded Sample.tok_exp))))) = [] /\
   exists s',
     snd (Cacher.main Sample.env_swallow 5
            (initial_state (Some (Encoded Sample.tok_exp)))) = Ret tt s') /\
  ((forall n url, exists resp,
      env_net Scenario.env_rejected n url = inr resp /\ StatusCode resp = 401) /\
   authorizations (fst (Cacher.main Scenario.env_rejected 5
                          (initial_state (Some (Encoded Scenario.stale))))) = 1%nat /\
   logged (fst (Cacher.main Scenario.env_rejected 5
                  (initial_state (Some (Encoded Scenario.stale))))) =
     [LogText "The fitbit API returned no values."] /\
   snd (Cacher.main Scenario.env_rejected 5
          (initial_state (Some (Encoded Scenario.stale)))) = Exited 0).
Proof.
  split; [vm_compute; split; [ | split] | split; [ | vm_compute; repeat split]].
  - do 3 right. left. reflexivity.
  - reflexivity.
  - eexists. reflexivity.
  - intros n url. eexists. split; reflexivity.
Qed.

Section CachedTokenDecides.
Variable env : Env.





Lemma reusable_dec : forall s t, reusable env s t \/ ~ reusable env s t.
Proof.
  intros s t. unfold reusable.
  destruct (valid_at env t (env_now env (S (S (tick s))))); [left; left; reflexivity | ].
  destruct (String.eqb_spec (RefreshToken t) "") as [He | Hne].
  - right. intros [H | (H & _)]; [discriminate H | contradiction].
  - destruct (env_refresh env (refresh_tick s t)) as [msg | tk] eqn:E.
    + right. intros [H | (_ & tk & H)]; discriminate H.
    + left. right. split; [exact Hne | exists tk; reflexivity].
Qed.


End CachedTokenDecides.


